(** * FastNN [utils.py]: block-sparse mask reduction, gather and scatter

    A shallow embedding of [reduce_mask], [sparse_gather] and
    [sparse_scatter].

    - Python integers are [Z]; the shape lists [msize], [xsize], [bsize],
      [bcount], [boffset], [bstride] are tuples, an index list is a list of
      triples.
    - A tensor is its shape together with an indexing function; indexing and
      slicing follow Python: negative indices count from the end, slice
      bounds are clamped, an integer index out of range raises.
    - What torch computes on elements is a parameter of the function that
      uses it: the float32 mean of a block of the mask in [reduce_mask], the
      conversion to the float32 batch in [sparse_gather], the conversion from
      the batch and the in-place addition in [sparse_scatter].  A concrete
      float32 model instantiates them in the examples.
    - Exceptions are an error type.  [sparse_scatter] mutates its argument in
      place: it is state passing, and the tensor reached so far is returned
      together with the outcome, also when an exception ends the loop. *)

From Stdlib Require Import ZArith QArith Qabs Qround List Lia Bool String Sorted.
Import ListNotations.
Open Scope Z_scope.

Set Default Proof Using "Type".

(** ** Python exceptions and results *)

Inductive exn : Type :=
| AssertionError (msg : string)
| IndexError
| RuntimeError
| ZeroDivisionError.

Inductive result (A : Type) : Type :=
| Ok (a : A)
| Raise (e : exn).
Arguments Ok {A} a.
Arguments Raise {A} e.

Definition bind {A B : Type} (m : result A) (k : A -> result B) : result B :=
  match m with
  | Ok a => k a
  | Raise e => Raise e
  end.

Notation "x <- m ;; k" := (bind m (fun x => k))
  (at level 61, m at next level, right associativity).

(** [assert cond, msg] *)
Definition py_assert (cond : bool) (msg : string) : result unit :=
  if cond then Ok tt else Raise (AssertionError msg).

(** A [for] loop over a list whose body may raise: the loop state is threaded
    through the iterations and the first exception ends the loop. *)
Fixpoint for_each {A S : Type} (l : list A) (body : A -> S -> result S) (s : S)
  : result S :=
  match l with
  | [] => Ok s
  | a :: l' => s' <- body a s ;; for_each l' body s'
  end.

(** ** Python indexing *)

(** [range(n)]: empty when [n <= 0]. *)
Definition py_range (n : Z) : list Z :=
  map Z.of_nat (seq 0 (Z.to_nat n)).

(** The integers [lo, lo+1, ..., hi-1]. *)
Definition range_from (lo hi : Z) : list Z :=
  map (fun k => lo + Z.of_nat k) (seq 0 (Z.to_nat (hi - lo))).

(** One bound of a slice [a:b] on an axis of length [len]: a negative bound
    counts from the end, and the bound is then clamped to [0, len]. *)
Definition slice_bound (len i : Z) : Z :=
  if i <? 0 then Z.max (i + len) 0 else Z.min i len.

(** An integer index on an axis of length [len]: negative indices count from
    the end; anything outside [-len, len) raises. *)
Definition py_index (len i : Z) : result Z :=
  if (i <? - len) || (len <=? i) then Raise IndexError
  else Ok (if i <? 0 then i + len else i).

(** [a % b] on Python integers: floored, raising on a zero divisor. *)
Definition py_mod (a b : Z) : result Z :=
  if b =? 0 then Raise ZeroDivisionError else Ok (a mod b).

(** ** The mask tensor and [reduce_mask] *)

(** A mask of any rank: [mask.size()] and the element at a multi-index. *)
Record mask_tensor : Type := {
  mask_size : list Z;
  mask_at : list Z -> Q
}.

(** The 2-D tensor [mask[N, a:b, c:d]], row by row.  Reached only after the
    rank assertion. *)
Definition mask_block (mask : mask_tensor) (N a b c d : Z)
  : result (list (list Q)) :=
  match mask_size mask with
  | [d0; d1; d2] =>
      n <- py_index d0 N ;;
      Ok (map
            (fun r => map (fun q => mask_at mask [n; r; q])
                          (range_from (slice_bound d2 c) (slice_bound d2 d)))
            (range_from (slice_bound d1 a) (slice_bound d1 b)))
  | _ => Raise IndexError
  end.

(** [val > thresh] on Python floats; every comparison with NaN, here [None],
    is false. *)
Definition gt (val : option Q) (thresh : Q) : bool :=
  match val with
  | Some v => negb (Qle_bool v thresh)
  | None => false
  end.

Section ReduceMask.

(** [block.mean().item()]: the mean that torch computes for a 2-D block, in
    the block's float32 arithmetic, as a Python float; NaN is [None].  The
    computation is torch's, not this source's: a parameter. *)
Variable mean : list (list Q) -> option Q.

Variables (mask : mask_tensor) (msize : Z * Z * Z).
Variables (bsize bcount boffset bstride : Z * Z) (thresh : Q).

Definition msize0 : Z := fst (fst msize).
Definition msize1 : Z := snd (fst msize).
Definition msize2 : Z := snd msize.

(** [block.mean().item()] for the cell [(N, h0, w0)]. *)
Definition cell_val (N h0 w0 : Z) : result (option Q) :=
  let bh_index := fst boffset + h0 * fst bstride in
  let bw_index := snd boffset + w0 * snd bstride in
  block <- mask_block mask N
             bh_index (Z.min (bh_index + fst bsize) msize1)
             bw_index (Z.min (bw_index + snd bsize) msize2) ;;
  Ok (mean block).

(** The body of the innermost loop; the state is
    [(activeBlockIndices, count_index)]. *)
Definition reduce_mask_body (N h0 w0 : Z) (st : list (Z * Z * Z) * Z)
  : result (list (Z * Z * Z) * Z) :=
  val <- cell_val N h0 w0 ;;
  let active := if gt val thresh then true else false in
  if active then Ok (fst st ++ [(N, h0, w0)], snd st + 1) else Ok st.

(** The two divisibility tests joined by a short-circuit [and]. *)
Definition partition_test : result bool :=
  r1 <- py_mod msize1 (fst bcount) ;;
  if r1 =? 0 then
    r2 <- py_mod msize2 (snd bcount) ;;
    Ok (r2 =? 0)
  else Ok false.

(** The assertions of [reduce_mask], in order.  The four [type(...) in
    [list, tuple]] assertions hold by typing: the arguments are pairs. *)
Definition reduce_mask_checks : result unit :=
  _ <- py_assert (Z.of_nat (List.length (mask_size mask)) =? 3)
         "Expect mask rank = 3"%string ;;
  _ <- py_assert (fst bsize =? snd bsize)
         "Expect block to be a square, bsize[0] == bsize[1]"%string ;;
  ok <- partition_test ;;
  py_assert ok "Mask cannot be partioned into given grid shape"%string.

Definition reduce_mask : result (list (Z * Z * Z)) :=
  _ <- reduce_mask_checks ;;
  st <- for_each (py_range msize0) (fun N =>
          for_each (py_range (fst bcount)) (fun h0 =>
            for_each (py_range (snd bcount)) (fun w0 =>
              reduce_mask_body N h0 w0))) ([], 0) ;;
  Ok (fst st).

End ReduceMask.

(** ** Feature tensors *)

(** The place in a tensor that [x[B, :, a:b, c:d]] denotes: the batch index
    and the row and column ranges after slice normalisation. *)
Record window : Type := {
  wB : Z;
  wh0 : Z; wh1 : Z;
  ww0 : Z; ww1 : Z
}.

(** The number of indices in [lo:hi] once normalised. *)
Definition span (lo hi : Z) : Z := Z.max 0 (hi - lo).

(** Broadcasting, as tensor assignment and in-place addition do it: on each
    axis the source has the destination's length, or length 1 and is
    repeated; anything else raises. *)
Definition expandable (src dst : Z) : bool := (src =? dst) || (src =? 1).
Definition bcast (src i : Z) : Z := if src =? 1 then 0 else i.

Definition within (lo hi i : Z) : bool := (lo <=? i) && (i <? hi).

Definition xsize1 (xsize : Z * Z * Z * Z) : Z := snd (fst (fst xsize)).
Definition xsize2 (xsize : Z * Z * Z * Z) : Z := snd (fst xsize).
Definition xsize3 (xsize : Z * Z * Z * Z) : Z := snd xsize.

Section Tensors.

(** The element type. *)
Variable T : Type.

(** A 4-D tensor indexed (batch, channel, row, column): its shape and the
    element at each index.  Only indices inside the shape are elements. *)
Record tensor : Type := {
  dimN : Z; dimC : Z; dimH : Z; dimW : Z;
  at4 : Z -> Z -> Z -> Z -> T
}.

(** A 3-D tensor (channel, row, column): the value of [x[B, :, a:b, c:d]]
    and of [gathered[i]]. *)
Record block : Type := {
  blkC : Z; blkH : Z; blkW : Z;
  at3 : Z -> Z -> Z -> T
}.

Definition locate (x : tensor) (B a b c d : Z) : result window :=
  n <- py_index (dimN x) B ;;
  Ok {| wB := n;
        wh0 := slice_bound (dimH x) a; wh1 := slice_bound (dimH x) b;
        ww0 := slice_bound (dimW x) c; ww1 := slice_bound (dimW x) d |}.

(** Reading the window: a view of [x]. *)
Definition view (x : tensor) (w : window) : block :=
  {| blkC := dimC x;
     blkH := span (wh0 w) (wh1 w);
     blkW := span (ww0 w) (ww1 w);
     at3 := fun c r q => at4 x (wB w) c (wh0 w + r) (ww0 w + q) |}.

(** [gathered[i]] *)
Definition slot (g : tensor) (i : Z) : result block :=
  n <- py_index (dimN g) i ;;
  Ok {| blkC := dimC g; blkH := dimH g; blkW := dimW g; at3 := at4 g n |}.

(** A source broadcast onto a destination shape. *)
Definition expand (src : block) (C H W : Z) : result block :=
  if expandable (blkC src) C && expandable (blkH src) H && expandable (blkW src) W
  then Ok {| blkC := C; blkH := H; blkW := W;
             at3 := fun c r q => at3 src (bcast (blkC src) c)
                                         (bcast (blkH src) r)
                                         (bcast (blkW src) q) |}
  else Raise RuntimeError.

(** Is [(n, c, h, q)] an element of [x] inside the window? *)
Definition in_window (x : tensor) (w : window) (n c h q : Z) : bool :=
  (n =? wB w) && within 0 (dimC x) c
  && within (wh0 w) (wh1 w) h && within (ww0 w) (ww1 w) q.

(** [torch.empty((n, c, h, w))]: the content is whatever the memory held,
    here the parameter [uninit]; a negative length raises. *)
Definition torch_empty (uninit : Z -> Z -> Z -> Z -> T) (n c h w : Z)
  : result tensor :=
  if (n <? 0) || (c <? 0) || (h <? 0) || (w <? 0) then Raise RuntimeError
  else Ok {| dimN := n; dimC := c; dimH := h; dimW := w; at4 := uninit |}.

(** [x[B, :, bh_index:min(bh_index+bsize[0], xsize[2]),
          bw_index:min(bw_index+bsize[1], xsize[3])]] as a place. *)
Definition block_window (xsize : Z * Z * Z * Z) (bsize boffset bstride : Z * Z)
           (x : tensor) (idx : Z * Z * Z) : result window :=
  let '(B, h0, w0) := idx in
  let bh_index := fst boffset + h0 * fst bstride in
  let bw_index := snd boffset + w0 * snd bstride in
  locate x B bh_index (Z.min (bh_index + fst bsize) (xsize2 xsize))
           bw_index (Z.min (bw_index + snd bsize) (xsize3 xsize)).

End Tensors.

Arguments dimN {T} t.
Arguments dimC {T} t.
Arguments dimH {T} t.
Arguments dimW {T} t.
Arguments at4 {T} t.
Arguments Build_tensor {T}.
Arguments blkC {T} b.
Arguments blkH {T} b.
Arguments blkW {T} b.
Arguments at3 {T} b.
Arguments Build_block {T}.
Arguments locate {T}.
Arguments view {T}.
Arguments slot {T}.
Arguments expand {T}.
Arguments in_window {T}.
Arguments torch_empty {T}.
Arguments block_window {T}.

(** ** [sparse_gather] *)

Section Gather.

(** The element type of [x] and the element type of the batch. *)
Variables V F : Type.

(** The conversion of an element of [x] to an element of the batch.
    [torch.empty] is called without a dtype, so the batch is float32 whatever
    [x] is, and the assignment [gathered[count_index] = x[...]] converts each
    element it copies. *)
Variable to_float32 : V -> F.

(** [gathered[i] = src] *)
Definition assign_slot (g : tensor F) (i : Z) (src : block V) : result (tensor F) :=
  n <- py_index (dimN g) i ;;
  s <- expand src (dimC g) (dimH g) (dimW g) ;;
  Ok {| dimN := dimN g; dimC := dimC g; dimH := dimH g; dimW := dimW g;
        at4 := fun m c r q =>
                 if (m =? n) && within 0 (dimC g) c
                    && within 0 (dimH g) r && within 0 (dimW g) q
                 then to_float32 (at3 s c r q)
                 else at4 g m c r q |}.

(** The body of the gather loop; the state is [(gathered, count_index)]. *)
Definition gather_body (xsize : Z * Z * Z * Z) (bsize boffset bstride : Z * Z)
           (x : tensor V) (idx : Z * Z * Z) (st : tensor F * Z)
  : result (tensor F * Z) :=
  w <- block_window xsize bsize boffset bstride x idx ;;
  gathered <- assign_slot (fst st) (snd st) (view x w) ;;
  Ok (gathered, snd st + 1).

(** [bcount] is accepted and never used, as in the source. *)
Definition sparse_gather (uninit : Z -> Z -> Z -> Z -> F) (x : tensor V)
           (xsize : Z * Z * Z * Z) (activeBlockIndices : list (Z * Z * Z))
           (bsize bcount boffset bstride : Z * Z) : result (tensor F) :=
  _ <- py_assert (fst bsize =? snd bsize)
         "Expect block to be a square, bsize[0] == bsize[1]"%string ;;
  gathered <- torch_empty uninit (Z.of_nat (List.length activeBlockIndices))
                (xsize1 xsize) (fst bsize) (snd bsize) ;;
  st <- for_each activeBlockIndices
          (gather_body xsize bsize boffset bstride x) (gathered, 0) ;;
  Ok (fst st).

End Gather.

Arguments assign_slot {V F}.
Arguments gather_body {V F}.
Arguments sparse_gather {V F}.

(** ** [sparse_scatter] *)

Section Scatter.

(** The element type of [x] and the element type of the batch. *)
Variables V G : Type.

(** The conversion of an element of the batch to an element of [x], which
    the assignment [x[...] = gathered[count_index]] applies to each element it
    copies. *)
Variable of_batch : G -> V.

(** [x[...] += gathered[count_index]] on one element: the old element of
    [x] and the element of the batch give the new element of [x].  [None]
    when torch refuses the in-place addition for the two element types (a
    floating-point batch into an integer tensor). *)
Variable iadd : option (V -> G -> V).

(** Writing through the window: every element inside it becomes
    [f old new], where [new] is the element of [src] at the same offset. *)
Definition update_window (x : tensor V) (w : window) (f : V -> G -> V)
           (src : block G) : tensor V :=
  {| dimN := dimN x; dimC := dimC x; dimH := dimH x; dimW := dimW x;
     at4 := fun n c h q =>
              if in_window x w n c h q
              then f (at4 x n c h q) (at3 src c (h - wh0 w) (q - ww0 w))
              else at4 x n c h q |}.

(** [x[B, :, a:b, c:d] = src] *)
Definition assign_window (x : tensor V) (w : window) (src : block G)
  : result (tensor V) :=
  s <- expand src (dimC x) (span (wh0 w) (wh1 w)) (span (ww0 w) (ww1 w)) ;;
  Ok (update_window x w (fun _ new => of_batch new) s).

(** [x[B, :, a:b, c:d] += src] *)
Definition add_window (x : tensor V) (w : window) (src : block G)
  : result (tensor V) :=
  s <- expand src (dimC x) (span (wh0 w) (wh1 w)) (span (ww0 w) (ww1 w)) ;;
  match iadd with
  | Some f => Ok (update_window x w f s)
  | None => Raise RuntimeError
  end.

(** One iteration of the scatter loop on the tensor [x] reached so far.
    With [+=] the target is indexed before [gathered[count_index]] is
    evaluated, with [=] after. *)
Definition scatter_body (xsize : Z * Z * Z * Z) (bsize boffset bstride : Z * Z)
           (gathered : tensor G) (do_add : bool)
           (idx : Z * Z * Z) (count_index : Z) (x : tensor V) : result (tensor V) :=
  if do_add then
    w <- block_window xsize bsize boffset bstride x idx ;;
    src <- slot gathered count_index ;;
    add_window x w src
  else
    src <- slot gathered count_index ;;
    w <- block_window xsize bsize boffset bstride x idx ;;
    assign_window x w src.

(** The scatter loop.  [x] is mutated in place, so the tensor returned is
    what the caller's tensor holds afterwards, also when the loop ends in
    an exception. *)
Fixpoint scatter_loop (xsize : Z * Z * Z * Z) (bsize boffset bstride : Z * Z)
         (gathered : tensor G) (do_add : bool)
         (l : list (Z * Z * Z)) (count_index : Z) (x : tensor V)
  : tensor V * result unit :=
  match l with
  | [] => (x, Ok tt)
  | idx :: l' =>
      match scatter_body xsize bsize boffset bstride gathered do_add
              idx count_index x with
      | Ok x' => scatter_loop xsize bsize boffset bstride gathered do_add
                   l' (count_index + 1) x'
      | Raise e => (x, Raise e)
      end
  end.

(** [gsize] and [bcount] are accepted and never used, as in the source. *)
Definition sparse_scatter (x : tensor V) (xsize : Z * Z * Z * Z)
           (gathered : tensor G) (gsize : Z * Z * Z * Z)
           (activeBlockIndices : list (Z * Z * Z))
           (bsize bcount boffset bstride : Z * Z) (do_add : bool)
  : tensor V * result unit :=
  match py_assert (fst bsize =? snd bsize)
          "Expect block to be a square, bsize[0] == bsize[1]"%string with
  | Raise e => (x, Raise e)
  | Ok _ => scatter_loop xsize bsize boffset bstride gathered do_add
              activeBlockIndices 0 x
  end.

End Scatter.

Arguments update_window {V G}.
Arguments assign_window {V G}.
Arguments add_window {V G}.
Arguments scatter_body {V G}.
Arguments scatter_loop {V G}.
Arguments sparse_scatter {V G}.

(** ** A model of float32 and float64 *)

(** The floor of the base-2 logarithm of a positive rational. *)
Definition Qlog2 (a : Q) : Z :=
  let e := Z.log2 (Qnum a) - Z.log2 (Zpos (Qden a)) in
  if Qle_bool (Qpower 2 e) a then e else e - 1.

(** A non-negative rational rounded to the nearest integer, ties to even. *)
Definition round_half_even (q : Q) : Z :=
  let f := Qfloor q in
  match (q - inject_Z f ?= 1 # 2)%Q with
  | Lt => f
  | Gt => f + 1
  | Eq => if Z.even f then f else f + 1
  end.

(** The binary floating-point number nearest to a rational: [prec]
    significant bits, exponents from [emin] on (below, the spacing of the
    subnormal numbers), ties to even.  Overflow to infinity is left out: the
    values handled here stay far below the largest number. *)
Definition binary_round (prec emin : Z) (q : Q) : Q :=
  if Qeq_bool q 0 then 0%Q
  else
    let a := Qabs q in
    let e := Z.max (Qlog2 a) emin in
    let ulp := Qpower 2 (e - (prec - 1)) in
    let m := inject_Z (round_half_even (a / ulp)) in
    Qred (if Qle_bool 0 q then m * ulp else - (m * ulp))%Q.

Definition float32_round : Q -> Q := binary_round 24 (-126).
Definition float64_round : Q -> Q := binary_round 53 (-1022).

(** A float32 mean: the elements are summed in row-major order, every
    addition rounded, and the sum is divided by the count, rounded.  The mean
    of no element is NaN. *)
Definition float32_mean (block : list (list Q)) : option Q :=
  match List.concat block with
  | [] => None
  | v :: l =>
      Some (float32_round
              (fold_left (fun acc u => float32_round (acc + u)) (v :: l) 0
               / float32_round (inject_Z (Z.of_nat (List.length (v :: l))))))%Q
  end.

(** The conversions between an int64 tensor and a float32 batch: to the
    nearest float32, and back by truncation. *)
Definition int64_to_float32 (z : Z) : Q := float32_round (inject_Z z).
Definition float32_to_int64 (f : Q) : Z := Z.quot (Qnum f) (Zpos (Qden f)).

(** The in-place addition of a float32 batch element into a float32 and into
    a float64 tensor element. *)
Definition float32_iadd (v g : Q) : Q := float32_round (v + g).
Definition float64_iadd (v g : Q) : Q := float64_round (v + g).

(** ** Specification vocabulary *)

(** The sub-region of a cell in the words of the specification: batch entry
    [N], rows [rlo, rhi), columns [clo, chi). *)
Definition sub_region (mask : mask_tensor) (N rlo rhi clo chi : Z)
  : list (list Q) :=
  map (fun r => map (fun q => mask_at mask [N; r; q]) (range_from clo chi))
      (range_from rlo rhi).

Definition Qsum (l : list Q) : Q := fold_right Qplus 0%Q l.

(** The arithmetic mean of a non-empty block, in exact arithmetic. *)
Definition exact_mean (block : list (list Q)) : Q :=
  (Qsum (List.concat block)
   / inject_Z (Z.of_nat (List.length (List.concat block))))%Q.

(** Whether [reduce_mask] finds the cell [(N, h0, w0)] active. *)
Definition cell_active (mean : list (list Q) -> option Q)
           (mask : mask_tensor) (msize : Z * Z * Z)
           (bsize boffset bstride : Z * Z) (thresh : Q) (N h0 w0 : Z) : bool :=
  match cell_val mean mask msize bsize boffset bstride N h0 w0 with
  | Ok val => gt val thresh
  | Raise _ => false
  end.

(** What the cell [(N, h0, w0)] contributes to the index list. *)
Definition select (mean : list (list Q) -> option Q)
           (mask : mask_tensor) (msize : Z * Z * Z)
           (bsize boffset bstride : Z * Z) (thresh : Q) (N h0 w0 : Z)
  : list (Z * Z * Z) :=
  if cell_active mean mask msize bsize boffset bstride thresh N h0 w0
  then [(N, h0, w0)] else [].

(** The active cells in enumeration order. *)
Definition active_cells (mean : list (list Q) -> option Q)
           (mask : mask_tensor) (msize : Z * Z * Z)
           (bsize bcount boffset bstride : Z * Z) (thresh : Q)
  : list (Z * Z * Z) :=
  flat_map (fun N =>
    flat_map (fun h0 =>
      flat_map (select mean mask msize bsize boffset bstride thresh N h0)
      (py_range (snd bcount)))
    (py_range (fst bcount)))
  (py_range (msize0 msize)).

(** Batch-major, then grid-row-major, then grid-column-major order. *)
Definition lex_lt (p q : Z * Z * Z) : Prop :=
  let '(n, h, w) := p in
  let '(n', h', w') := q in
  n < n' \/ (n = n' /\ (h < h' \/ (h = h' /\ w < w'))).

(** The three preconditions of [reduce_mask]. *)
Definition evenly_divides (count extent : Z) : Prop :=
  count <> 0 /\ extent mod count = 0.

Definition reduce_mask_pre (mask : mask_tensor) (msize : Z * Z * Z)
           (bsize bcount : Z * Z) : Prop :=
  List.length (mask_size mask) = 3%nat
  /\ fst bsize = snd bsize
  /\ evenly_divides (fst bcount) (msize1 msize)
  /\ evenly_divides (snd bcount) (msize2 msize).

(** The exceptions raised by the checks made before any data is touched. *)
Definition is_config_error (e : exn) : bool :=
  match e with
  | AssertionError _ | ZeroDivisionError => true
  | IndexError | RuntimeError => false
  end.

(** Two masks with the same shape and the same elements. *)
Definition same_mask (m1 m2 : mask_tensor) : Prop :=
  mask_size m1 = mask_size m2
  /\ forall d0 d1 d2 n r q,
      mask_size m1 = [d0; d1; d2] ->
      0 <= n < d0 -> 0 <= r < d1 -> 0 <= q < d2 ->
      mask_at m1 [n; r; q] = mask_at m2 [n; r; q].

(** The grid fits on an axis of length [extent]: blocks of positive size at
    non-negative offset and stride, the last one ending inside the axis. *)
Definition grid_fits (size count offset stride extent : Z) : Prop :=
  0 < size /\ 0 <= offset /\ 0 <= stride
  /\ offset + (count - 1) * stride + size <= extent.

(** ** Vocabulary for feature tensors *)

Section FeatureVocabulary.

Variable T : Type.

Definition shape (x : tensor T) : Z * Z * Z * Z :=
  (dimN x, dimC x, dimH x, dimW x).

Definition well_formed (x : tensor T) : Prop :=
  0 <= dimN x /\ 0 <= dimC x /\ 0 <= dimH x /\ 0 <= dimW x.

(** The block of the index entry lies fully inside [x]: a valid batch index
    and an unclipped window inside the spatial bounds. *)
Definition in_bounds (x : tensor T) (bsize boffset bstride : Z * Z)
           (idx : Z * Z * Z) : Prop :=
  let '(B, h0, w0) := idx in
  let bh_index := fst boffset + h0 * fst bstride in
  let bw_index := snd boffset + w0 * snd bstride in
  0 <= B < dimN x
  /\ 0 <= bh_index /\ bh_index + fst bsize <= dimH x
  /\ 0 <= bw_index /\ bw_index + snd bsize <= dimW x.

(** Is the element [(n, c, h, q)] of [x] inside the window that the index
    entry denotes?  The window is the one the slice expression of the source
    selects. *)
Definition covers (x : tensor T) (xsize : Z * Z * Z * Z)
           (bsize boffset bstride : Z * Z) (idx : Z * Z * Z)
           (n c h q : Z) : bool :=
  match block_window xsize bsize boffset bstride x idx with
  | Ok w => in_window x w n c h q
  | Raise _ => false
  end.

(** The destination window in the words of the specification: the block that
    starts at [offset + grid_index * stride] and is [bsize] long, clipped to
    [xsize] and to the tensor, over all channels of batch entry [B]. *)
Definition dest_window (x : tensor T) (xsize : Z * Z * Z * Z)
           (bsize boffset bstride : Z * Z) (idx : Z * Z * Z)
           (n c h q : Z) : Prop :=
  let '(B, h0, w0) := idx in
  let bh_index := fst boffset + h0 * fst bstride in
  let bw_index := snd boffset + w0 * snd bstride in
  n = B /\ 0 <= c < dimC x
  /\ bh_index <= h < Z.min (Z.min (bh_index + fst bsize) (xsize2 xsize)) (dimH x)
  /\ bw_index <= q < Z.min (Z.min (bw_index + snd bsize) (xsize3 xsize)) (dimW x).

(** An index entry with a valid batch index and a corner at non-negative
    coordinates. *)
Definition plain_entry (x : tensor T) (boffset bstride : Z * Z)
           (idx : Z * Z * Z) : Prop :=
  let '(B, h0, w0) := idx in
  0 <= B < dimN x
  /\ 0 <= fst boffset + h0 * fst bstride
  /\ 0 <= snd boffset + w0 * snd bstride.

(** Does the block of the index entry, from its corner
    [offset + grid_index * stride] over [bsize] rows and columns and all the
    channels of batch entry [B], hold the element [(n, c, h, q)]?  Written out
    with comparisons, for blocks that are not clipped. *)
Definition block_covers (x : tensor T) (bsize boffset bstride : Z * Z)
           (idx : Z * Z * Z) (n c h q : Z) : bool :=
  let '(B, h0, w0) := idx in
  let bh_index := fst boffset + h0 * fst bstride in
  let bw_index := snd boffset + w0 * snd bstride in
  (n =? B) && (0 <=? c) && (c <? dimC x)
  && (bh_index <=? h) && (h <? bh_index + fst bsize)
  && (bw_index <=? q) && (q <? bw_index + snd bsize).

(** How many index entries have the element in their block. *)
Definition block_count (x : tensor T) (bsize boffset bstride : Z * Z)
           (l : list (Z * Z * Z)) (n c h q : Z) : nat :=
  List.length (filter (fun idx => block_covers x bsize boffset bstride idx n c h q) l).

(** A tensor of the shape of [x] holding [zero] everywhere. *)
Definition zeros_like (zero : T) (x : tensor T) : tensor T :=
  {| dimN := dimN x; dimC := dimC x; dimH := dimH x; dimW := dimW x;
     at4 := fun _ _ _ _ => zero |}.

(** Two tensors with the same shape and the same elements. *)
Definition same_elements (x y : tensor T) : Prop :=
  shape x = shape y
  /\ forall n c h q,
      0 <= n < dimN x -> 0 <= c < dimC x ->
      0 <= h < dimH x -> 0 <= q < dimW x ->
      at4 x n c h q = at4 y n c h q.

(** Two tensors with the same shape that agree at every index. *)
Definition same_tensor (g1 g2 : tensor T) : Prop :=
  shape g1 = shape g2
  /\ forall m c r q, at4 g1 m c r q = at4 g2 m c r q.

(** Two calls that raise the same exception or return the same tensor. *)
Definition same_outcome (r1 r2 : result (tensor T)) : Prop :=
  match r1, r2 with
  | Ok g1, Ok g2 => same_tensor g1 g2
  | Raise e1, Raise e2 => e1 = e2
  | _, _ => False
  end.

(** The element of slot [i] of the batch that lands on row [h], column [q]
    of the tensor when the slot is written at the block of [idx]. *)
Definition slot_value (gathered : tensor T) (boffset bstride : Z * Z)
           (i : Z) (idx : Z * Z * Z) (c h q : Z) : T :=
  let '(B, h0, w0) := idx in
  at4 gathered i c (h - (fst boffset + h0 * fst bstride))
      (q - (snd boffset + w0 * snd bstride)).

End FeatureVocabulary.

Arguments shape {T}.
Arguments well_formed {T}.
Arguments in_bounds {T}.
Arguments covers {T}.
Arguments dest_window {T}.
Arguments plain_entry {T}.
Arguments block_covers {T}.
Arguments block_count {T}.
Arguments zeros_like {T}.
Arguments same_elements {T}.
Arguments same_tensor {T}.
Arguments same_outcome {T}.
Arguments slot_value {T}.

Section GatherVocabulary.

Variables V F : Type.
Variable to_float32 : V -> F.

(** Slot [i] of [g] holds the converted block of [x] that the index entry
    denotes. *)
Definition slot_holds (x : tensor V) (g : tensor F)
           (bsize boffset bstride : Z * Z) (i : Z) (idx : Z * Z * Z) : Prop :=
  let '(B, h0, w0) := idx in
  let bh_index := fst boffset + h0 * fst bstride in
  let bw_index := snd boffset + w0 * snd bstride in
  0 <= i < dimN g
  /\ forall c r q,
      0 <= c < dimC x -> 0 <= r < fst bsize -> 0 <= q < snd bsize ->
      at4 g i c r q = to_float32 (at4 x B c (bh_index + r) (bw_index + q)).

(** Slots [k], [k+1], ... of [g] hold the blocks of the entries of [l]. *)
Fixpoint slots_hold (x : tensor V) (g : tensor F)
         (bsize boffset bstride : Z * Z) (k : Z) (l : list (Z * Z * Z)) : Prop :=
  match l with
  | [] => True
  | idx :: l' =>
      slot_holds x g bsize boffset bstride k idx
      /\ slots_hold x g bsize boffset bstride (k + 1) l'
  end.

End GatherVocabulary.

Arguments slot_holds {V F}.
Arguments slots_hold {V F}.

Section ScatterVocabulary.

Variables V G : Type.

(** What one iteration does to an element it writes: [f old new].  [None]
    when the iteration raises for the element types. *)
Definition write_op (of_batch : G -> V) (iadd : option (V -> G -> V))
           (do_add : bool) : option (V -> G -> V) :=
  if do_add then iadd else Some (fun _ new => of_batch new).

(** What the scatter loop makes of one element that starts as [acc], when the
    entries of [l] are paired with the slots [k], [k+1], ... and an iteration
    turns [old] into [f old new]. *)
Fixpoint scattered (f : V -> G -> V) (x : tensor V) (gathered : tensor G)
         (xsize : Z * Z * Z * Z) (bsize boffset bstride : Z * Z)
         (k : Z) (l : list (Z * Z * Z)) (n c h q : Z) (acc : V) : V :=
  match l with
  | [] => acc
  | idx :: l' =>
      scattered f x gathered xsize bsize boffset bstride (k + 1) l' n c h q
        (if covers x xsize bsize boffset bstride idx n c h q
         then f acc (slot_value gathered boffset bstride k idx c h q)
         else acc)
  end.

(** The inputs on which the scatter loop runs to its end: [xsize] describes
    [x], the block is square, the batch has block-shaped slots over the
    channels of [x], one slot at least per index entry, and every index entry
    denotes a block inside [x]. *)
Definition scatter_ready (x : tensor V) (xsize : Z * Z * Z * Z)
           (gathered : tensor G) (l : list (Z * Z * Z))
           (bsize boffset bstride : Z * Z) : Prop :=
  xsize = shape x
  /\ fst bsize = snd bsize /\ 0 <= fst bsize
  /\ dimC gathered = dimC x
  /\ dimH gathered = fst bsize /\ dimW gathered = snd bsize
  /\ Z.of_nat (List.length l) <= dimN gathered
  /\ Forall (in_bounds x bsize boffset bstride) l.

End ScatterVocabulary.

Arguments write_op {V G}.
Arguments scattered {V G}.
Arguments scatter_ready {V G}.

(** ** Tensors and masks for the examples *)

(** Integer tensors: one whose elements are all different, and one holding
    [v] everywhere. *)
Definition ramp (N C H W : Z) : tensor Z :=
  {| dimN := N; dimC := C; dimH := H; dimW := W;
     at4 := fun n c h q => 1000 * n + 100 * c + 10 * h + q + 1 |}.

Definition fill {T : Type} (N C H W : Z) (v : T) : tensor T :=
  {| dimN := N; dimC := C; dimH := H; dimW := W; at4 := fun _ _ _ _ => v |}.

(** A mask of the given shape holding [v] everywhere. *)
Definition const_mask (sz : list Z) (v : Q) : mask_tensor :=
  {| mask_size := sz; mask_at := fun _ => v |}.

(** The mask of shape (1, 2, 2) with the rows [a b] and [c d]. *)
Definition mask_2x2 (a b c d : Q) : mask_tensor :=
  {| mask_size := [1; 2; 2];
     mask_at := fun idx =>
                  match idx with
                  | [_; 0; 0] => a
                  | [_; 0; 1] => b
                  | [_; 1; 0] => c
                  | _ => d
                  end |}.

(** * Theorems *)

(** The two concrete scenarios: a 1x4x4 mask, 2x2 blocks on a 2x2 grid. *)
Example reduce_mask_all_ones :
  reduce_mask float32_mean (const_mask [1; 4; 4] 1%Q) (1, 4, 4)
    (2, 2) (2, 2) (0, 0) (2, 2) (1 # 2)
  = Ok [(0, 0, 0); (0, 0, 1); (0, 1, 0); (0, 1, 1)].
Proof. reflexivity. Qed.

Example reduce_mask_all_zeros :
  reduce_mask float32_mean (const_mask [1; 4; 4] 0%Q) (1, 4, 4)
    (2, 2) (2, 2) (0, 0) (2, 2) (1 # 2)
  = Ok [].
Proof. reflexivity. Qed.

(** ** Ranges, slices and indices *)

Lemma In_py_range (n k : Z) : In k (py_range n) <-> 0 <= k < n.
Proof.
  unfold py_range. rewrite in_map_iff. split.
  - intros [i [<- Hi]]. apply in_seq in Hi. lia.
  - intros Hk. exists (Z.to_nat k). split; [lia|]. apply in_seq. lia.
Qed.

Lemma In_range_from (lo hi k : Z) : In k (range_from lo hi) <-> lo <= k < hi.
Proof.
  unfold range_from. rewrite in_map_iff. split.
  - intros [i [<- Hi]]. apply in_seq in Hi. lia.
  - intros Hk. exists (Z.to_nat (k - lo)). split; [lia|]. apply in_seq. lia.
Qed.

Lemma range_from_empty (lo hi : Z) : hi <= lo -> range_from lo hi = [].
Proof.
  intros H. unfold range_from.
  replace (Z.to_nat (hi - lo)) with 0%nat by lia. reflexivity.
Qed.

Lemma slice_bound_range (len i : Z) :
  0 <= len -> 0 <= slice_bound len i <= len.
Proof. unfold slice_bound. destruct (i <? 0) eqn:E; lia. Qed.

Lemma slice_bound_inside (len i : Z) :
  0 <= i <= len -> slice_bound len i = i.
Proof.
  intros H. unfold slice_bound.
  destruct (i <? 0) eqn:E; [apply Z.ltb_lt in E|]; lia.
Qed.

(** A slice with non-negative bounds, the upper one inside the axis, selects
    the indices from the lower bound to the upper one. *)
Lemma slice_range (len a b : Z) :
  0 <= a -> 0 <= b <= len ->
  range_from (slice_bound len a) (slice_bound len b) = range_from a b.
Proof.
  intros Ha Hb. rewrite (slice_bound_inside len b Hb).
  destruct (Z_le_gt_dec a len) as [Hle|Hgt].
  - now rewrite slice_bound_inside by lia.
  - unfold slice_bound. destruct (a <? 0) eqn:E; [apply Z.ltb_lt in E; lia|].
    rewrite !range_from_empty by lia. reflexivity.
Qed.

Lemma py_index_inside (len i : Z) : 0 <= i < len -> py_index len i = Ok i.
Proof.
  intros H. unfold py_index.
  destruct (i <? - len) eqn:E1; [apply Z.ltb_lt in E1; lia|].
  destruct (len <=? i) eqn:E2; [apply Z.leb_le in E2; lia|].
  destruct (i <? 0) eqn:E3; [apply Z.ltb_lt in E3; lia|]. reflexivity.
Qed.

Lemma py_index_Ok (len i n : Z) :
  py_index len i = Ok n -> 0 <= n < len.
Proof.
  unfold py_index.
  destruct (i <? - len) eqn:E1; [discriminate|].
  destruct (len <=? i) eqn:E2; [discriminate|]. cbn.
  apply Z.ltb_ge in E1. apply Z.leb_gt in E2.
  destruct (i <? 0) eqn:E3; intros [= <-];
    [apply Z.ltb_lt in E3 | apply Z.ltb_ge in E3]; lia.
Qed.

Lemma StronglySorted_py_range (n : Z) : StronglySorted Z.lt (py_range n).
Proof.
  unfold py_range. generalize (Z.to_nat n) as k. generalize 0%nat as s.
  intros s k. revert s. induction k as [|k IH]; intros s; cbn.
  - constructor.
  - constructor; [apply IH|].
    apply Forall_forall. intros z Hz. apply in_map_iff in Hz.
    destruct Hz as [i [<- Hi]]. apply in_seq in Hi. lia.
Qed.

Lemma py_range_nonpos (n : Z) : n <= 0 -> py_range n = [].
Proof.
  intros H. unfold py_range. replace (Z.to_nat n) with 0%nat by lia. reflexivity.
Qed.

Lemma py_range_first (n : Z) : 0 < n -> exists t, py_range n = 0 :: t.
Proof.
  intros H. unfold py_range.
  destruct (Z.to_nat n) as [|k] eqn:E; [lia|]. cbn. eauto.
Qed.

Lemma py_range_split (d m : Z) :
  0 <= d < m -> exists rest, py_range m = py_range d ++ d :: rest.
Proof.
  intros H. unfold py_range.
  replace (Z.to_nat m) with (Z.to_nat d + S (Z.to_nat (m - d - 1)))%nat by lia.
  rewrite seq_app, map_app. cbn [seq map Nat.add].
  rewrite Z2Nat.id by lia. eauto.
Qed.

Lemma length_py_range (n : Z) : List.length (py_range n) = Z.to_nat n.
Proof. unfold py_range. now rewrite length_map, length_seq. Qed.

(** ** Loops *)

Lemma for_each_collect {A T : Type} (f : A -> list T)
      (body : A -> list T * Z -> result (list T * Z)) (l : list A) :
  (forall a st, In a l ->
     body a st = Ok (fst st ++ f a, snd st + Z.of_nat (List.length (f a)))) ->
  forall st,
    for_each l body st
    = Ok (fst st ++ flat_map f l,
          snd st + Z.of_nat (List.length (flat_map f l))).
Proof.
  induction l as [|a l IH]; intros Hbody st; cbn.
  - rewrite app_nil_r, Z.add_0_r. now destruct st.
  - rewrite (Hbody a st (or_introl eq_refl)). cbn.
    rewrite IH by (intros; apply Hbody; now right). cbn.
    rewrite <- app_assoc, length_app, Nat2Z.inj_add. f_equal. f_equal. lia.
Qed.

Lemma for_each_ext {A S : Type} (body1 body2 : A -> S -> result S)
      (l : list A) :
  (forall a s, In a l -> body1 a s = body2 a s) ->
  forall s, for_each l body1 s = for_each l body2 s.
Proof.
  induction l as [|a l IH]; intros Hext s; cbn; [reflexivity|].
  rewrite (Hext a s (or_introl eq_refl)).
  destruct (body2 a s); cbn; [|reflexivity].
  apply IH. intros; apply Hext; now right.
Qed.

Lemma for_each_Raise {A S : Type} (P : exn -> Prop)
      (body : A -> S -> result S) (l : list A) :
  (forall a s e, In a l -> body a s = Raise e -> P e) ->
  forall s e, for_each l body s = Raise e -> P e.
Proof.
  induction l as [|a l IH]; intros Hb s e; cbn; [discriminate|].
  destruct (body a s) as [s'|e'] eqn:E; cbn.
  - apply IH. intros; eapply Hb; eauto. now right.
  - intros [= <-]. eapply Hb; eauto. now left.
Qed.

Lemma for_each_invariant {A S : Type} (P : S -> Prop)
      (body : A -> S -> result S) (l : list A) :
  (forall a s s', body a s = Ok s' -> P s -> P s') ->
  forall s s', for_each l body s = Ok s' -> P s -> P s'.
Proof.
  induction l as [|a l IH]; intros Hb s s'; cbn.
  - now intros [= <-].
  - destruct (body a s) as [s1|e] eqn:E; cbn; [|discriminate].
    intros Hl Hs. eapply IH; eauto.
Qed.

Lemma for_each_app {A S : Type} (body : A -> S -> result S) (l1 l2 : list A) :
  forall s,
    for_each (l1 ++ l2) body s = (s' <- for_each l1 body s ;; for_each l2 body s').
Proof.
  induction l1 as [|a l1 IH]; intros s; cbn; [reflexivity|].
  destruct (body a s); cbn; [apply IH | reflexivity].
Qed.

Lemma for_each_skip {A S : Type} (body : A -> S -> result S) (l : list A) (s : S) :
  (forall a, In a l -> body a s = Ok s) -> for_each l body s = Ok s.
Proof.
  induction l as [|a l IH]; intros H; cbn; [reflexivity|].
  rewrite (H a (or_introl eq_refl)). cbn. apply IH. intros; apply H; now right.
Qed.

(** ** Sorted lists *)

Lemma StronglySorted_app {T : Type} (R : T -> T -> Prop) (l1 l2 : list T) :
  StronglySorted R l1 -> StronglySorted R l2 ->
  (forall x y, In x l1 -> In y l2 -> R x y) ->
  StronglySorted R (l1 ++ l2).
Proof.
  induction l1 as [|a l1 IH]; intros S1 S2 H12; cbn; [exact S2|].
  inversion S1 as [|? ? S1' F1]; subst.
  constructor.
  - apply IH; auto. intros; apply H12; auto. now right.
  - apply Forall_app. split; [exact F1|].
    apply Forall_forall. intros y Hy. apply H12; auto. now left.
Qed.

Lemma StronglySorted_flat_map {A T : Type} (RA : A -> A -> Prop)
      (R : T -> T -> Prop) (f : A -> list T) (l : list A) :
  StronglySorted RA l ->
  (forall a, In a l -> StronglySorted R (f a)) ->
  (forall a a' x y, RA a a' -> In x (f a) -> In y (f a') -> R x y) ->
  StronglySorted R (flat_map f l).
Proof.
  induction 1 as [|a l Sl IH Fa]; intros Hin Hcross; cbn; [constructor|].
  apply StronglySorted_app.
  - apply Hin. now left.
  - apply IH; auto. intros; apply Hin; now right.
  - intros x y Hx Hy. apply in_flat_map in Hy. destruct Hy as [a' [Ha' Hy]].
    rewrite Forall_forall in Fa. eapply Hcross; eauto.
Qed.

Lemma StronglySorted_NoDup {T : Type} (R : T -> T -> Prop) (l : list T) :
  (forall x, ~ R x x) -> StronglySorted R l -> NoDup l.
Proof.
  intros Hirr. induction 1 as [|a l Sl IH Fa]; constructor; [|exact IH].
  intros Hin. rewrite Forall_forall in Fa. exact (Hirr a (Fa a Hin)).
Qed.

Lemma lex_lt_irrefl (p : Z * Z * Z) : ~ lex_lt p p.
Proof. destruct p as [[n h] w]. cbn. lia. Qed.

Lemma length_flat_map_le {A B : Type} (f : A -> list B) (l : list A) (c : nat) :
  (forall a, (List.length (f a) <= c)%nat) ->
  (List.length (flat_map f l) <= List.length l * c)%nat.
Proof.
  intros H. induction l as [|a l IH]; cbn; [lia|].
  rewrite length_app. specialize (H a). lia.
Qed.

(** ** [reduce_mask]: the checks *)

Lemma partition_test_true (msize : Z * Z * Z) (bcount : Z * Z) :
  partition_test msize bcount = Ok true
  <-> evenly_divides (fst bcount) (msize1 msize)
      /\ evenly_divides (snd bcount) (msize2 msize).
Proof.
  unfold partition_test, py_mod, evenly_divides.
  destruct (fst bcount =? 0) eqn:E0; cbn.
  { apply Z.eqb_eq in E0. split; [discriminate | tauto]. }
  apply Z.eqb_neq in E0.
  destruct (msize1 msize mod fst bcount =? 0) eqn:E1.
  2:{ apply Z.eqb_neq in E1. split; [discriminate | tauto]. }
  apply Z.eqb_eq in E1.
  destruct (snd bcount =? 0) eqn:E2; cbn.
  { apply Z.eqb_eq in E2. split; [discriminate | tauto]. }
  apply Z.eqb_neq in E2.
  destruct (msize2 msize mod snd bcount =? 0) eqn:E3.
  - apply Z.eqb_eq in E3. tauto.
  - apply Z.eqb_neq in E3. split; [discriminate | tauto].
Qed.

Lemma partition_test_raise (msize : Z * Z * Z) (bcount : Z * Z) (e : exn) :
  partition_test msize bcount = Raise e -> e = ZeroDivisionError.
Proof.
  unfold partition_test, py_mod.
  destruct (fst bcount =? 0); cbn; [now intros [= <-]|].
  destruct (_ =? 0); [|discriminate].
  destruct (snd bcount =? 0); cbn; [now intros [= <-] | discriminate].
Qed.

Lemma reduce_mask_checks_Ok (mask : mask_tensor) (msize : Z * Z * Z)
      (bsize bcount : Z * Z) :
  reduce_mask_checks mask msize bsize bcount = Ok tt
  <-> reduce_mask_pre mask msize bsize bcount.
Proof.
  unfold reduce_mask_checks, reduce_mask_pre, py_assert.
  rewrite <- partition_test_true.
  destruct (Z.of_nat (List.length (mask_size mask)) =? 3) eqn:E0; cbn.
  2:{ apply Z.eqb_neq in E0. split; [discriminate|]. intros [H _]. lia. }
  apply Z.eqb_eq in E0.
  destruct (fst bsize =? snd bsize) eqn:E1; cbn.
  2:{ apply Z.eqb_neq in E1. split; [discriminate | tauto]. }
  apply Z.eqb_eq in E1.
  destruct (partition_test msize bcount) as [[|]|e]; cbn.
  - split; [intros _|reflexivity]. split; [lia | tauto].
  - split; [discriminate|]. intros (_ & _ & H). discriminate.
  - split; [discriminate|]. intros (_ & _ & H). discriminate.
Qed.

Lemma reduce_mask_checks_Raise (mask : mask_tensor) (msize : Z * Z * Z)
      (bsize bcount : Z * Z) (e : exn) :
  reduce_mask_checks mask msize bsize bcount = Raise e ->
  is_config_error e = true.
Proof.
  unfold reduce_mask_checks, py_assert.
  destruct (_ =? 3); cbn; [|now intros [= <-]].
  destruct (fst bsize =? snd bsize); cbn; [|now intros [= <-]].
  destruct (partition_test msize bcount) as [[|]|e'] eqn:E; cbn.
  - discriminate.
  - now intros [= <-].
  - intros [= <-]. now rewrite (partition_test_raise _ _ _ E).
Qed.

(** ** [reduce_mask]: the loops *)

Lemma gt_true_iff (val : option Q) (thresh : Q) :
  gt val thresh = true <-> exists v, val = Some v /\ (thresh < v)%Q.
Proof.
  destruct val as [v|]; cbn.
  - rewrite negb_true_iff. split.
    + intros H. exists v. split; [reflexivity|].
      apply Qnot_le_lt. intros Hle. apply Qle_bool_iff in Hle. congruence.
    + intros (v' & [= <-] & Hlt). apply not_true_is_false. intros Hle.
      apply Qle_bool_iff in Hle. now apply Qlt_not_le in Hlt.
  - split; [discriminate | intros (v & H & _); discriminate].
Qed.

Lemma gt_antitone (val : option Q) (t1 t2 : Q) :
  (t1 <= t2)%Q -> gt val t2 = true -> gt val t1 = true.
Proof.
  intros Hle H. apply gt_true_iff in H. destruct H as (v & -> & Hlt).
  apply gt_true_iff. exists v. split; [reflexivity|].
  eapply Qle_lt_trans; eauto.
Qed.

Section ReduceMaskFacts.

Variable mean : list (list Q) -> option Q.
Variables (mask : mask_tensor) (msize : Z * Z * Z).
Variables (bsize bcount boffset bstride : Z * Z) (thresh : Q).

Lemma cell_val_Raise (N h0 w0 : Z) (e : exn) :
  cell_val mean mask msize bsize boffset bstride N h0 w0 = Raise e ->
  e = IndexError.
Proof.
  unfold cell_val, mask_block.
  destruct (mask_size mask) as [|d0 [|d1 [|d2 [|? ?]]]]; cbn;
    try now intros [= <-].
  unfold py_index. destruct (_ || _); cbn; [now intros [= <-] | discriminate].
Qed.

Lemma reduce_mask_body_in_batch (N h0 w0 d0 d1 d2 : Z)
      (st : list (Z * Z * Z) * Z) :
  mask_size mask = [d0; d1; d2] -> 0 <= N < d0 ->
  reduce_mask_body mean mask msize bsize boffset bstride thresh N h0 w0 st
  = Ok (fst st ++ select mean mask msize bsize boffset bstride thresh N h0 w0,
        snd st
        + Z.of_nat (List.length
                      (select mean mask msize bsize boffset bstride thresh
                         N h0 w0))).
Proof.
  intros Hsz HN.
  unfold reduce_mask_body, select, cell_active, cell_val, mask_block.
  rewrite Hsz, (py_index_inside _ _ HN). cbn [bind].
  destruct (gt _ thresh); cbn.
  - reflexivity.
  - rewrite app_nil_r, Z.add_0_r. now destruct st.
Qed.

Lemma reduce_mask_body_past_batch (N h0 w0 d0 d1 d2 : Z)
      (st : list (Z * Z * Z) * Z) :
  mask_size mask = [d0; d1; d2] -> d0 <= N ->
  reduce_mask_body mean mask msize bsize boffset bstride thresh N h0 w0 st
  = Raise IndexError.
Proof.
  intros Hsz HN. unfold reduce_mask_body, cell_val, mask_block, py_index.
  rewrite Hsz. destruct (d0 <=? N) eqn:E; [|apply Z.leb_gt in E; lia].
  now rewrite orb_true_r.
Qed.

(** The loops over the batch entries that the mask has. *)
Lemma reduce_mask_loops (d0 d1 d2 n : Z) (st : list (Z * Z * Z) * Z) :
  mask_size mask = [d0; d1; d2] -> n <= d0 ->
  for_each (py_range n) (fun N =>
    for_each (py_range (fst bcount)) (fun h0 =>
      for_each (py_range (snd bcount)) (fun w0 =>
        reduce_mask_body mean mask msize bsize boffset bstride thresh
          N h0 w0))) st
  = Ok (fst st
        ++ flat_map (fun N =>
             flat_map (fun h0 =>
               flat_map (select mean mask msize bsize boffset bstride thresh
                           N h0)
                 (py_range (snd bcount)))
               (py_range (fst bcount)))
             (py_range n),
        snd st
        + Z.of_nat (List.length
            (flat_map (fun N =>
               flat_map (fun h0 =>
                 flat_map (select mean mask msize bsize boffset bstride thresh
                             N h0)
                   (py_range (snd bcount)))
                 (py_range (fst bcount)))
               (py_range n)))).
Proof.
  intros Hsz Hn.
  apply (for_each_collect
           (fun N =>
              flat_map
                (fun h0 =>
                   flat_map
                     (select mean mask msize bsize boffset bstride thresh N h0)
                     (py_range (snd bcount)))
                (py_range (fst bcount)))).
  intros N st' HN. apply In_py_range in HN.
  apply (for_each_collect
           (fun h0 =>
              flat_map (select mean mask msize bsize boffset bstride thresh N h0)
                (py_range (snd bcount)))).
  intros h0 st'' _.
  apply (for_each_collect
           (select mean mask msize bsize boffset bstride thresh N h0)).
  intros w0 st3 _.
  apply (reduce_mask_body_in_batch N h0 w0 d0 d1 d2); [exact Hsz | lia].
Qed.

Lemma reduce_mask_Ok :
  reduce_mask_pre mask msize bsize bcount ->
  mask_size mask = [msize0 msize; msize1 msize; msize2 msize] ->
  reduce_mask mean mask msize bsize bcount boffset bstride thresh
  = Ok (active_cells mean mask msize bsize bcount boffset bstride thresh).
Proof.
  intros Hpre Hsz. unfold reduce_mask.
  apply reduce_mask_checks_Ok in Hpre. rewrite Hpre. cbn [bind].
  rewrite (reduce_mask_loops _ _ _ (msize0 msize) _ Hsz (Z.le_refl _)).
  reflexivity.
Qed.

Lemma In_select (p : Z * Z * Z) (N h0 w0 : Z) :
  In p (select mean mask msize bsize boffset bstride thresh N h0 w0)
  <-> p = (N, h0, w0)
      /\ cell_active mean mask msize bsize boffset bstride thresh N h0 w0 = true.
Proof.
  unfold select. destruct (cell_active _ _ _ _ _ _ _ _ _ _); cbn.
  - split; [intros [<-|[]]; auto | intros [-> _]; auto].
  - split; [intros [] | intros [_ H]; discriminate].
Qed.

Lemma In_active_cells (N h0 w0 : Z) :
  In (N, h0, w0)
     (active_cells mean mask msize bsize bcount boffset bstride thresh)
  <-> (0 <= N < msize0 msize /\ 0 <= h0 < fst bcount /\ 0 <= w0 < snd bcount)
      /\ cell_active mean mask msize bsize boffset bstride thresh N h0 w0 = true.
Proof.
  unfold active_cells. rewrite in_flat_map. split.
  - intros (n & Hn & H). apply in_flat_map in H. destruct H as (h & Hh & H).
    apply in_flat_map in H. destruct H as (w & Hw & H).
    apply In_py_range in Hn, Hh, Hw.
    apply In_select in H. destruct H as [[= -> -> ->] H]. auto.
  - intros ((HN & Hh & Hw) & Hact).
    exists N. split; [now apply In_py_range|].
    apply in_flat_map. exists h0. split; [now apply In_py_range|].
    apply in_flat_map. exists w0. split; [now apply In_py_range|].
    apply In_select. auto.
Qed.

Lemma select_sorted (N h0 w0 : Z) :
  StronglySorted lex_lt
    (select mean mask msize bsize boffset bstride thresh N h0 w0).
Proof.
  unfold select. destruct (cell_active _ _ _ _ _ _ _ _ _ _);
    repeat constructor.
Qed.

Lemma active_cells_sorted :
  StronglySorted lex_lt
    (active_cells mean mask msize bsize bcount boffset bstride thresh).
Proof.
  unfold active_cells.
  apply StronglySorted_flat_map with (RA := Z.lt).
  - apply StronglySorted_py_range.
  - intros N _. apply StronglySorted_flat_map with (RA := Z.lt).
    + apply StronglySorted_py_range.
    + intros h0 _. apply StronglySorted_flat_map with (RA := Z.lt).
      * apply StronglySorted_py_range.
      * intros w0 _. apply select_sorted.
      * intros w w' x y Hlt Hx Hy.
        apply In_select in Hx, Hy. destruct Hx as [-> _], Hy as [-> _].
        cbn. lia.
    + intros h h' x y Hlt Hx Hy.
      apply in_flat_map in Hx, Hy.
      destruct Hx as (w & _ & Hx), Hy as (w' & _ & Hy).
      apply In_select in Hx, Hy. destruct Hx as [-> _], Hy as [-> _].
      cbn. lia.
  - intros n n' x y Hlt Hx Hy.
    apply in_flat_map in Hx, Hy.
    destruct Hx as (h & _ & Hx), Hy as (h' & _ & Hy).
    apply in_flat_map in Hx, Hy.
    destruct Hx as (w & _ & Hx), Hy as (w' & _ & Hy).
    apply In_select in Hx, Hy. destruct Hx as [-> _], Hy as [-> _].
    cbn. lia.
Qed.

End ReduceMaskFacts.

Lemma mask_block_ext (m1 m2 : mask_tensor) (N a b c d : Z) :
  Forall (Z.le 0) (mask_size m1) -> same_mask m1 m2 ->
  mask_block m1 N a b c d = mask_block m2 N a b c d.
Proof.
  intros Hwf [Hsz Hel]. unfold mask_block. rewrite <- Hsz.
  destruct (mask_size m1) as [|d0 [|d1 [|d2 [|? ?]]]] eqn:E; try reflexivity.
  destruct (py_index d0 N) as [n|e] eqn:En; cbn; [|reflexivity].
  apply py_index_Ok in En.
  inversion Hwf as [|? ? H0 Hwf1]; subst.
  inversion Hwf1 as [|? ? H1 Hwf2]; subst.
  inversion Hwf2 as [|? ? H2 _]; subst.
  f_equal. apply map_ext_in. intros r Hr. apply In_range_from in Hr.
  apply map_ext_in. intros q Hq. apply In_range_from in Hq.
  pose proof (slice_bound_range d1 a H1). pose proof (slice_bound_range d1 b H1).
  pose proof (slice_bound_range d2 c H2). pose proof (slice_bound_range d2 d H2).
  apply (Hel d0 d1 d2); [reflexivity | lia..].
Qed.

(** The block of a cell with a non-negative corner is the sub-region of the
    specification. *)
Lemma mask_block_sub_region (mask : mask_tensor) (N a b c d d0 d1 d2 : Z) :
  mask_size mask = [d0; d1; d2] -> 0 <= N < d0 ->
  0 <= a -> 0 <= b <= d1 -> 0 <= c -> 0 <= d <= d2 ->
  mask_block mask N a b c d = Ok (sub_region mask N a b c d).
Proof.
  intros Hsz HN Ha Hb Hc Hd. unfold mask_block, sub_region.
  rewrite Hsz, (py_index_inside _ _ HN). cbn [bind].
  now rewrite !slice_range by lia.
Qed.

(** C2: when the preconditions hold and [msize] is the mask's shape,
    [reduce_mask] returns an index list that is sorted batch-major, then
    grid-row-major, then grid-column-major, and every triple it holds has its
    batch index in [0, msize[0]), its grid row in [0, bcount[0]) and its grid
    column in [0, bcount[1]). *)
Theorem reduce_mask_sorted_in_range
        (mean : list (list Q) -> option Q)
        (mask : mask_tensor) (msize : Z * Z * Z)
        (bsize bcount boffset bstride : Z * Z) (thresh : Q) :
  reduce_mask_pre mask msize bsize bcount ->
  mask_size mask = [msize0 msize; msize1 msize; msize2 msize] ->
  exists l,
    reduce_mask mean mask msize bsize bcount boffset bstride thresh = Ok l
    /\ StronglySorted lex_lt l
    /\ forall N h0 w0, In (N, h0, w0) l ->
         0 <= N < msize0 msize /\ 0 <= h0 < fst bcount /\ 0 <= w0 < snd bcount.
Proof.
  intros Hpre Hsz. eexists. split; [now apply reduce_mask_Ok|]. split.
  - apply active_cells_sorted.
  - intros N h0 w0 Hin. now apply In_active_cells in Hin.
Qed.

Lemma reduce_mask_sorted_in_range_witness :
  exists l,
    reduce_mask float32_mean (const_mask [2; 4; 4] 1%Q) (2, 4, 4)
      (2, 2) (2, 2) (0, 0) (2, 2) (1 # 2) = Ok l
    /\ StronglySorted lex_lt l
    /\ forall N h0 w0, In (N, h0, w0) l ->
         0 <= N < 2 /\ 0 <= h0 < 2 /\ 0 <= w0 < 2.
Proof.
  apply (reduce_mask_sorted_in_range float32_mean
           (const_mask [2; 4; 4] 1%Q) (2, 4, 4) (2, 2) (2, 2) (0, 0) (2, 2)
           (1 # 2)).
  - unfold reduce_mask_pre, evenly_divides. cbn. repeat split; lia.
  - reflexivity.
Defined.

(** C3, as stated, fails: on the 1x2x2 mask with the rows [1, 2^-25] and
    [0, 0], one 2x2 block and the threshold 1/4, the arithmetic mean of the
    block is 1/4 + 2^-27, above the threshold by a positive amount, but the
    float32 mean that is compared is 1/4 and the cell is not selected.  The
    order and the precision of the summation do not matter here: the float32
    number nearest to the arithmetic mean itself is 1/4. *)
Lemma reduce_mask_exact_mean_above_not_selected :
  (exact_mean (sub_region (mask_2x2 1 (1 # 33554432) 0 0) 0 0 2 0 2)
   == (1 # 4) + (1 # 134217728))%Q
  /\ (1 # 4 < exact_mean (sub_region (mask_2x2 1 (1 # 33554432) 0 0) 0 0 2 0 2))%Q
  /\ float32_round
       (exact_mean (sub_region (mask_2x2 1 (1 # 33554432) 0 0) 0 0 2 0 2))
     = 1 # 4
  /\ float32_mean (sub_region (mask_2x2 1 (1 # 33554432) 0 0) 0 0 2 0 2)
     = Some (1 # 4)
  /\ reduce_mask float32_mean (mask_2x2 1 (1 # 33554432) 0 0) (1, 2, 2)
       (2, 2) (1, 1) (0, 0) (2, 2) (1 # 4) = Ok [].
Proof.
  split; [vm_compute; reflexivity|].
  split; [vm_compute; reflexivity|].
  split; [vm_compute; reflexivity|].
  split; vm_compute; reflexivity.
Qed.

(** C3, amended: for every cell that [reduce_mask] examines, the cell is in
    the returned list exactly when the value that [block.mean().item()]
    computes for the block of the cell is strictly greater than the
    threshold; a NaN mean never is.  For a cell with a corner at
    non-negative coordinates the block is the sub-region from the corner to
    [min(corner + bsize, extent)] on both axes; then a cell whose computed
    mean equals the threshold is not selected and a cell whose computed mean
    exceeds it is.  The computed mean is torch's float32 value, not the
    exact arithmetic mean. *)
Theorem reduce_mask_active_iff_mean_gt
        (mean : list (list Q) -> option Q)
        (mask : mask_tensor) (msize : Z * Z * Z)
        (bsize bcount boffset bstride : Z * Z) (thresh : Q) :
  reduce_mask_pre mask msize bsize bcount ->
  mask_size mask = [msize0 msize; msize1 msize; msize2 msize] ->
  exists l,
    reduce_mask mean mask msize bsize bcount boffset bstride thresh = Ok l
    /\ forall N h0 w0,
        0 <= N < msize0 msize -> 0 <= h0 < fst bcount -> 0 <= w0 < snd bcount ->
        let bh_index := fst boffset + h0 * fst bstride in
        let bw_index := snd boffset + w0 * snd bstride in
        (exists block,
           mask_block mask N
             bh_index (Z.min (bh_index + fst bsize) (msize1 msize))
             bw_index (Z.min (bw_index + snd bsize) (msize2 msize)) = Ok block
           /\ (In (N, h0, w0) l
               <-> exists val, mean block = Some val /\ (thresh < val)%Q))
        /\ (0 <= bh_index -> 0 <= bw_index -> 0 <= fst bsize ->
            0 <= msize1 msize -> 0 <= msize2 msize ->
            let region :=
              sub_region mask N
                bh_index (Z.min (bh_index + fst bsize) (msize1 msize))
                bw_index (Z.min (bw_index + snd bsize) (msize2 msize)) in
            (In (N, h0, w0) l
             <-> exists val, mean region = Some val /\ (thresh < val)%Q)
            /\ (mean region = None -> ~ In (N, h0, w0) l)
            /\ (forall val, mean region = Some val -> (val == thresh)%Q ->
                  ~ In (N, h0, w0) l)
            /\ (forall val, mean region = Some val -> (thresh < val)%Q ->
                  In (N, h0, w0) l)).
Proof.
  intros Hpre Hsz. eexists. split; [now apply reduce_mask_Ok|].
  intros N h0 w0 HN Hh Hw bh_index bw_index.
  assert (Hact : forall block,
             mask_block mask N
               bh_index (Z.min (bh_index + fst bsize) (msize1 msize))
               bw_index (Z.min (bw_index + snd bsize) (msize2 msize))
             = Ok block ->
             (In (N, h0, w0)
                 (active_cells mean mask msize bsize bcount boffset bstride
                    thresh)
              <-> exists val, mean block = Some val /\ (thresh < val)%Q)).
  { intros block Hb. rewrite In_active_cells, <- gt_true_iff.
    unfold cell_active, cell_val. fold bh_index bw_index. rewrite Hb. cbn.
    tauto. }
  split.
  - unfold mask_block in *. rewrite Hsz in *.
    rewrite (py_index_inside _ _ HN) in *. cbn [bind] in *.
    eexists. split; [reflexivity|]. now apply Hact.
  - intros Hbh Hbw Hbs Hm1 Hm2 region.
    assert (Hsq : fst bsize = snd bsize) by apply Hpre.
    assert (Hiff : In (N, h0, w0)
                     (active_cells mean mask msize bsize bcount boffset bstride
                        thresh)
                   <-> exists val, mean region = Some val /\ (thresh < val)%Q).
    { apply Hact.
      apply (mask_block_sub_region mask N _ _ _ _ _ _ _ Hsz HN); lia. }
    split; [exact Hiff|]. split; [|split].
    + intros Hnone Hin. apply Hiff in Hin.
      destruct Hin as (val & Hval & _). congruence.
    + intros val Hval Heq Hin. apply Hiff in Hin.
      destruct Hin as (val' & Hval' & Hlt).
      rewrite Hval in Hval'. injection Hval' as <-.
      rewrite Heq in Hlt. now apply Qlt_irrefl in Hlt.
    + intros val Hval Hlt. apply Hiff. eauto.
Qed.

Lemma reduce_mask_active_iff_mean_gt_witness :
  exists l,
    reduce_mask float32_mean (const_mask [1; 4; 4] 1%Q) (1, 4, 4)
      (2, 2) (2, 2) (0, 0) (2, 2) (1 # 2) = Ok l
    /\ forall N h0 w0,
        0 <= N < 1 -> 0 <= h0 < 2 -> 0 <= w0 < 2 ->
        (exists block,
           mask_block (const_mask [1; 4; 4] 1%Q) N
             (0 + h0 * 2) (Z.min (0 + h0 * 2 + 2) 4)
             (0 + w0 * 2) (Z.min (0 + w0 * 2 + 2) 4) = Ok block
           /\ (In (N, h0, w0) l
               <-> exists val,
                     float32_mean block = Some val /\ (1 # 2 < val)%Q))
        /\ (0 <= 0 + h0 * 2 -> 0 <= 0 + w0 * 2 -> 0 <= 2 -> 0 <= 4 -> 0 <= 4 ->
            let region :=
              sub_region (const_mask [1; 4; 4] 1%Q) N
                (0 + h0 * 2) (Z.min (0 + h0 * 2 + 2) 4)
                (0 + w0 * 2) (Z.min (0 + w0 * 2 + 2) 4) in
            (In (N, h0, w0) l
             <-> exists val, float32_mean region = Some val /\ (1 # 2 < val)%Q)
            /\ (float32_mean region = None -> ~ In (N, h0, w0) l)
            /\ (forall val, float32_mean region = Some val ->
                  (val == 1 # 2)%Q -> ~ In (N, h0, w0) l)
            /\ (forall val, float32_mean region = Some val ->
                  (1 # 2 < val)%Q -> In (N, h0, w0) l)).
Proof.
  apply (reduce_mask_active_iff_mean_gt float32_mean
           (const_mask [1; 4; 4] 1%Q) (1, 4, 4) (2, 2) (2, 2) (0, 0) (2, 2)
           (1 # 2)).
  - unfold reduce_mask_pre, evenly_divides. cbn. repeat split; lia.
  - reflexivity.
Defined.

(** C6: [reduce_mask] ends in a configuration error, the same whatever the
    mask holds, whenever the mask does not have rank 3, or the block is not
    square, or the grid count does not evenly divide the mask's extent on one
    of the two axes; when the three preconditions hold it raises no
    configuration error. *)
Theorem reduce_mask_configuration_error
        (mean : list (list Q) -> option Q)
        (mask : mask_tensor) (msize : Z * Z * Z)
        (bsize bcount boffset bstride : Z * Z) (thresh : Q) :
  ((List.length (mask_size mask) <> 3%nat
    \/ fst bsize <> snd bsize
    \/ ~ evenly_divides (fst bcount) (msize1 msize)
    \/ ~ evenly_divides (snd bcount) (msize2 msize)) ->
   exists e,
     is_config_error e = true
     /\ forall data,
         reduce_mask mean {| mask_size := mask_size mask; mask_at := data |}
           msize bsize bcount boffset bstride thresh = Raise e)
  /\ (reduce_mask_pre mask msize bsize bcount ->
      forall e,
        reduce_mask mean mask msize bsize bcount boffset bstride thresh
        = Raise e ->
        is_config_error e = false).
Proof.
  split.
  - intros Hbad.
    destruct (reduce_mask_checks mask msize bsize bcount) as [[]|e] eqn:E.
    + apply reduce_mask_checks_Ok in E. unfold reduce_mask_pre in E. tauto.
    + exists e. split; [eapply reduce_mask_checks_Raise; eauto|].
      intros data. unfold reduce_mask.
      change (reduce_mask_checks {| mask_size := mask_size mask; mask_at := data |}
                msize bsize bcount)
        with (reduce_mask_checks mask msize bsize bcount).
      now rewrite E.
  - intros Hpre e. unfold reduce_mask.
    apply reduce_mask_checks_Ok in Hpre. rewrite Hpre. cbn.
    destruct (for_each _ _ _) as [st|e'] eqn:E; cbn; [discriminate|].
    intros [= <-].
    enough (e' = IndexError) as -> by reflexivity.
    revert E. generalize (@nil (Z * Z * Z), 0) as st0. revert e'.
    intros e0 st0. revert st0 e0.
    apply (for_each_Raise (fun e => e = IndexError)). intros N s1 e1 _.
    apply (for_each_Raise (fun e => e = IndexError)). intros h0 s2 e2 _.
    apply (for_each_Raise (fun e => e = IndexError)). intros w0 s3 e3 _.
    unfold reduce_mask_body.
    destruct (cell_val _ _ _ _ _ _ _ _ _) as [val|e4] eqn:Ev; cbn.
    + destruct (gt val thresh); discriminate.
    + intros [= <-]. eapply cell_val_Raise; eauto.
Qed.

Lemma reduce_mask_configuration_error_witness :
  (exists e,
     is_config_error e = true
     /\ forall data,
         reduce_mask float32_mean {| mask_size := [1; 4; 4]; mask_at := data |}
           (1, 4, 4) (2, 2) (3, 2) (0, 0) (2, 2) (1 # 2) = Raise e)
  /\ (forall e,
        reduce_mask float32_mean (const_mask [1; 4; 4] 1%Q)
          (1, 4, 4) (2, 2) (2, 2) (0, 0) (2, 2) (1 # 2) = Raise e ->
        is_config_error e = false).
Proof.
  split.
  - apply (proj1 (reduce_mask_configuration_error float32_mean
                    (const_mask [1; 4; 4] 1%Q)
                    (1, 4, 4) (2, 2) (3, 2) (0, 0) (2, 2) (1 # 2))).
    right. right. left. unfold evenly_divides. cbn. intros [_ H]. discriminate.
  - apply (proj2 (reduce_mask_configuration_error float32_mean
                    (const_mask [1; 4; 4] 1%Q)
                    (1, 4, 4) (2, 2) (2, 2) (0, 0) (2, 2) (1 # 2))).
    unfold reduce_mask_pre, evenly_divides. cbn. repeat split; lia.
Defined.

(** ** Further properties of [reduce_mask] *)

(** X1: the index list that [reduce_mask] returns holds no cell twice and
    holds at most one entry per cell of the grid. *)
Theorem reduce_mask_no_duplicates
        (mean : list (list Q) -> option Q)
        (mask : mask_tensor) (msize : Z * Z * Z)
        (bsize bcount boffset bstride : Z * Z) (thresh : Q) :
  reduce_mask_pre mask msize bsize bcount ->
  mask_size mask = [msize0 msize; msize1 msize; msize2 msize] ->
  exists l,
    reduce_mask mean mask msize bsize bcount boffset bstride thresh = Ok l
    /\ NoDup l
    /\ (List.length l
        <= Z.to_nat (msize0 msize)
           * (Z.to_nat (fst bcount) * Z.to_nat (snd bcount)))%nat.
Proof.
  intros Hpre Hsz. eexists. split; [now apply reduce_mask_Ok|]. split.
  - apply (StronglySorted_NoDup lex_lt); [apply lex_lt_irrefl|].
    apply active_cells_sorted.
  - unfold active_cells.
    rewrite <- (length_py_range (msize0 msize)).
    apply length_flat_map_le. intros N.
    rewrite <- (length_py_range (fst bcount)).
    apply length_flat_map_le. intros h0.
    rewrite <- (length_py_range (snd bcount)).
    rewrite <- (Nat.mul_1_r (List.length (py_range (snd bcount)))).
    apply length_flat_map_le. intros w0.
    unfold select. destruct (cell_active _ _ _ _ _ _ _ _ _ _); cbn; lia.
Qed.

Lemma reduce_mask_no_duplicates_witness :
  exists l,
    reduce_mask float32_mean (const_mask [2; 4; 4] 1%Q) (2, 4, 4)
      (2, 2) (2, 2) (0, 0) (2, 2) (1 # 2) = Ok l
    /\ NoDup l
    /\ (List.length l <= 2 * (2 * 2))%nat.
Proof.
  apply (reduce_mask_no_duplicates float32_mean
           (const_mask [2; 4; 4] 1%Q) (2, 4, 4) (2, 2) (2, 2) (0, 0) (2, 2)
           (1 # 2)).
  - unfold reduce_mask_pre, evenly_divides. cbn. repeat split; lia.
  - reflexivity.
Defined.

(** X2: raising the threshold can only remove cells: every cell selected at
    the higher threshold is selected at the lower one. *)
Theorem reduce_mask_threshold_antitone
        (mean : list (list Q) -> option Q)
        (mask : mask_tensor) (msize : Z * Z * Z)
        (bsize bcount boffset bstride : Z * Z) (thresh1 thresh2 : Q) :
  reduce_mask_pre mask msize bsize bcount ->
  mask_size mask = [msize0 msize; msize1 msize; msize2 msize] ->
  (thresh1 <= thresh2)%Q ->
  exists l1 l2,
    reduce_mask mean mask msize bsize bcount boffset bstride thresh1 = Ok l1
    /\ reduce_mask mean mask msize bsize bcount boffset bstride thresh2 = Ok l2
    /\ incl l2 l1.
Proof.
  intros Hpre Hsz Hle. do 2 eexists.
  split; [now apply reduce_mask_Ok|]. split; [now apply reduce_mask_Ok|].
  intros [[N h0] w0] Hin. apply In_active_cells in Hin. apply In_active_cells.
  destruct Hin as [Hrange Hact]. split; [exact Hrange|].
  unfold cell_active in *.
  destruct (cell_val mean mask msize bsize boffset bstride N h0 w0);
    [|discriminate].
  eapply gt_antitone; eauto.
Qed.

Lemma reduce_mask_threshold_antitone_witness :
  exists l1 l2,
    reduce_mask float32_mean (const_mask [1; 4; 4] (3 # 4)) (1, 4, 4)
      (2, 2) (2, 2) (0, 0) (2, 2) (1 # 2) = Ok l1
    /\ reduce_mask float32_mean (const_mask [1; 4; 4] (3 # 4)) (1, 4, 4)
         (2, 2) (2, 2) (0, 0) (2, 2) (9 # 10) = Ok l2
    /\ incl l2 l1.
Proof.
  apply (reduce_mask_threshold_antitone float32_mean
           (const_mask [1; 4; 4] (3 # 4)) (1, 4, 4) (2, 2) (2, 2) (0, 0) (2, 2)
           (1 # 2) (9 # 10)).
  - unfold reduce_mask_pre, evenly_divides. cbn. repeat split; lia.
  - reflexivity.
  - unfold Qle. cbn. lia.
Defined.

(** X3: when [msize[0]] is larger than the batch dimension of the mask and
    the grid has at least one cell, [reduce_mask] passes its checks and then
    raises [IndexError], at the first cell of the first batch entry that the
    mask does not have. *)
Theorem reduce_mask_batch_overrun
        (mean : list (list Q) -> option Q)
        (mask : mask_tensor) (msize : Z * Z * Z)
        (bsize bcount boffset bstride : Z * Z) (thresh : Q) (d0 d1 d2 : Z) :
  reduce_mask_pre mask msize bsize bcount ->
  mask_size mask = [d0; d1; d2] ->
  0 <= d0 < msize0 msize -> 0 < fst bcount -> 0 < snd bcount ->
  reduce_mask mean mask msize bsize bcount boffset bstride thresh
  = Raise IndexError.
Proof.
  intros Hpre Hsz Hd0 Hc0 Hc1. unfold reduce_mask.
  apply reduce_mask_checks_Ok in Hpre. rewrite Hpre. cbn [bind].
  destruct (py_range_split d0 (msize0 msize) Hd0) as [rest Erest].
  rewrite Erest, for_each_app.
  rewrite (reduce_mask_loops mean mask msize bsize bcount boffset bstride thresh
             d0 d1 d2 d0 _ Hsz (Z.le_refl d0)).
  cbn [bind for_each].
  destruct (py_range_first (fst bcount) Hc0) as [t0 E0]. rewrite E0.
  cbn [for_each].
  destruct (py_range_first (snd bcount) Hc1) as [t1 E1]. rewrite E1.
  cbn [for_each].
  rewrite (reduce_mask_body_past_batch mean mask msize bsize boffset bstride
             thresh d0 0 0 d0 d1 d2 _ Hsz (Z.le_refl d0)).
  reflexivity.
Qed.

Lemma reduce_mask_batch_overrun_witness :
  reduce_mask float32_mean (const_mask [1; 4; 4] 1%Q) (2, 4, 4)
    (2, 2) (2, 2) (0, 0) (2, 2) (1 # 2)
  = Raise IndexError.
Proof.
  apply (reduce_mask_batch_overrun float32_mean
           (const_mask [1; 4; 4] 1%Q) (2, 4, 4) (2, 2) (2, 2) (0, 0) (2, 2)
           (1 # 2) 1 4 4).
  - unfold reduce_mask_pre, evenly_divides. cbn. repeat split; lia.
  - reflexivity.
  - cbn. lia.
  - cbn. lia.
  - cbn. lia.
Defined.

(** X4: once the checks pass, a batch count that is not positive or a
    negative grid count means that no cell is examined: [reduce_mask] returns
    the empty list without reading the mask, whatever shape the mask has. *)
Theorem reduce_mask_no_cells
        (mean : list (list Q) -> option Q)
        (mask : mask_tensor) (msize : Z * Z * Z)
        (bsize bcount boffset bstride : Z * Z) (thresh : Q) :
  reduce_mask_pre mask msize bsize bcount ->
  msize0 msize <= 0 \/ fst bcount < 0 \/ snd bcount < 0 ->
  reduce_mask mean mask msize bsize bcount boffset bstride thresh = Ok [].
Proof.
  intros Hpre Hempty. unfold reduce_mask.
  apply reduce_mask_checks_Ok in Hpre. rewrite Hpre. cbn [bind].
  rewrite for_each_skip; [reflexivity|].
  intros N HN. destruct Hempty as [H|[H|H]].
  - rewrite (py_range_nonpos (msize0 msize)) in HN by lia. destruct HN.
  - rewrite (py_range_nonpos (fst bcount)) by lia. reflexivity.
  - apply for_each_skip. intros h0 _.
    rewrite (py_range_nonpos (snd bcount)) by lia. reflexivity.
Qed.

Lemma reduce_mask_no_cells_witness :
  reduce_mask float32_mean (const_mask [3; 4; 4] 1%Q) (3, 4, 4)
    (2, 2) (-2, 2) (0, 0) (2, 2) (1 # 2)
  = Ok [].
Proof.
  apply reduce_mask_no_cells.
  - unfold reduce_mask_pre, evenly_divides. cbn. repeat split; lia.
  - right. left. cbn. lia.
Defined.

(** X21: [reduce_mask] reads nothing but elements of the mask: two masks of
    the same shape that agree on their elements, whatever lies under indices
    outside the shape, give the same index list in the same order, or the
    same exception, for every grid, clipped and wrapped windows included. *)
Theorem reduce_mask_reads_in_bounds
        (mean : list (list Q) -> option Q)
        (m1 m2 : mask_tensor) (msize : Z * Z * Z)
        (bsize bcount boffset bstride : Z * Z) (thresh : Q) :
  Forall (Z.le 0) (mask_size m1) ->
  same_mask m1 m2 ->
  reduce_mask mean m1 msize bsize bcount boffset bstride thresh
  = reduce_mask mean m2 msize bsize bcount boffset bstride thresh.
Proof.
  intros Hwf Hsame. unfold reduce_mask.
  replace (reduce_mask_checks m2 msize bsize bcount)
    with (reduce_mask_checks m1 msize bsize bcount)
    by (unfold reduce_mask_checks; now rewrite (proj1 Hsame)).
  destruct (reduce_mask_checks m1 msize bsize bcount); cbn; [|reflexivity].
  f_equal.
  apply for_each_ext. intros N s _.
  apply for_each_ext. intros h0 s' _.
  apply for_each_ext. intros w0 s'' _.
  unfold reduce_mask_body, cell_val.
  now rewrite (mask_block_ext m1 m2 N _ _ _ _ Hwf Hsame).
Qed.

Lemma reduce_mask_reads_in_bounds_witness :
  reduce_mask float32_mean (const_mask [1; 4; 4] 1%Q) (1, 4, 4)
    (2, 2) (2, 2) (0, 0) (2, 2) (1 # 2)
  = reduce_mask float32_mean
      {| mask_size := [1; 4; 4];
         mask_at := fun idx => match idx with
                               | [n; r; q] =>
                                   if (r <? 4) && (q <? 4) then 1%Q else 0%Q
                               | _ => 0%Q
                               end |}
      (1, 4, 4) (2, 2) (2, 2) (0, 0) (2, 2) (1 # 2).
Proof.
  apply reduce_mask_reads_in_bounds.
  - cbn. repeat constructor; lia.
  - split; [reflexivity|]. cbn. intros d0 d1 d2 n r q [= <- <- <-] Hn Hr Hq.
    destruct (r <? 4) eqn:E1; [|apply Z.ltb_ge in E1; lia].
    destruct (q <? 4) eqn:E2; [|apply Z.ltb_ge in E2; lia].
    reflexivity.
Defined.

(** Further runs of [reduce_mask]. *)

(** A cell whose float32 mean is exactly the threshold is not selected. *)
Example reduce_mask_mean_equals_threshold :
  reduce_mask float32_mean (const_mask [1; 4; 4] (1 # 2)) (1, 4, 4)
    (2, 2) (2, 2) (0, 0) (2, 2) (1 # 2)
  = Ok [].
Proof. reflexivity. Qed.

(** A grid count of zero stops at the divisibility test. *)
Example reduce_mask_zero_grid :
  reduce_mask float32_mean (const_mask [1; 4; 4] 1%Q) (1, 4, 4)
    (2, 2) (0, 2) (0, 0) (2, 2) (1 # 2)
  = Raise ZeroDivisionError.
Proof. reflexivity. Qed.

(** ** Windows *)

Lemma shape_eq {T U : Type} (x : tensor T) (y : tensor U) :
  shape x = shape y
  <-> dimN x = dimN y /\ dimC x = dimC y /\ dimH x = dimH y /\ dimW x = dimW y.
Proof.
  unfold shape. split.
  - intros [= -> -> -> ->]. auto.
  - intros (-> & -> & -> & ->). reflexivity.
Qed.

Lemma within_true (lo hi i : Z) : within lo hi i = true <-> lo <= i < hi.
Proof. unfold within. rewrite andb_true_iff, Z.leb_le, Z.ltb_lt. lia. Qed.

Section WindowFacts.

Variable T : Type.
Variables (xsize : Z * Z * Z * Z) (bsize boffset bstride : Z * Z).

Lemma block_window_shape (x y : tensor T) (idx : Z * Z * Z) :
  shape x = shape y ->
  block_window xsize bsize boffset bstride x idx
  = block_window xsize bsize boffset bstride y idx.
Proof.
  intros H. apply shape_eq in H. destruct H as (HN & HC & HH & HW).
  destruct idx as [[B h0] w0]. unfold block_window, locate.
  now rewrite HN, HH, HW.
Qed.

Lemma covers_shape (x y : tensor T) (idx : Z * Z * Z) (n c h q : Z) :
  shape x = shape y ->
  covers x xsize bsize boffset bstride idx n c h q
  = covers y xsize bsize boffset bstride idx n c h q.
Proof.
  intros H. unfold covers. rewrite (block_window_shape x y idx H).
  apply shape_eq in H. destruct H as (HN & HC & HH & HW).
  destruct (block_window _ _ _ _ y idx); [|reflexivity].
  unfold in_window. now rewrite HC.
Qed.

Lemma block_window_Raise (x : tensor T) (idx : Z * Z * Z) (e : exn) :
  block_window xsize bsize boffset bstride x idx = Raise e -> e = IndexError.
Proof.
  destruct idx as [[B h0] w0]. unfold block_window, locate, py_index.
  destruct (_ || _); cbn; [now intros [= <-] | discriminate].
Qed.

(** The window of a block that lies fully inside the tensor. *)
Lemma block_window_in_bounds (x : tensor T) (B h0 w0 : Z) :
  xsize = shape x -> 0 <= fst bsize -> 0 <= snd bsize ->
  in_bounds x bsize boffset bstride (B, h0, w0) ->
  block_window xsize bsize boffset bstride x (B, h0, w0)
  = Ok {| wB := B;
          wh0 := fst boffset + h0 * fst bstride;
          wh1 := fst boffset + h0 * fst bstride + fst bsize;
          ww0 := snd boffset + w0 * snd bstride;
          ww1 := snd boffset + w0 * snd bstride + snd bsize |}.
Proof.
  intros -> Hb0 Hb1 (HB & Hh0 & Hh1 & Hw0 & Hw1).
  unfold block_window, locate, xsize2, xsize3, shape. cbn [fst snd].
  rewrite (py_index_inside _ _ HB). cbn [bind].
  rewrite !Z.min_l by lia.
  rewrite !slice_bound_inside by lia. reflexivity.
Qed.

Lemma covers_in_bounds (x : tensor T) (B h0 w0 n c h q : Z) :
  xsize = shape x -> 0 <= fst bsize -> 0 <= snd bsize ->
  in_bounds x bsize boffset bstride (B, h0, w0) ->
  covers x xsize bsize boffset bstride (B, h0, w0) n c h q = true
  <-> n = B /\ 0 <= c < dimC x
      /\ fst boffset + h0 * fst bstride <= h
         < fst boffset + h0 * fst bstride + fst bsize
      /\ snd boffset + w0 * snd bstride <= q
         < snd boffset + w0 * snd bstride + snd bsize.
Proof.
  intros Hx Hb0 Hb1 Hin. unfold covers.
  rewrite (block_window_in_bounds x B h0 w0 Hx Hb0 Hb1 Hin).
  unfold in_window. cbn [wB wh0 wh1 ww0 ww1].
  rewrite !andb_true_iff, !within_true, Z.eqb_eq. lia.
Qed.

(** For a block inside the tensor the window of the slice expression holds
    the elements that the comparisons of [block_covers] select. *)
Lemma covers_block_covers (x : tensor T) (idx : Z * Z * Z) (n c h q : Z) :
  xsize = shape x -> 0 <= fst bsize -> 0 <= snd bsize ->
  in_bounds x bsize boffset bstride idx ->
  covers x xsize bsize boffset bstride idx n c h q
  = block_covers x bsize boffset bstride idx n c h q.
Proof.
  destruct idx as [[B h0] w0]. intros Hx Hb0 Hb1 Hin.
  apply eq_true_iff_eq.
  rewrite (covers_in_bounds x B h0 w0 n c h q Hx Hb0 Hb1 Hin).
  unfold block_covers.
  rewrite !andb_true_iff, Z.eqb_eq, !Z.leb_le, !Z.ltb_lt. lia.
Qed.

End WindowFacts.

Arguments block_window_shape {T}.
Arguments covers_shape {T}.
Arguments block_window_Raise {T}.
Arguments block_window_in_bounds {T}.
Arguments covers_in_bounds {T}.
Arguments covers_block_covers {T}.

(** For a valid batch index, a non-negative corner and non-negative sizes the
    window that the slice expression selects is the destination window of the
    specification. *)
Lemma covers_clipped_window {V : Type} (x : tensor V) (xsize : Z * Z * Z * Z)
      (bsize boffset bstride : Z * Z) (idx : Z * Z * Z) (n c h q : Z) :
  0 <= dimH x -> 0 <= dimW x ->
  0 <= xsize2 xsize -> 0 <= xsize3 xsize ->
  0 <= fst bsize -> 0 <= snd bsize ->
  plain_entry x boffset bstride idx ->
  covers x xsize bsize boffset bstride idx n c h q = true
  <-> dest_window x xsize bsize boffset bstride idx n c h q.
Proof.
  destruct idx as [[B h0] w0].
  intros HH HW Hx2 Hx3 Hb0 Hb1 (HB & Hh & Hw).
  unfold covers, dest_window, block_window, locate.
  set (bh_index := fst boffset + h0 * fst bstride) in *.
  set (bw_index := snd boffset + w0 * snd bstride) in *.
  rewrite (py_index_inside _ _ HB). cbn [bind].
  unfold in_window. cbn [wB wh0 wh1 ww0 ww1].
  rewrite !andb_true_iff, !within_true, Z.eqb_eq.
  unfold slice_bound.
  destruct (bh_index <? 0) eqn:E1; [apply Z.ltb_lt in E1; lia|].
  destruct (bw_index <? 0) eqn:E2; [apply Z.ltb_lt in E2; lia|].
  destruct (Z.min (bh_index + fst bsize) (xsize2 xsize) <? 0) eqn:E3;
    [apply Z.ltb_lt in E3; lia|].
  destruct (Z.min (bw_index + snd bsize) (xsize3 xsize) <? 0) eqn:E4;
    [apply Z.ltb_lt in E4; lia|].
  lia.
Qed.

(** Every window lies inside the tensor: slicing clamps, it never reaches
    outside the shape. *)
Lemma block_window_inside {V : Type} (x : tensor V) (xsize : Z * Z * Z * Z)
      (bsize boffset bstride : Z * Z) (idx : Z * Z * Z) (w : window) :
  well_formed x ->
  block_window xsize bsize boffset bstride x idx = Ok w ->
  0 <= wB w < dimN x
  /\ 0 <= wh0 w <= dimH x /\ 0 <= wh1 w <= dimH x
  /\ 0 <= ww0 w <= dimW x /\ 0 <= ww1 w <= dimW x.
Proof.
  intros (HN & HC & HH & HW). destruct idx as [[B h0] w0].
  unfold block_window, locate.
  destruct (py_index (dimN x) B) as [n|e] eqn:E; cbn [bind]; [|discriminate].
  intros [= <-]. cbn [wB wh0 wh1 ww0 ww1]. apply py_index_Ok in E.
  split; [exact E|].
  repeat split; now apply slice_bound_range.
Qed.

(** ** The frame of [sparse_scatter] *)

Section ScatterFrame.

Variables V G : Type.
Variable of_batch : G -> V.
Variable iadd : option (V -> G -> V).
Variables (xsize : Z * Z * Z * Z) (bsize boffset bstride : Z * Z).
Variables (gathered : tensor G) (do_add : bool).

Lemma scatter_body_frame (idx : Z * Z * Z) (k : Z) (x x' : tensor V) :
  scatter_body of_batch iadd xsize bsize boffset bstride gathered do_add idx k x
  = Ok x' ->
  shape x' = shape x
  /\ forall n c h q,
      covers x xsize bsize boffset bstride idx n c h q = false ->
      at4 x' n c h q = at4 x n c h q.
Proof.
  unfold scatter_body, covers, add_window, assign_window.
  destruct do_add.
  - destruct (block_window _ _ _ _ x idx) as [w|e]; cbn; [|discriminate].
    destruct (slot gathered k) as [src|e]; cbn; [|discriminate].
    destruct (expand src _ _ _) as [s|e]; cbn; [|discriminate].
    destruct iadd as [f|]; [|discriminate].
    intros [= <-]. split; [reflexivity|].
    intros n c h q Hc. cbn. now rewrite Hc.
  - destruct (slot gathered k) as [src|e]; cbn; [|discriminate].
    destruct (block_window _ _ _ _ x idx) as [w|e]; cbn; [|discriminate].
    destruct (expand src _ _ _) as [s|e]; cbn; [|discriminate].
    intros [= <-]. split; [reflexivity|].
    intros n c h q Hc. cbn. now rewrite Hc.
Qed.

Lemma scatter_loop_frame (l : list (Z * Z * Z)) :
  forall (k : Z) (x : tensor V),
    let x' := fst (scatter_loop of_batch iadd xsize bsize boffset bstride
                     gathered do_add l k x) in
    shape x' = shape x
    /\ forall n c h q,
        (forall idx, In idx l ->
           covers x xsize bsize boffset bstride idx n c h q = false) ->
        at4 x' n c h q = at4 x n c h q.
Proof.
  induction l as [|idx l IH]; intros k x; cbn.
  - split; reflexivity.
  - destruct (scatter_body _ _ _ _ _ _ _ _ idx k x) as [x1|e] eqn:E; cbn.
    + apply scatter_body_frame in E. destruct E as [Hs1 Hf1].
      destruct (IH (k + 1) x1) as [Hs Hf]. split; [congruence|].
      intros n c h q Hout. rewrite Hf, Hf1; auto.
      intros idx' Hin. rewrite (covers_shape xsize bsize boffset bstride x1 x); auto.
    + split; reflexivity.
Qed.

End ScatterFrame.

(** C10: whatever the tensor, the batch, the index list and the mode, and
    whether the call returns or raises, [sparse_scatter] leaves the shape of [x]
    and every element of [x] that lies in no destination window unchanged.
    The window of an entry is the one its slice expression selects; for
    entries with a valid batch index and a non-negative corner that is
    [offset + grid_index * stride] extended by the block size and clipped to
    the spatial bounds.  With an empty index list the tensor is unchanged. *)
Theorem sparse_scatter_frame {V G : Type} (of_batch : G -> V)
        (iadd : option (V -> G -> V))
        (x : tensor V) (xsize : Z * Z * Z * Z) (gathered : tensor G)
        (gsize : Z * Z * Z * Z) (activeBlockIndices : list (Z * Z * Z))
        (bsize bcount boffset bstride : Z * Z) (do_add : bool) :
  let x' := fst (sparse_scatter of_batch iadd x xsize gathered gsize
                   activeBlockIndices bsize bcount boffset bstride do_add) in
  shape x' = shape x
  /\ (forall n c h q,
        (forall idx, In idx activeBlockIndices ->
           covers x xsize bsize boffset bstride idx n c h q = false) ->
        at4 x' n c h q = at4 x n c h q)
  /\ (0 <= dimH x -> 0 <= dimW x ->
      0 <= xsize2 xsize -> 0 <= xsize3 xsize ->
      0 <= fst bsize -> 0 <= snd bsize ->
      Forall (plain_entry x boffset bstride) activeBlockIndices ->
      forall n c h q,
        (forall idx, In idx activeBlockIndices ->
           ~ dest_window x xsize bsize boffset bstride idx n c h q) ->
        at4 x' n c h q = at4 x n c h q)
  /\ (activeBlockIndices = [] -> x' = x).
Proof.
  intros x'.
  assert (Hframe :
            shape x' = shape x
            /\ forall n c h q,
                (forall idx, In idx activeBlockIndices ->
                   covers x xsize bsize boffset bstride idx n c h q = false) ->
                at4 x' n c h q = at4 x n c h q).
  { subst x'. unfold sparse_scatter.
    destruct (py_assert _ _) as [[]|e]; cbn [fst].
    - apply scatter_loop_frame.
    - split; reflexivity. }
  destruct Hframe as [Hshape Hframe].
  split; [exact Hshape|]. split; [exact Hframe|]. split.
  - intros HH HW Hx2 Hx3 Hb0 Hb1 Hplain n c h q Hout.
    apply Hframe. intros idx Hin.
    apply not_true_is_false. intros Hc.
    apply (Hout idx Hin).
    rewrite Forall_forall in Hplain.
    now apply (covers_clipped_window x xsize bsize boffset bstride idx n c h q
                 HH HW Hx2 Hx3 Hb0 Hb1 (Hplain idx Hin)).
  - intros ->. subst x'. unfold sparse_scatter.
    destruct (py_assert _ _) as [[]|e]; reflexivity.
Qed.

(** ** [sparse_gather] *)

Lemma bcast_inside (s i : Z) : 0 <= i < s -> bcast s i = i.
Proof.
  intros H. unfold bcast. destruct (s =? 1) eqn:E; [|reflexivity].
  apply Z.eqb_eq in E. lia.
Qed.

Lemma expand_same {V : Type} (src : block V) :
  expand src (blkC src) (blkH src) (blkW src)
  = Ok {| blkC := blkC src; blkH := blkH src; blkW := blkW src;
          at3 := fun c r q => at3 src (bcast (blkC src) c)
                                      (bcast (blkH src) r)
                                      (bcast (blkW src) q) |}.
Proof. unfold expand, expandable. now rewrite !Z.eqb_refl. Qed.

Section GatherFacts.

Variables V F : Type.
Variable to_float32 : V -> F.
Variables (xsize : Z * Z * Z * Z) (bsize boffset bstride : Z * Z).
Variable x : tensor V.

Lemma gather_body_shape (idx : Z * Z * Z) (st st' : tensor F * Z) :
  gather_body to_float32 xsize bsize boffset bstride x idx st = Ok st' ->
  shape (fst st') = shape (fst st) /\ snd st' = snd st + 1.
Proof.
  unfold gather_body, assign_slot.
  destruct (block_window _ _ _ _ x idx) as [w|e]; cbn; [|discriminate].
  destruct (py_index _ _) as [n|e]; cbn; [|discriminate].
  destruct (expand _ _ _ _) as [s|e]; cbn; [|discriminate].
  intros [= <-]. split; reflexivity.
Qed.

Lemma gather_loop_shape (l : list (Z * Z * Z)) (st st' : tensor F * Z) :
  for_each l (gather_body to_float32 xsize bsize boffset bstride x) st = Ok st' ->
  shape (fst st') = shape (fst st).
Proof.
  intros H.
  apply (for_each_invariant (fun s => shape (fst s) = shape (fst st)) _ _)
    with (s := st) (s' := st') in H; auto.
  intros a s s' Hb Hs. apply gather_body_shape in Hb. destruct Hb. congruence.
Qed.

Hypothesis Hxsize : xsize = shape x.
Hypothesis Hb0 : 0 <= fst bsize.
Hypothesis Hb1 : 0 <= snd bsize.

Lemma gather_body_in_bounds (B h0 w0 : Z) (g : tensor F) (k : Z) :
  in_bounds x bsize boffset bstride (B, h0, w0) ->
  0 <= k < dimN g ->
  dimC g = dimC x -> dimH g = fst bsize -> dimW g = snd bsize ->
  exists g1,
    gather_body to_float32 xsize bsize boffset bstride x (B, h0, w0) (g, k)
    = Ok (g1, k + 1)
    /\ shape g1 = shape g
    /\ slot_holds to_float32 x g1 bsize boffset bstride k (B, h0, w0)
    /\ forall m c r q, m <> k -> at4 g1 m c r q = at4 g m c r q.
Proof using Hxsize Hb0 Hb1.
  intros Hin Hk HC HH HW. unfold gather_body.
  rewrite (block_window_in_bounds xsize bsize boffset bstride x B h0 w0
             Hxsize Hb0 Hb1 Hin).
  cbn [bind fst snd]. unfold assign_slot.
  rewrite (py_index_inside _ _ Hk). cbn [bind].
  set (w := {| wB := B |}).
  replace (dimC g) with (blkC (view x w)) by (cbn; lia).
  replace (dimH g) with (blkH (view x w)) by (cbn; unfold span; lia).
  replace (dimW g) with (blkW (view x w)) by (cbn; unfold span; lia).
  rewrite expand_same. cbn [bind].
  eexists. split; [reflexivity|]. split; [|split].
  - unfold shape. cbn. unfold span. f_equal; [f_equal; [f_equal|]|]; lia.
  - cbn. split; [exact Hk|]. intros c r q Hc Hr Hq.
    rewrite Z.eqb_refl. unfold span.
    replace (Z.max 0 (_ + fst bsize - _)) with (fst bsize) by lia.
    replace (Z.max 0 (_ + snd bsize - _)) with (snd bsize) by lia.
    rewrite (proj2 (within_true 0 (dimC x) c) Hc).
    rewrite (proj2 (within_true 0 (fst bsize) r) Hr).
    rewrite (proj2 (within_true 0 (snd bsize) q) Hq).
    cbn [andb]. now rewrite !bcast_inside by lia.
  - intros m c r q Hm. cbn.
    destruct (m =? k) eqn:E; [apply Z.eqb_eq in E; lia|]. reflexivity.
Qed.

Lemma slot_holds_agree (g g' : tensor F) (k : Z) (idx : Z * Z * Z) :
  slot_holds to_float32 x g bsize boffset bstride k idx ->
  dimN g' = dimN g ->
  (forall c r q, at4 g' k c r q = at4 g k c r q) ->
  slot_holds to_float32 x g' bsize boffset bstride k idx.
Proof.
  destruct idx as [[B h0] w0]. intros [Hk Hel] HN Hag. split; [lia|].
  intros c r q Hc Hr Hq. rewrite Hag. now apply Hel.
Qed.

Lemma gather_loop_in_bounds (l : list (Z * Z * Z)) :
  forall (g : tensor F) (k : Z),
    Forall (in_bounds x bsize boffset bstride) l ->
    0 <= k -> k + Z.of_nat (List.length l) <= dimN g ->
    dimC g = dimC x -> dimH g = fst bsize -> dimW g = snd bsize ->
    exists g',
      for_each l (gather_body to_float32 xsize bsize boffset bstride x) (g, k)
      = Ok (g', k + Z.of_nat (List.length l))
      /\ shape g' = shape g
      /\ slots_hold to_float32 x g' bsize boffset bstride k l
      /\ forall m c r q, m < k -> at4 g' m c r q = at4 g m c r q.
Proof using Hxsize Hb0 Hb1.
  induction l as [|[[B h0] w0] l IH]; intros g k Hall Hk Hlen HC HH HW.
  - exists g. cbn. rewrite Z.add_0_r. auto.
  - apply Forall_cons_iff in Hall. destruct Hall as [Hin Hall'].
    cbn [List.length] in Hlen. rewrite Nat2Z.inj_succ in Hlen.
    destruct (gather_body_in_bounds B h0 w0 g k Hin) as (g1 & E1 & S1 & Hs1 & Hf1);
      [lia | assumption..|].
    pose proof (proj1 (shape_eq g1 g) S1) as (SN & SC & SH & SW).
    destruct (IH g1 (k + 1) Hall') as (g' & E & S & Hs & Hf); [lia..|].
    pose proof (proj1 (shape_eq g' g1) S) as (SN' & _).
    exists g'. cbn [for_each]. rewrite E1. cbn [bind]. rewrite E.
    split; [f_equal; f_equal; cbn [List.length]; lia|].
    split; [congruence|]. split.
    + cbn [slots_hold]. split; [|exact Hs].
      apply (slot_holds_agree g1 g'); auto.
      intros c r q. apply Hf. lia.
    + intros m c r q Hm. rewrite Hf by lia. apply Hf1. lia.
Qed.

End GatherFacts.

Lemma sparse_gather_shape {V F : Type} (to_float32 : V -> F)
      (uninit : Z -> Z -> Z -> Z -> F)
      (x : tensor V) (xsize : Z * Z * Z * Z) (l : list (Z * Z * Z))
      (bsize bcount boffset bstride : Z * Z) (g : tensor F) :
  sparse_gather to_float32 uninit x xsize l bsize bcount boffset bstride = Ok g ->
  shape g = (Z.of_nat (List.length l), xsize1 xsize, fst bsize, snd bsize).
Proof.
  unfold sparse_gather, py_assert, torch_empty.
  destruct (fst bsize =? snd bsize); cbn [bind]; [|discriminate].
  destruct (_ || _); cbn [bind]; [discriminate|].
  destruct (for_each _ _ _) as [st|e] eqn:E; cbn [bind]; [|discriminate].
  intros [= <-]. apply gather_loop_shape in E. exact E.
Qed.

Lemma sparse_gather_in_bounds {V F : Type} (to_float32 : V -> F)
      (uninit : Z -> Z -> Z -> Z -> F)
      (x : tensor V) (xsize : Z * Z * Z * Z) (l : list (Z * Z * Z))
      (bsize bcount boffset bstride : Z * Z) :
  well_formed x -> xsize = shape x ->
  fst bsize = snd bsize -> 0 <= fst bsize ->
  Forall (in_bounds x bsize boffset bstride) l ->
  exists g,
    sparse_gather to_float32 uninit x xsize l bsize bcount boffset bstride = Ok g
    /\ shape g = (Z.of_nat (List.length l), dimC x, fst bsize, snd bsize)
    /\ slots_hold to_float32 x g bsize boffset bstride 0 l.
Proof.
  intros (HN & HC & HH & HW) Hx Hsq Hb Hall.
  unfold sparse_gather, py_assert, torch_empty.
  rewrite (proj2 (Z.eqb_eq _ _) Hsq). cbn [bind].
  assert (Hx1 : xsize1 xsize = dimC x) by (rewrite Hx; reflexivity).
  rewrite Hx1.
  destruct (Z.of_nat (List.length l) <? 0) eqn:E1; [apply Z.ltb_lt in E1; lia|].
  destruct (dimC x <? 0) eqn:E2; [apply Z.ltb_lt in E2; lia|].
  destruct (fst bsize <? 0) eqn:E3; [apply Z.ltb_lt in E3; lia|].
  destruct (snd bsize <? 0) eqn:E4; [apply Z.ltb_lt in E4; lia|].
  cbn [orb bind].
  set (g0 := {| dimN := Z.of_nat (List.length l) |}).
  destruct (gather_loop_in_bounds V F to_float32 xsize bsize boffset bstride x
              Hx Hb ltac:(lia) l g0 0 Hall)
    as (g & E & S & Hs & _); cbn; try lia.
  rewrite E. cbn [bind fst]. exists g. split; [reflexivity|].
  split; [rewrite S; reflexivity | exact Hs].
Qed.

(** C8: the batch that [sparse_gather] returns has shape (length of the
    index list, [xsize[1]], block height, block width), where [xsize[1]] is
    the channel count of [x] when [xsize] is the shape of [x]; and for a square
    block and index entries whose blocks lie inside [x] it does return. *)
Theorem sparse_gather_batch_shape {V F : Type} (to_float32 : V -> F)
        (uninit : Z -> Z -> Z -> Z -> F)
        (x : tensor V) (xsize : Z * Z * Z * Z)
        (activeBlockIndices : list (Z * Z * Z))
        (bsize bcount boffset bstride : Z * Z) :
  (forall g,
     sparse_gather to_float32 uninit x xsize activeBlockIndices
       bsize bcount boffset bstride = Ok g ->
     shape g = (Z.of_nat (List.length activeBlockIndices), xsize1 xsize,
                fst bsize, snd bsize))
  /\ (well_formed x -> xsize = shape x ->
      fst bsize = snd bsize -> 0 <= fst bsize ->
      Forall (in_bounds x bsize boffset bstride) activeBlockIndices ->
      exists g,
        sparse_gather to_float32 uninit x xsize activeBlockIndices
          bsize bcount boffset bstride = Ok g
        /\ shape g = (Z.of_nat (List.length activeBlockIndices), dimC x,
                      fst bsize, snd bsize)).
Proof.
  split.
  - intros g. apply sparse_gather_shape.
  - intros Hwf Hx Hsq Hb Hall.
    destruct (sparse_gather_in_bounds to_float32 uninit x xsize activeBlockIndices
                bsize bcount boffset bstride Hwf Hx Hsq Hb Hall)
      as (g & E & S & _).
    eauto.
Qed.

Lemma sparse_gather_batch_shape_witness :
  exists g,
    sparse_gather int64_to_float32 (fun _ _ _ _ => 0%Q) (ramp 2 3 4 4)
      (2, 3, 4, 4) [(0, 0, 0); (1, 1, 1)] (2, 2) (2, 2) (0, 0) (2, 2) = Ok g
    /\ shape g = (2, 3, 2, 2).
Proof.
  destruct (sparse_gather_batch_shape int64_to_float32 (fun _ _ _ _ => 0%Q)
              (ramp 2 3 4 4) (2, 3, 4, 4) [(0, 0, 0); (1, 1, 1)]
              (2, 2) (2, 2) (0, 0) (2, 2))
    as [Hshape Hreturns].
  destruct Hreturns as (g & E & _).
  - unfold well_formed. cbn. lia.
  - reflexivity.
  - reflexivity.
  - cbn. lia.
  - repeat constructor; cbn; lia.
  - exists g. split; [exact E|]. exact (Hshape g E).
Defined.

Lemma sparse_scatter_frame_witness :
  at4 (fst (sparse_scatter (fun g => g) (Some Z.add) (ramp 1 1 4 4) (1, 1, 4, 4)
              (fill 1 1 2 2 5) (1, 1, 2, 2) [(0, 0, 0)]
              (2, 2) (2, 2) (0, 0) (2, 2) true))
      0 0 3 3
  = at4 (ramp 1 1 4 4) 0 0 3 3
  /\ at4 (fst (sparse_scatter (fun g => g) (Some Z.add) (ramp 1 1 4 4)
                 (1, 1, 4, 4) (fill 1 1 2 2 5) (1, 1, 2, 2) [(0, 0, 0)]
                 (2, 2) (2, 2) (0, 0) (2, 2) false))
         0 0 1 2
     = at4 (ramp 1 1 4 4) 0 0 1 2
  /\ fst (sparse_scatter (fun g => g) (Some Z.add) (ramp 1 1 4 4) (1, 1, 4, 4)
            (fill 1 1 2 2 5) (1, 1, 2, 2) [] (2, 2) (2, 2) (0, 0) (2, 2) true)
     = ramp 1 1 4 4.
Proof.
  split; [|split].
  - destruct (sparse_scatter_frame (fun g => g) (Some Z.add) (ramp 1 1 4 4)
                (1, 1, 4, 4) (fill 1 1 2 2 5) (1, 1, 2, 2) [(0, 0, 0)]
                (2, 2) (2, 2) (0, 0) (2, 2) true) as (_ & Hframe & _).
    apply Hframe. intros idx [<-|[]]. reflexivity.
  - destruct (sparse_scatter_frame (fun g => g) (Some Z.add) (ramp 1 1 4 4)
                (1, 1, 4, 4) (fill 1 1 2 2 5) (1, 1, 2, 2) [(0, 0, 0)]
                (2, 2) (2, 2) (0, 0) (2, 2) false) as (_ & _ & Hwindow & _).
    apply Hwindow; try (cbn; lia).
    + repeat constructor; cbn; lia.
    + intros idx [<-|[]]. cbn. lia.
  - destruct (sparse_scatter_frame (fun g => g) (Some Z.add) (ramp 1 1 4 4)
                (1, 1, 4, 4) (fill 1 1 2 2 5) (1, 1, 2, 2) []
                (2, 2) (2, 2) (0, 0) (2, 2) true) as (_ & _ & _ & Hempty).
    now apply Hempty.
Defined.

(** ** A block clipped at the boundary *)

(** C5: on a 5x5 plane with 3x3 blocks at stride 3, the block at grid cell
    (1, 1) has the window rows 3..4, columns 3..4 after clipping; assigning
    that 2x2 view to the 3x3 slot of the batch is a shape mismatch, and
    [sparse_gather] raises instead of copying the valid part, whatever the
    element type of the batch. *)
Theorem sparse_gather_boundary_block_raises {F : Type} (to_float32 : Z -> F)
        (uninit : Z -> Z -> Z -> Z -> F) :
  sparse_gather to_float32 uninit (ramp 1 1 5 5) (1, 1, 5, 5) [(0, 1, 1)]
    (3, 3) (2, 2) (0, 0) (3, 3) = Raise RuntimeError.
Proof. reflexivity. Qed.

(** A clipped window one row and one column wide is repeated over the whole
    slot of the batch. *)
Example sparse_gather_boundary_block_broadcast :
  match sparse_gather int64_to_float32 (fun _ _ _ _ => 0%Q) (ramp 1 1 5 5)
          (1, 1, 5, 5) [(0, 2, 2)] (2, 2) (3, 3) (0, 0) (2, 2) with
  | Ok g => map (fun r => map (fun q => at4 g 0 0 r q) [0; 1]) [0; 1]
  | Raise _ => []
  end = [[45%Q; 45%Q]; [45%Q; 45%Q]].
Proof. vm_compute. reflexivity. Qed.

(** Gathering two blocks of a 4x4 plane. *)
Example sparse_gather_two_blocks :
  match sparse_gather int64_to_float32 (fun _ _ _ _ => 0%Q) (ramp 1 1 4 4)
          (1, 1, 4, 4) [(0, 0, 0); (0, 1, 1)] (2, 2) (2, 2) (0, 0) (2, 2) with
  | Ok g => map (fun i => map (fun r => map (fun q => at4 g i 0 r q) [0; 1]) [0; 1])
                [0; 1]
  | Raise _ => []
  end = [[[1%Q; 2%Q]; [11%Q; 12%Q]]; [[23%Q; 24%Q]; [33%Q; 34%Q]]].
Proof. vm_compute. reflexivity. Qed.

(** The batch is float32 whatever the tensor holds: an int64 element that is
    not a float32 number is rounded on the way into the batch. *)
Example sparse_gather_rounds_int64 :
  match sparse_gather int64_to_float32 (fun _ _ _ _ => 0%Q)
          (fill 1 1 2 2 16777217) (1, 1, 2, 2) [(0, 0, 0)]
          (2, 2) (1, 1) (0, 0) (2, 2) with
  | Ok g => Some (at4 g 0 0 0 0)
  | Raise _ => None
  end = Some 16777216%Q.
Proof. vm_compute. reflexivity. Qed.

(** ** Further properties of [sparse_gather] *)

Lemma slots_hold_nth {V F : Type} (to_float32 : V -> F)
      (x : tensor V) (g : tensor F) (bsize boffset bstride : Z * Z)
      (l : list (Z * Z * Z)) :
  forall (k : Z) (i : nat) (idx : Z * Z * Z),
    slots_hold to_float32 x g bsize boffset bstride k l ->
    nth_error l i = Some idx ->
    slot_holds to_float32 x g bsize boffset bstride (k + Z.of_nat i) idx.
Proof.
  induction l as [|e l IH]; intros k i idx Hs Hn.
  - destruct i; discriminate.
  - cbn [slots_hold] in Hs. destruct Hs as [He Hl]. destruct i as [|i].
    + cbn in Hn. injection Hn as <-. now rewrite Z.add_0_r.
    + cbn [nth_error] in Hn. rewrite Nat2Z.inj_succ.
      replace (k + Z.succ (Z.of_nat i)) with (k + 1 + Z.of_nat i) by lia.
      now apply IH.
Qed.

(** X7: for a square block and index entries whose blocks lie inside [x],
    the slot of the batch at the position of an entry holds the block of [x]
    that the entry denotes, element by element over all channels, each
    element converted to the element type of the batch; nothing of the
    uninitialised allocation is left in it. *)
Theorem sparse_gather_slot_content {V F : Type} (to_float32 : V -> F)
        (uninit : Z -> Z -> Z -> Z -> F)
        (x : tensor V) (xsize : Z * Z * Z * Z)
        (activeBlockIndices : list (Z * Z * Z))
        (bsize bcount boffset bstride : Z * Z) :
  well_formed x -> xsize = shape x ->
  fst bsize = snd bsize -> 0 <= fst bsize ->
  Forall (in_bounds x bsize boffset bstride) activeBlockIndices ->
  exists gathered,
    sparse_gather to_float32 uninit x xsize activeBlockIndices
      bsize bcount boffset bstride = Ok gathered
    /\ forall i B h0 w0 c r q,
        nth_error activeBlockIndices i = Some (B, h0, w0) ->
        0 <= c < dimC x -> 0 <= r < fst bsize -> 0 <= q < snd bsize ->
        at4 gathered (Z.of_nat i) c r q
        = to_float32 (at4 x B c (fst boffset + h0 * fst bstride + r)
                          (snd boffset + w0 * snd bstride + q)).
Proof.
  intros Hwf Hx Hsq Hb Hall.
  destruct (sparse_gather_in_bounds to_float32 uninit x xsize activeBlockIndices
              bsize bcount boffset bstride Hwf Hx Hsq Hb Hall)
    as (g & Eg & _ & Hslots).
  exists g. split; [exact Eg|].
  intros i B h0 w0 c r q Hn Hc Hr Hq.
  pose proof (slots_hold_nth to_float32 x g bsize boffset bstride
                activeBlockIndices 0 i (B, h0, w0) Hslots Hn) as [_ Hel].
  cbn [Z.add] in Hel. now apply Hel.
Qed.

Lemma sparse_gather_slot_content_witness :
  exists gathered,
    sparse_gather int64_to_float32 (fun _ _ _ _ => 0%Q) (ramp 1 2 4 4)
      (1, 2, 4, 4) [(0, 0, 0); (0, 1, 1)] (2, 2) (2, 2) (0, 0) (2, 2)
    = Ok gathered
    /\ forall i B h0 w0 c r q,
        nth_error [(0, 0, 0); (0, 1, 1)] i = Some (B, h0, w0) ->
        0 <= c < 2 -> 0 <= r < 2 -> 0 <= q < 2 ->
        at4 gathered (Z.of_nat i) c r q
        = int64_to_float32
            (at4 (ramp 1 2 4 4) B c (0 + h0 * 2 + r) (0 + w0 * 2 + q)).
Proof.
  apply (sparse_gather_slot_content int64_to_float32 (fun _ _ _ _ => 0%Q)
           (ramp 1 2 4 4) (1, 2, 4, 4) [(0, 0, 0); (0, 1, 1)]
           (2, 2) (2, 2) (0, 0) (2, 2)).
  - unfold well_formed. cbn. lia.
  - reflexivity.
  - reflexivity.
  - cbn. lia.
  - repeat constructor; cbn; lia.
Defined.

(** ** What [sparse_gather] reads *)

Lemma expandable_true (s d : Z) : expandable s d = true <-> s = d \/ s = 1.
Proof. unfold expandable. rewrite orb_true_iff, !Z.eqb_eq. reflexivity. Qed.

(** The index that a broadcast read uses lies inside the source range. *)
Lemma bcast_in_range (lo hi d i : Z) :
  expandable (span lo hi) d = true -> 0 <= i < d ->
  lo <= lo + bcast (span lo hi) i < hi.
Proof.
  intros He Hi. apply expandable_true in He. unfold bcast, span in *.
  destruct (Z.max 0 (hi - lo) =? 1) eqn:E.
  - apply Z.eqb_eq in E. lia.
  - apply Z.eqb_neq in E. lia.
Qed.

Lemma bcast_in_channels (C d c : Z) :
  expandable C d = true -> 0 <= c < d -> 0 <= bcast C c < C.
Proof.
  intros He Hc. apply expandable_true in He. unfold bcast.
  destruct (C =? 1) eqn:E.
  - apply Z.eqb_eq in E. lia.
  - apply Z.eqb_neq in E. lia.
Qed.

Section GatherReads.

Variables V F : Type.
Variable to_float32 : V -> F.
Variables (xsize : Z * Z * Z * Z) (bsize boffset bstride : Z * Z).
Variables x y : tensor V.

Hypothesis Hwf : well_formed x.
Hypothesis Hsame : same_elements x y.

Lemma gather_body_same (idx : Z * Z * Z) (g1 g2 : tensor F) (k : Z) :
  same_tensor g1 g2 ->
  match gather_body to_float32 xsize bsize boffset bstride x idx (g1, k),
        gather_body to_float32 xsize bsize boffset bstride y idx (g2, k) with
  | Ok s1, Ok s2 => same_tensor (fst s1) (fst s2) /\ snd s1 = snd s2
  | Raise e1, Raise e2 => e1 = e2
  | _, _ => False
  end.
Proof using Hwf Hsame.
  intros [Hsg Hg]. destruct Hsame as [Hs Hel].
  pose proof (proj1 (shape_eq x y) Hs) as (SN & SC & SH & SW).
  pose proof (proj1 (shape_eq g1 g2) Hsg) as (GN & GC & GH & GW).
  unfold gather_body.
  rewrite <- (block_window_shape xsize bsize boffset bstride x y idx Hs).
  destruct (block_window xsize bsize boffset bstride x idx) as [w|e] eqn:Ew;
    cbn [bind fst snd]; [|reflexivity].
  pose proof (block_window_inside x xsize bsize boffset bstride idx w Hwf Ew)
    as (HB & Hh0 & Hh1 & Hw0 & Hw1).
  unfold assign_slot. rewrite <- GN, <- GC, <- GH, <- GW.
  destruct (py_index (dimN g1) k) as [m|e]; cbn [bind]; [|reflexivity].
  unfold expand. cbn [blkC blkH blkW view]. rewrite <- SC.
  destruct (expandable (dimC x) (dimC g1)) eqn:EC; cbn [andb]; [|reflexivity].
  destruct (expandable (span (wh0 w) (wh1 w)) (dimH g1)) eqn:EH; cbn [andb];
    [|reflexivity].
  destruct (expandable (span (ww0 w) (ww1 w)) (dimW g1)) eqn:EW; cbn [bind];
    [|reflexivity].
  cbn [fst snd]. split; [|reflexivity]. split.
  - unfold shape. cbn. reflexivity.
  - intros m' c r q. cbn [at4 at3 view].
    destruct ((m' =? m) && within 0 (dimC g1) c && within 0 (dimH g1) r
              && within 0 (dimW g1) q) eqn:Ec; [|apply Hg].
    rewrite !andb_true_iff, !within_true in Ec.
    destruct Ec as (((_ & Hc) & Hr) & Hq).
    pose proof (bcast_in_channels _ _ c EC Hc).
    pose proof (bcast_in_range _ _ _ r EH Hr).
    pose proof (bcast_in_range _ _ _ q EW Hq).
    f_equal. apply Hel; lia.
Qed.

Lemma gather_loop_same (l : list (Z * Z * Z)) :
  forall (g1 g2 : tensor F) (k : Z),
    same_tensor g1 g2 ->
    match for_each l (gather_body to_float32 xsize bsize boffset bstride x) (g1, k),
          for_each l (gather_body to_float32 xsize bsize boffset bstride y) (g2, k)
    with
    | Ok s1, Ok s2 => same_tensor (fst s1) (fst s2)
    | Raise e1, Raise e2 => e1 = e2
    | _, _ => False
    end.
Proof using Hwf Hsame.
  induction l as [|idx l IH]; intros g1 g2 k Hg; cbn [for_each].
  - exact Hg.
  - pose proof (gather_body_same idx g1 g2 k Hg) as Hstep.
    destruct (gather_body to_float32 xsize bsize boffset bstride x idx (g1, k))
      as [[g1' k1]|e1];
      destruct (gather_body to_float32 xsize bsize boffset bstride y idx (g2, k))
      as [[g2' k2]|e2]; cbn [bind]; try contradiction; [|exact Hstep].
    cbn [fst snd] in Hstep. destruct Hstep as [Hg' <-]. now apply IH.
Qed.

End GatherReads.

(** X8: [sparse_gather] reads nothing but elements of [x]: two tensors of the
    same shape that agree on their elements, whatever lies under indices
    outside the shape, give the same exception or batches with the same shape
    and the same content.  This holds for every index list and grid, clipped
    and wrapped windows included. *)
Theorem sparse_gather_reads_in_bounds {V F : Type} (to_float32 : V -> F)
        (uninit : Z -> Z -> Z -> Z -> F)
        (x y : tensor V) (xsize : Z * Z * Z * Z)
        (activeBlockIndices : list (Z * Z * Z))
        (bsize bcount boffset bstride : Z * Z) :
  well_formed x -> same_elements x y ->
  same_outcome
    (sparse_gather to_float32 uninit x xsize activeBlockIndices
       bsize bcount boffset bstride)
    (sparse_gather to_float32 uninit y xsize activeBlockIndices
       bsize bcount boffset bstride).
Proof.
  intros Hwf Hsame. unfold sparse_gather.
  destruct (py_assert _ _) as [[]|e]; cbn [bind]; [|reflexivity].
  destruct (torch_empty uninit _ _ _ _) as [g0|e]; cbn [bind]; [|reflexivity].
  pose proof (gather_loop_same V F to_float32 xsize bsize boffset bstride x y
                Hwf Hsame activeBlockIndices g0 g0 0
                (conj eq_refl (fun _ _ _ _ => eq_refl))) as Hloop.
  destruct (for_each activeBlockIndices
              (gather_body to_float32 xsize bsize boffset bstride x) (g0, 0))
    as [s1|e1];
    destruct (for_each activeBlockIndices
                (gather_body to_float32 xsize bsize boffset bstride y) (g0, 0))
    as [s2|e2];
    cbn [bind same_outcome]; try contradiction; exact Hloop.
Qed.

Lemma sparse_gather_reads_in_bounds_witness :
  same_outcome
    (sparse_gather int64_to_float32 (fun _ _ _ _ => 0%Q) (ramp 1 1 5 5)
       (1, 1, 5, 5) [(0, 0, 0); (0, 2, 2)] (2, 2) (3, 3) (0, 0) (2, 2))
    (sparse_gather int64_to_float32 (fun _ _ _ _ => 0%Q)
       {| dimN := 1; dimC := 1; dimH := 5; dimW := 5;
          at4 := fun n c h q =>
                   if (0 <=? h) && (h <? 5) && (0 <=? q) && (q <? 5)
                      && (0 <=? n) && (n <? 1) && (0 <=? c) && (c <? 1)
                   then 1000 * n + 100 * c + 10 * h + q + 1
                   else 0 |}
       (1, 1, 5, 5) [(0, 0, 0); (0, 2, 2)] (2, 2) (3, 3) (0, 0) (2, 2)).
Proof.
  apply sparse_gather_reads_in_bounds.
  - unfold well_formed. cbn. lia.
  - split; [reflexivity|]. cbn. intros n c h q Hn Hc Hh Hq.
    destruct (0 <=? h) eqn:E1; [|apply Z.leb_gt in E1; lia].
    destruct (h <? 5) eqn:E2; [|apply Z.ltb_ge in E2; lia].
    destruct (0 <=? q) eqn:E3; [|apply Z.leb_gt in E3; lia].
    destruct (q <? 5) eqn:E4; [|apply Z.ltb_ge in E4; lia].
    destruct (0 <=? n) eqn:E5; [|apply Z.leb_gt in E5; lia].
    destruct (n <? 1) eqn:E6; [|apply Z.ltb_ge in E6; lia].
    destruct (0 <=? c) eqn:E7; [|apply Z.leb_gt in E7; lia].
    destruct (c <? 1) eqn:E8; [|apply Z.ltb_ge in E8; lia].
    reflexivity.
Defined.

(** ** Where [sparse_gather] raises *)

Section GatherErrors.

Variables V F : Type.
Variable to_float32 : V -> F.
Variable uninit : Z -> Z -> Z -> Z -> F.
Variables (x : tensor V) (xsize : Z * Z * Z * Z).
Variables (bsize bcount boffset bstride : Z * Z).
Variables (l1 l2 : list (Z * Z * Z)) (B h0 w0 : Z).

Hypothesis Hwf : well_formed x.
Hypothesis Hxsize : xsize = shape x.
Hypothesis Hsq : fst bsize = snd bsize.
Hypothesis Hb : 0 <= fst bsize.
Hypothesis Hl1 : Forall (in_bounds x bsize boffset bstride) l1.

(** The call up to the entry that follows the prefix [l1]. *)
Lemma sparse_gather_after_prefix :
  exists g,
    dimN g = Z.of_nat (List.length (l1 ++ (B, h0, w0) :: l2))
    /\ dimC g = dimC x /\ dimH g = fst bsize /\ dimW g = snd bsize
    /\ sparse_gather to_float32 uninit x xsize (l1 ++ (B, h0, w0) :: l2)
         bsize bcount boffset bstride
       = (st <- (st1 <- gather_body to_float32 xsize bsize boffset bstride x
                          (B, h0, w0) (g, Z.of_nat (List.length l1)) ;;
                 for_each l2 (gather_body to_float32 xsize bsize boffset bstride x)
                   st1) ;;
          Ok (fst st)).
Proof using Hwf Hxsize Hsq Hb Hl1.
  destruct Hwf as (HN & HC & HH & HW).
  unfold sparse_gather, py_assert, torch_empty.
  rewrite (proj2 (Z.eqb_eq _ _) Hsq). cbn [bind].
  assert (Hx1 : xsize1 xsize = dimC x) by (rewrite Hxsize; reflexivity).
  rewrite Hx1.
  set (n := Z.of_nat (List.length (l1 ++ (B, h0, w0) :: l2))).
  assert (Hn : Z.of_nat (List.length l1) < n).
  { subst n. rewrite length_app. cbn [List.length]. lia. }
  destruct (n <? 0) eqn:E1; [apply Z.ltb_lt in E1; lia|].
  destruct (dimC x <? 0) eqn:E2; [apply Z.ltb_lt in E2; lia|].
  destruct (fst bsize <? 0) eqn:E3; [apply Z.ltb_lt in E3; lia|].
  destruct (snd bsize <? 0) eqn:E4; [apply Z.ltb_lt in E4; lia|].
  cbn [orb bind].
  set (g0 := {| dimN := n |}).
  destruct (gather_loop_in_bounds V F to_float32 xsize bsize boffset bstride x
              Hxsize Hb ltac:(lia) l1 g0 0 Hl1)
    as (g & E & S & _); cbn; try lia.
  pose proof (proj1 (shape_eq g g0) S) as (SN & SC & SH & SW).
  cbn in SN, SC, SH, SW.
  exists g. repeat split; try assumption.
  rewrite for_each_app, E. cbn [bind for_each Z.add]. reflexivity.
Qed.

End GatherErrors.

(** X9: an index entry whose batch index is outside [-N, N) makes
    [sparse_gather] raise [IndexError], when the entries before it are blocks
    inside [x]. *)
Theorem sparse_gather_batch_index_error {V F : Type} (to_float32 : V -> F)
        (uninit : Z -> Z -> Z -> Z -> F) (x : tensor V) (xsize : Z * Z * Z * Z)
        (bsize bcount boffset bstride : Z * Z)
        (l1 l2 : list (Z * Z * Z)) (B h0 w0 : Z) :
  well_formed x -> xsize = shape x ->
  fst bsize = snd bsize -> 0 <= fst bsize ->
  Forall (in_bounds x bsize boffset bstride) l1 ->
  B < - dimN x \/ dimN x <= B ->
  sparse_gather to_float32 uninit x xsize (l1 ++ (B, h0, w0) :: l2)
    bsize bcount boffset bstride = Raise IndexError.
Proof.
  intros Hwf Hx Hsq Hb Hl1 HB.
  destruct (sparse_gather_after_prefix V F to_float32 uninit x xsize bsize bcount
              boffset bstride l1 l2 B h0 w0 Hwf Hx Hsq Hb Hl1)
    as (g & _ & _ & _ & _ & ->).
  unfold gather_body, block_window, locate, py_index.
  destruct ((B <? - dimN x) || (dimN x <=? B)) eqn:E; [reflexivity|].
  apply orb_false_iff in E. destruct E as [E1 E2].
  apply Z.ltb_ge in E1. apply Z.leb_gt in E2. lia.
Qed.

Lemma sparse_gather_batch_index_error_witness :
  sparse_gather int64_to_float32 (fun _ _ _ _ => 0%Q) (ramp 1 1 4 4) (1, 1, 4, 4)
    ([(0, 0, 0)] ++ (1, 0, 0) :: [(0, 1, 1)]) (2, 2) (2, 2) (0, 0) (2, 2)
  = Raise IndexError.
Proof.
  apply sparse_gather_batch_index_error.
  - unfold well_formed. cbn. lia.
  - reflexivity.
  - reflexivity.
  - cbn. lia.
  - repeat constructor; cbn; lia.
  - right. cbn. lia.
Defined.

(** X10: an index entry whose corner is inside [x] but whose block runs past
    the last row, so that the clipped window has fewer rows than the block,
    makes [sparse_gather] raise [RuntimeError], unless exactly one row is
    left; the entries before it are blocks inside [x]. *)
Theorem sparse_gather_clipped_rows_error {V F : Type} (to_float32 : V -> F)
        (uninit : Z -> Z -> Z -> Z -> F) (x : tensor V) (xsize : Z * Z * Z * Z)
        (bsize bcount boffset bstride : Z * Z)
        (l1 l2 : list (Z * Z * Z)) (B h0 w0 : Z) :
  well_formed x -> xsize = shape x ->
  fst bsize = snd bsize -> 0 <= fst bsize ->
  Forall (in_bounds x bsize boffset bstride) l1 ->
  0 <= B < dimN x ->
  0 <= fst boffset + h0 * fst bstride <= dimH x ->
  dimH x < fst boffset + h0 * fst bstride + fst bsize ->
  dimH x - (fst boffset + h0 * fst bstride) <> 1 ->
  sparse_gather to_float32 uninit x xsize (l1 ++ (B, h0, w0) :: l2)
    bsize bcount boffset bstride = Raise RuntimeError.
Proof.
  intros Hwf Hx Hsq Hb Hl1 HB Hcorner Hpast Hone.
  destruct (sparse_gather_after_prefix V F to_float32 uninit x xsize bsize bcount
              boffset bstride l1 l2 B h0 w0 Hwf Hx Hsq Hb Hl1)
    as (g & HgN & HgC & HgH & HgW & ->).
  unfold gather_body, block_window, locate.
  rewrite (py_index_inside _ _ HB). cbn [bind fst snd].
  unfold assign_slot.
  rewrite py_index_inside
    by (rewrite HgN, length_app; cbn [List.length]; lia).
  cbn [bind]. unfold expand. cbn [blkC blkH blkW view wh0 wh1 ww0 ww1].
  assert (Hx2 : xsize2 xsize = dimH x) by (rewrite Hx; reflexivity).
  rewrite Hx2, HgC, HgH.
  set (bh_index := fst boffset + h0 * fst bstride) in *.
  rewrite (Z.min_r (bh_index + fst bsize) (dimH x)) by lia.
  rewrite (slice_bound_inside (dimH x) bh_index) by lia.
  rewrite (slice_bound_inside (dimH x) (dimH x)) by lia.
  assert (Ee : expandable (span bh_index (dimH x)) (fst bsize) = false).
  { unfold expandable, span. apply orb_false_iff.
    split; apply Z.eqb_neq; lia. }
  rewrite Ee, andb_false_r. reflexivity.
Qed.

Lemma sparse_gather_clipped_rows_error_witness :
  sparse_gather int64_to_float32 (fun _ _ _ _ => 0%Q) (ramp 1 1 5 5) (1, 1, 5, 5)
    ([(0, 0, 0)] ++ (0, 1, 0) :: []) (3, 3) (2, 2) (0, 0) (3, 3)
  = Raise RuntimeError.
Proof.
  apply sparse_gather_clipped_rows_error.
  - unfold well_formed. cbn. lia.
  - reflexivity.
  - reflexivity.
  - cbn. lia.
  - repeat constructor; cbn; lia.
  - cbn. lia.
  - cbn. lia.
  - cbn. lia.
  - cbn. lia.
Defined.

(** X20: when the clipping leaves exactly one row of a block more than one
    row high (columns inside the tensor), [sparse_gather] does not raise: the
    assignment broadcasts, and every row of the slot is a converted copy of
    the last row of [x].  Here the entry is the last one of the index list
    and the entries before it are blocks inside [x]. *)
Theorem sparse_gather_one_row_broadcast {V F : Type} (to_float32 : V -> F)
        (uninit : Z -> Z -> Z -> Z -> F) (x : tensor V) (xsize : Z * Z * Z * Z)
        (bsize bcount boffset bstride : Z * Z)
        (l1 : list (Z * Z * Z)) (B h0 w0 : Z) :
  well_formed x -> xsize = shape x ->
  fst bsize = snd bsize -> 1 < fst bsize ->
  Forall (in_bounds x bsize boffset bstride) l1 ->
  0 <= B < dimN x ->
  fst boffset + h0 * fst bstride = dimH x - 1 -> 0 < dimH x ->
  0 <= snd boffset + w0 * snd bstride ->
  snd boffset + w0 * snd bstride + snd bsize <= dimW x ->
  exists gathered,
    sparse_gather to_float32 uninit x xsize (l1 ++ [(B, h0, w0)])
      bsize bcount boffset bstride = Ok gathered
    /\ forall c r q,
        0 <= c < dimC x -> 0 <= r < fst bsize -> 0 <= q < snd bsize ->
        at4 gathered (Z.of_nat (List.length l1)) c r q
        = to_float32
            (at4 x B c (dimH x - 1) (snd boffset + w0 * snd bstride + q)).
Proof.
  intros Hwf Hx Hsq Hb Hl1 HB Hrow HH Hw0 Hw1.
  destruct (sparse_gather_after_prefix V F to_float32 uninit x xsize bsize bcount
              boffset bstride l1 [] B h0 w0 Hwf Hx Hsq ltac:(lia) Hl1)
    as (g & HgN & HgC & HgH & HgW & ->).
  unfold gather_body, block_window, locate.
  rewrite (py_index_inside _ _ HB). cbn [bind fst snd].
  unfold assign_slot.
  rewrite py_index_inside
    by (rewrite HgN, length_app; cbn [List.length]; lia).
  cbn [bind].
  assert (Hx2 : xsize2 xsize = dimH x) by (rewrite Hx; reflexivity).
  assert (Hx3 : xsize3 xsize = dimW x) by (rewrite Hx; reflexivity).
  rewrite Hx2, Hx3, Hrow.
  set (bw_index := snd boffset + w0 * snd bstride) in *.
  rewrite (Z.min_r (dimH x - 1 + fst bsize) (dimH x)) by lia.
  rewrite (Z.min_l (bw_index + snd bsize) (dimW x)) by lia.
  rewrite !slice_bound_inside by lia.
  unfold expand. cbn [blkC blkH blkW view wh0 wh1 ww0 ww1].
  replace (span (dimH x - 1) (dimH x)) with 1 by (unfold span; lia).
  replace (span bw_index (bw_index + snd bsize)) with (snd bsize)
    by (unfold span; lia).
  rewrite HgC, HgH, HgW.
  unfold expandable. rewrite !Z.eqb_refl, orb_true_r. cbn [andb orb bind for_each fst].
  eexists. split; [reflexivity|].
  intros c r q Hc Hr Hq. cbn [at4 at3 wB].
  rewrite Z.eqb_refl.
  rewrite (proj2 (within_true 0 (dimC x) c) Hc).
  rewrite (proj2 (within_true 0 (fst bsize) r) Hr).
  rewrite (proj2 (within_true 0 (snd bsize) q) Hq).
  cbn [andb]. rewrite (bcast_inside (dimC x) c Hc).
  rewrite (bcast_inside (snd bsize) q Hq).
  unfold bcast. cbn. f_equal. f_equal. lia.
Qed.

Lemma sparse_gather_one_row_broadcast_witness :
  exists gathered,
    sparse_gather int64_to_float32 (fun _ _ _ _ => 0%Q) (ramp 1 1 5 4)
      (1, 1, 5, 4) ([(0, 0, 0)] ++ [(0, 2, 1)]) (2, 2) (3, 2) (0, 0) (2, 2)
    = Ok gathered
    /\ forall c r q,
        0 <= c < 1 -> 0 <= r < 2 -> 0 <= q < 2 ->
        at4 gathered (Z.of_nat (List.length [(0, 0, 0)])) c r q
        = int64_to_float32 (at4 (ramp 1 1 5 4) 0 c (5 - 1) (0 + 1 * 2 + q)).
Proof.
  apply (sparse_gather_one_row_broadcast int64_to_float32 (fun _ _ _ _ => 0%Q)
           (ramp 1 1 5 4) (1, 1, 5, 4) (2, 2) (3, 2) (0, 0) (2, 2)
           [(0, 0, 0)] 0 2 1).
  - unfold well_formed. cbn. lia.
  - reflexivity.
  - reflexivity.
  - cbn. lia.
  - repeat constructor; cbn; lia.
  - cbn. lia.
  - reflexivity.
  - cbn. lia.
  - cbn. lia.
  - cbn. lia.
Defined.

(** ** [sparse_scatter] on blocks inside the tensor *)

Section ScatterFacts.

Variables V G : Type.
Variable of_batch : G -> V.
Variable iadd : option (V -> G -> V).
Variables (xsize : Z * Z * Z * Z) (bsize boffset bstride : Z * Z).
Variables (gathered : tensor G) (do_add : bool).

Lemma slot_past_end (k : Z) :
  dimN gathered <= k -> slot gathered k = Raise IndexError.
Proof.
  intros H. unfold slot, py_index.
  destruct (dimN gathered <=? k) eqn:E; [|apply Z.leb_gt in E; lia].
  now rewrite orb_true_r.
Qed.

Lemma scatter_body_past_end (idx : Z * Z * Z) (k : Z) (x : tensor V) :
  dimN gathered <= k ->
  scatter_body of_batch iadd xsize bsize boffset bstride gathered do_add idx k x
  = Raise IndexError.
Proof.
  intros H. unfold scatter_body. rewrite (slot_past_end k H).
  destruct do_add; [|reflexivity].
  destruct (block_window _ _ _ _ x idx) as [w|e] eqn:E; cbn; [reflexivity|].
  now rewrite (block_window_Raise xsize bsize boffset bstride x idx e E).
Qed.

Lemma scatter_loop_app (l1 l2 : list (Z * Z * Z)) :
  forall (k : Z) (x : tensor V),
    scatter_loop of_batch iadd xsize bsize boffset bstride gathered do_add
      (l1 ++ l2) k x
    = match scatter_loop of_batch iadd xsize bsize boffset bstride gathered
              do_add l1 k x with
      | (x1, Ok _) =>
          scatter_loop of_batch iadd xsize bsize boffset bstride gathered do_add
            l2 (k + Z.of_nat (List.length l1)) x1
      | (x1, Raise e) => (x1, Raise e)
      end.
Proof.
  induction l1 as [|idx l1 IH]; intros k x; cbn [scatter_loop app List.length].
  - now rewrite Z.add_0_r.
  - destruct (scatter_body _ _ _ _ _ _ _ _ idx k x) as [x1|e]; [|reflexivity].
    rewrite IH. rewrite Nat2Z.inj_succ.
    replace (k + 1 + Z.of_nat (List.length l1))
      with (k + Z.succ (Z.of_nat (List.length l1))) by lia.
    reflexivity.
Qed.

Hypothesis Hb0 : 0 <= fst bsize.
Hypothesis Hb1 : 0 <= snd bsize.

(** One iteration on a block inside the tensor, when slot [k] of the batch
    has the shape of a block and torch performs the write for the element
    types: it succeeds, and every element of the window receives the element
    of the slot at the same offset. *)
Lemma scatter_body_in_bounds (f : V -> G -> V) (B h0 w0 k : Z) (x : tensor V) :
  write_op of_batch iadd do_add = Some f ->
  xsize = shape x ->
  in_bounds x bsize boffset bstride (B, h0, w0) ->
  0 <= k < dimN gathered ->
  dimC gathered = dimC x -> dimH gathered = fst bsize ->
  dimW gathered = snd bsize ->
  exists x',
    scatter_body of_batch iadd xsize bsize boffset bstride gathered do_add
      (B, h0, w0) k x = Ok x'
    /\ shape x' = shape x
    /\ forall n c h q,
        at4 x' n c h q
        = if covers x xsize bsize boffset bstride (B, h0, w0) n c h q
          then f (at4 x n c h q)
                 (slot_value gathered boffset bstride k (B, h0, w0) c h q)
          else at4 x n c h q.
Proof using Hb0 Hb1.
  intros Hf Hx Hin Hk HC HH HW.
  pose proof (block_window_in_bounds xsize bsize boffset bstride x B h0 w0
                Hx Hb0 Hb1 Hin) as Ew.
  set (w := {| wB := B |}) in Ew.
  assert (Es : slot gathered k
               = Ok {| blkC := dimC gathered; blkH := dimH gathered;
                       blkW := dimW gathered; at3 := at4 gathered k |}).
  { unfold slot. now rewrite (py_index_inside _ _ Hk). }
  set (src := {| blkC := dimC gathered |}) in Es.
  assert (Ee : expand src (dimC x) (span (wh0 w) (wh1 w)) (span (ww0 w) (ww1 w))
               = Ok {| blkC := blkC src; blkH := blkH src; blkW := blkW src;
                       at3 := fun c r q => at3 src (bcast (blkC src) c)
                                                   (bcast (blkH src) r)
                                                   (bcast (blkW src) q) |}).
  { rewrite <- expand_same. f_equal; cbn; unfold span; lia. }
  assert (Hel : forall n c h q,
             in_window x w n c h q = true ->
             at3 src (bcast (blkC src) c) (bcast (blkH src) (h - wh0 w))
                 (bcast (blkW src) (q - ww0 w))
             = at4 gathered k c (h - wh0 w) (q - ww0 w)).
  { intros n c h q Hw. unfold in_window in Hw.
    rewrite !andb_true_iff, !within_true in Hw. cbn in Hw. cbn.
    rewrite !bcast_inside by lia. reflexivity. }
  unfold scatter_body, covers. rewrite Ew, Es.
  unfold add_window, assign_window, write_op in *.
  destruct do_add; cbn [bind]; rewrite Ee; cbn [bind].
  - rewrite Hf. eexists. split; [reflexivity|]. split; [reflexivity|].
    intros n c h q. cbn [at4 update_window at3 slot_value].
    destruct (in_window x w n c h q) eqn:Hw; [|reflexivity].
    now rewrite (Hel n c h q Hw).
  - injection Hf as <-.
    eexists. split; [reflexivity|]. split; [reflexivity|].
    intros n c h q. cbn [at4 update_window at3 slot_value].
    destruct (in_window x w n c h q) eqn:Hw; [|reflexivity].
    now rewrite (Hel n c h q Hw).
Qed.

End ScatterFacts.

Lemma in_bounds_shape {T U : Type} (x : tensor T) (y : tensor U)
      (bsize boffset bstride : Z * Z) (idx : Z * Z * Z) :
  shape x = shape y ->
  in_bounds x bsize boffset bstride idx -> in_bounds y bsize boffset bstride idx.
Proof.
  intros H. apply shape_eq in H. destruct H as (HN & HC & HH & HW).
  destruct idx as [[B h0] w0]. unfold in_bounds. now rewrite HN, HH, HW.
Qed.

Lemma fold_left_fixed {A B : Type} (p : B -> bool) (l : list B) (a : A) :
  forall acc,
    fold_left (fun acc b => if p b then a else acc) l acc
    = if existsb p l then a else acc.
Proof.
  induction l as [|b l IH]; intros acc; cbn; [reflexivity|].
  rewrite IH. destruct (p b); cbn; [|reflexivity].
  now destruct (existsb p l).
Qed.

Lemma fold_left_iter {A B : Type} (p : B -> bool) (f : A -> A) (l : list B) :
  forall a,
    fold_left (fun acc b => if p b then f acc else acc) l a
    = Nat.iter (List.length (filter p l)) f a.
Proof.
  induction l as [|b l IH]; intros a; cbn [fold_left filter]; [reflexivity|].
  rewrite IH. destruct (p b); [|reflexivity].
  cbn [List.length]. now rewrite Nat.iter_succ_r.
Qed.

Section ScatterValues.

Variables V G : Type.
Variable of_batch : G -> V.
Variable iadd : option (V -> G -> V).
Variable f : V -> G -> V.
Variables (xsize : Z * Z * Z * Z) (bsize boffset bstride : Z * Z).
Variables (gathered : tensor G) (do_add : bool).
Variable x0 : tensor V.

Lemma scattered_shape (y : tensor V) (l : list (Z * Z * Z)) :
  shape x0 = shape y ->
  forall k n c h q acc,
    scattered f x0 gathered xsize bsize boffset bstride k l n c h q acc
    = scattered f y gathered xsize bsize boffset bstride k l n c h q acc.
Proof.
  intros Hs. induction l as [|idx l IH]; intros k n c h q acc; cbn [scattered].
  - reflexivity.
  - rewrite (covers_shape xsize bsize boffset bstride x0 y idx n c h q Hs).
    apply IH.
Qed.

Lemma scattered_uncovered (l : list (Z * Z * Z)) (n c h q : Z) :
  (forall idx, In idx l ->
     covers x0 xsize bsize boffset bstride idx n c h q = false) ->
  forall k acc,
    scattered f x0 gathered xsize bsize boffset bstride k l n c h q acc = acc.
Proof.
  induction l as [|idx l IH]; intros Hout k acc; cbn [scattered].
  - reflexivity.
  - rewrite (Hout idx (or_introl eq_refl)). apply IH.
    intros; apply Hout; now right.
Qed.

Hypothesis Hf : write_op of_batch iadd do_add = Some f.
Hypothesis Hxsize : xsize = shape x0.
Hypothesis Hb0 : 0 <= fst bsize.
Hypothesis Hb1 : 0 <= snd bsize.
Hypothesis HgC : dimC gathered = dimC x0.
Hypothesis HgH : dimH gathered = fst bsize.
Hypothesis HgW : dimW gathered = snd bsize.

(** The loop on blocks inside the tensor, with any block-shaped batch. *)
Lemma scatter_loop_value (l : list (Z * Z * Z)) :
  forall (k : Z) (x : tensor V),
    shape x = shape x0 ->
    Forall (in_bounds x0 bsize boffset bstride) l ->
    0 <= k -> k + Z.of_nat (List.length l) <= dimN gathered ->
    exists x',
      scatter_loop of_batch iadd xsize bsize boffset bstride gathered do_add l k x
      = (x', Ok tt)
      /\ shape x' = shape x0
      /\ forall n c h q,
          at4 x' n c h q
          = scattered f x0 gathered xsize bsize boffset bstride
              k l n c h q (at4 x n c h q).
Proof using Hf Hxsize Hb0 Hb1 HgC HgH HgW.
  induction l as [|[[B h0] w0] l IH]; intros k x Hs Hall Hk Hlen;
    cbn [scatter_loop scattered].
  - exists x. auto.
  - apply Forall_cons_iff in Hall. destruct Hall as [Hin Hall].
    cbn [List.length] in Hlen. rewrite Nat2Z.inj_succ in Hlen.
    pose proof (proj1 (shape_eq x x0) Hs) as (SN & SC & SH & SW).
    destruct (scatter_body_in_bounds V G of_batch iadd xsize bsize boffset bstride
                gathered do_add Hb0 Hb1 f B h0 w0 k x Hf)
      as (x1 & E & S1 & Hx1);
      try congruence; try lia.
    { apply (in_bounds_shape x0 x); auto. }
    rewrite E.
    destruct (IH (k + 1) x1) as (x' & E' & S' & Hx'); auto; try lia;
      [congruence|].
    exists x'. split; [exact E'|]. split; [exact S'|].
    intros n c h q. rewrite Hx'. f_equal. rewrite Hx1.
    now rewrite (covers_shape xsize bsize boffset bstride x x0 (B, h0, w0)
                   n c h q Hs).
Qed.

End ScatterValues.

Section ScatteredFacts.

Variables V G : Type.
Variables (xsize : Z * Z * Z * Z) (bsize boffset bstride : Z * Z).
Variables (x : tensor V) (gathered : tensor G).
Variables (n c h q : Z).

(** When a write replaces the element, the last entry whose window covers
    the element decides. *)
Lemma scattered_last_wins (of_batch : G -> V) (l : list (Z * Z * Z)) :
  forall (k : Z) (i : nat) (idx : Z * Z * Z) (acc : V),
    nth_error l i = Some idx ->
    covers x xsize bsize boffset bstride idx n c h q = true ->
    (forall j idx', (i < j)%nat -> nth_error l j = Some idx' ->
       covers x xsize bsize boffset bstride idx' n c h q = false) ->
    scattered (fun _ new => of_batch new) x gathered xsize bsize boffset bstride
      k l n c h q acc
    = of_batch (slot_value gathered boffset bstride (k + Z.of_nat i) idx c h q).
Proof.
  induction l as [|e l IH]; intros k i idx acc Hn Hc Hlater.
  - destruct i; discriminate.
  - cbn [scattered]. destruct i as [|i].
    + cbn in Hn. injection Hn as <-. rewrite Hc, Z.add_0_r.
      apply scattered_uncovered. intros idx' Hin.
      apply In_nth_error in Hin. destruct Hin as [j Hj].
      apply (Hlater (S j) idx'); [lia | exact Hj].
    + cbn [nth_error] in Hn. rewrite Nat2Z.inj_succ.
      replace (k + Z.succ (Z.of_nat i)) with (k + 1 + Z.of_nat i) by lia.
      apply IH; auto.
      intros j idx' Hj Hnj. apply (Hlater (S j) idx'); [lia | exact Hnj].
Qed.

(** An element covered by one entry only receives that entry's slot
    element. *)
Lemma scattered_single (f : V -> G -> V) (l : list (Z * Z * Z)) :
  forall (k : Z) (i : nat) (idx : Z * Z * Z) (acc : V),
    nth_error l i = Some idx ->
    covers x xsize bsize boffset bstride idx n c h q = true ->
    (forall j idx', j <> i -> nth_error l j = Some idx' ->
       covers x xsize bsize boffset bstride idx' n c h q = false) ->
    scattered f x gathered xsize bsize boffset bstride k l n c h q acc
    = f acc (slot_value gathered boffset bstride (k + Z.of_nat i) idx c h q).
Proof.
  induction l as [|e l IH]; intros k i idx acc Hn Hc Hother.
  - destruct i; discriminate.
  - cbn [scattered]. destruct i as [|i].
    + cbn in Hn. injection Hn as <-. rewrite Hc, Z.add_0_r.
      apply scattered_uncovered. intros idx' Hin.
      apply In_nth_error in Hin. destruct Hin as [j Hj].
      apply (Hother (S j) idx'); [lia | exact Hj].
    + cbn [nth_error] in Hn.
      rewrite (Hother 0%nat e) by (cbn; auto; lia).
      rewrite Nat2Z.inj_succ.
      replace (k + Z.succ (Z.of_nat i)) with (k + 1 + Z.of_nat i) by lia.
      apply IH; auto.
      intros j idx' Hj Hnj. apply (Hother (S j) idx'); [lia | exact Hnj].
Qed.

(** Overwriting twice is overwriting once. *)
Lemma scattered_overwrite_twice (of_batch : G -> V) (l : list (Z * Z * Z)) :
  forall (k : Z) (acc : V),
    scattered (fun _ new => of_batch new) x gathered xsize bsize boffset bstride
      k l n c h q
      (scattered (fun _ new => of_batch new) x gathered xsize bsize boffset
         bstride k l n c h q acc)
    = scattered (fun _ new => of_batch new) x gathered xsize bsize boffset
        bstride k l n c h q acc.
Proof.
  induction l as [|e l IH]; intros k acc; cbn [scattered]; [reflexivity|].
  destruct (covers x xsize bsize boffset bstride e n c h q).
  - reflexivity.
  - apply IH.
Qed.

End ScatteredFacts.

Lemma sparse_scatter_value {V G : Type} (of_batch : G -> V)
      (iadd : option (V -> G -> V)) (f : V -> G -> V)
      (x : tensor V) (xsize : Z * Z * Z * Z) (gathered : tensor G)
      (gsize : Z * Z * Z * Z) (l : list (Z * Z * Z))
      (bsize bcount boffset bstride : Z * Z) (do_add : bool) :
  write_op of_batch iadd do_add = Some f ->
  scatter_ready x xsize gathered l bsize boffset bstride ->
  exists x',
    sparse_scatter of_batch iadd x xsize gathered gsize l
      bsize bcount boffset bstride do_add = (x', Ok tt)
    /\ shape x' = shape x
    /\ forall n c h q,
        at4 x' n c h q
        = scattered f x gathered xsize bsize boffset bstride
            0 l n c h q (at4 x n c h q).
Proof.
  intros Hf (Hx & Hsq & Hb & HC & HH & HW & Hlen & Hall).
  unfold sparse_scatter, py_assert. rewrite (proj2 (Z.eqb_eq _ _) Hsq).
  apply (scatter_loop_value V G of_batch iadd f xsize bsize boffset bstride
           gathered do_add x Hf Hx Hb ltac:(lia) HC HH HW l 0 x eq_refl Hall);
    lia.
Qed.

Lemma scatter_ready_shape {V G : Type} (x y : tensor V) (xsize : Z * Z * Z * Z)
      (gathered : tensor G) (l : list (Z * Z * Z))
      (bsize boffset bstride : Z * Z) :
  shape x = shape y ->
  scatter_ready x xsize gathered l bsize boffset bstride ->
  scatter_ready y xsize gathered l bsize boffset bstride.
Proof.
  intros Hs (Hx & Hsq & Hb & HC & HH & HW & Hlen & Hall).
  pose proof (proj1 (shape_eq x y) Hs) as (SN & SC & SH & SW).
  unfold scatter_ready. repeat split; try congruence; try assumption.
  eapply Forall_impl; [|exact Hall].
  intros idx. now apply in_bounds_shape.
Qed.

(** In add mode, when torch refuses the in-place addition for the element
    types, the first iteration on a block inside the tensor raises and
    nothing is written. *)
Lemma sparse_scatter_refused {V G : Type} (of_batch : G -> V)
      (x : tensor V) (xsize : Z * Z * Z * Z) (gathered : tensor G)
      (gsize : Z * Z * Z * Z) (idx : Z * Z * Z) (l : list (Z * Z * Z))
      (bsize bcount boffset bstride : Z * Z) :
  scatter_ready x xsize gathered (idx :: l) bsize boffset bstride ->
  sparse_scatter of_batch None x xsize gathered gsize (idx :: l)
    bsize bcount boffset bstride true = (x, Raise RuntimeError).
Proof.
  intros (Hx & Hsq & Hb & HC & HH & HW & Hlen & Hall).
  apply Forall_cons_iff in Hall. destruct Hall as [Hin _].
  destruct idx as [[B h0] w0].
  cbn [List.length] in Hlen. rewrite Nat2Z.inj_succ in Hlen.
  unfold sparse_scatter, py_assert. rewrite (proj2 (Z.eqb_eq _ _) Hsq).
  cbn [scatter_loop]. unfold scatter_body.
  rewrite (block_window_in_bounds xsize bsize boffset bstride x B h0 w0
             Hx Hb ltac:(lia) Hin).
  cbn [bind]. unfold slot. rewrite py_index_inside by lia. cbn [bind].
  unfold add_window.
  destruct (expand _ _ _ _) as [s|e] eqn:Ee; cbn [bind]; [reflexivity|].
  unfold expand in Ee. destruct (_ && _); [discriminate|].
  now injection Ee as <-.
Qed.

(** ** Index list and batch of different lengths *)

(** C4, as stated, fails: with one index entry and a batch of two blocks
    [sparse_scatter] returns normally; with three entries and a batch of two
    it raises only at the third entry, after the tensor has been written. *)
Lemma sparse_scatter_length_mismatch_unchecked :
  (Z.of_nat (List.length [(0, 0, 0)]) <> dimN (fill 2 1 2 2 5)
   /\ snd (sparse_scatter (fun g => g) (Some Z.add) (ramp 1 1 4 4) (1, 1, 4, 4)
             (fill 2 1 2 2 5) (2, 1, 2, 2) [(0, 0, 0)]
             (2, 2) (2, 2) (0, 0) (2, 2) true) = Ok tt)
  /\ (Z.of_nat (List.length [(0, 0, 0); (0, 0, 1); (0, 1, 0)])
      <> dimN (fill 2 1 2 2 5)
      /\ snd (sparse_scatter (fun g => g) (Some Z.add) (ramp 1 1 4 4)
                (1, 1, 4, 4) (fill 2 1 2 2 5) (2, 1, 2, 2)
                [(0, 0, 0); (0, 0, 1); (0, 1, 0)]
                (2, 2) (2, 2) (0, 0) (2, 2) true) = Raise IndexError
      /\ at4 (fst (sparse_scatter (fun g => g) (Some Z.add) (ramp 1 1 4 4)
                     (1, 1, 4, 4) (fill 2 1 2 2 5) (2, 1, 2, 2)
                     [(0, 0, 0); (0, 0, 1); (0, 1, 0)]
                     (2, 2) (2, 2) (0, 0) (2, 2) true)) 0 0 0 0
         <> at4 (ramp 1 1 4 4) 0 0 0 0).
Proof.
  split; [split; [cbn; lia | reflexivity]|].
  split; [cbn; lia|]. split; [reflexivity|]. vm_compute. discriminate.
Qed.

(** C4, amended: neither function compares the two lengths.
    [sparse_gather] allocates its batch with the length of the index list, so
    the two agree in whatever it returns.  [sparse_scatter] given more index
    entries than the batch has blocks raises [IndexError] on reaching the
    first entry past the batch, and the tensor then holds the writes of all
    the entries before it.  [sparse_scatter] given no more index entries than
    the batch has blocks (of the block shape, entries inside the tensor)
    returns normally, in overwrite mode and, for element types whose in-place
    addition torch performs, in add mode; for element types whose in-place
    addition torch refuses, add mode raises [RuntimeError] at the first entry
    and writes nothing. *)
Theorem sparse_scatter_length_mismatch {V F G : Type} (to_float32 : V -> F)
        (of_batch : G -> V) (iadd : option (V -> G -> V))
        (uninit : Z -> Z -> Z -> Z -> F) (x : tensor V)
        (xsize gsize : Z * Z * Z * Z) (gathered : tensor G)
        (bsize bcount boffset bstride : Z * Z) (do_add : bool) :
  (forall l g,
     sparse_gather to_float32 uninit x xsize l bsize bcount boffset bstride
     = Ok g ->
     dimN g = Z.of_nat (List.length l))
  /\ (forall l1 idx l2 x1,
        dimN gathered = Z.of_nat (List.length l1) ->
        sparse_scatter of_batch iadd x xsize gathered gsize l1
          bsize bcount boffset bstride do_add = (x1, Ok tt) ->
        sparse_scatter of_batch iadd x xsize gathered gsize (l1 ++ idx :: l2)
          bsize bcount boffset bstride do_add = (x1, Raise IndexError))
  /\ (forall l,
        (do_add = true -> iadd <> None) ->
        Z.of_nat (List.length l) <= dimN gathered ->
        xsize = shape x -> fst bsize = snd bsize -> 0 <= fst bsize ->
        dimC gathered = dimC x -> dimH gathered = fst bsize ->
        dimW gathered = snd bsize ->
        Forall (in_bounds x bsize boffset bstride) l ->
        snd (sparse_scatter of_batch iadd x xsize gathered gsize l
               bsize bcount boffset bstride do_add) = Ok tt)
  /\ (forall idx l,
        do_add = true -> iadd = None ->
        scatter_ready x xsize gathered (idx :: l) bsize boffset bstride ->
        sparse_scatter of_batch iadd x xsize gathered gsize (idx :: l)
          bsize bcount boffset bstride do_add = (x, Raise RuntimeError)).
Proof.
  split; [|split; [|split]].
  - intros l g E. apply sparse_gather_shape in E. unfold shape in E.
    now injection E.
  - intros l1 idx l2 x1 Hlen. unfold sparse_scatter.
    destruct (py_assert _ _) as [[]|e]; [|discriminate].
    intros E. rewrite scatter_loop_app, E. cbn [scatter_loop].
    rewrite scatter_body_past_end by lia. reflexivity.
  - intros l Hadd Hlen Hx Hsq Hb HC HH HW Hall.
    assert (Hf : exists f, write_op of_batch iadd do_add = Some f).
    { unfold write_op. destruct do_add; [|eauto].
      destruct iadd as [f|]; [eauto|]. now destruct Hadd. }
    destruct Hf as [f Hf].
    destruct (sparse_scatter_value of_batch iadd f x xsize gathered gsize l
                bsize bcount boffset bstride do_add Hf) as (x' & E & _).
    { unfold scatter_ready. repeat split; assumption. }
    now rewrite E.
  - intros idx l -> -> Hready. now apply sparse_scatter_refused.
Qed.

Lemma sparse_scatter_length_mismatch_witness :
  (forall g,
     sparse_gather int64_to_float32 (fun _ _ _ _ => 0%Q) (ramp 1 1 4 4)
       (1, 1, 4, 4) [(0, 0, 0); (0, 1, 1)] (2, 2) (2, 2) (0, 0) (2, 2) = Ok g ->
     dimN g = 2)
  /\ snd (sparse_scatter (fun g => g) (Some Z.add) (ramp 1 1 4 4) (1, 1, 4, 4)
            (fill 2 1 2 2 5) (2, 1, 2, 2)
            ([(0, 0, 0); (0, 0, 1)] ++ (0, 1, 0) :: [])
            (2, 2) (2, 2) (0, 0) (2, 2) true) = Raise IndexError
  /\ snd (sparse_scatter (fun g => g) (Some Z.add) (ramp 1 1 4 4) (1, 1, 4, 4)
            (fill 2 1 2 2 5) (2, 1, 2, 2) [(0, 0, 0)]
            (2, 2) (2, 2) (0, 0) (2, 2) true) = Ok tt.
Proof.
  destruct (sparse_scatter_length_mismatch int64_to_float32 (fun g => g)
              (Some Z.add) (fun _ _ _ _ => 0%Q)
              (ramp 1 1 4 4) (1, 1, 4, 4) (2, 1, 2, 2) (fill 2 1 2 2 5)
              (2, 2) (2, 2) (0, 0) (2, 2) true)
    as (Hgather & Hlong & Hshort & _).
  split; [|split].
  - intros g E. exact (Hgather [(0, 0, 0); (0, 1, 1)] g E).
  - rewrite (Hlong [(0, 0, 0); (0, 0, 1)] (0, 1, 0) []
               (fst (sparse_scatter (fun g => g) (Some Z.add) (ramp 1 1 4 4)
                       (1, 1, 4, 4) (fill 2 1 2 2 5) (2, 1, 2, 2)
                       [(0, 0, 0); (0, 0, 1)]
                       (2, 2) (2, 2) (0, 0) (2, 2) true))).
    + reflexivity.
    + reflexivity.
    + reflexivity.
  - apply Hshort.
    + intros _. discriminate.
    + cbn. lia.
    + reflexivity.
    + reflexivity.
    + cbn. lia.
    + reflexivity.
    + reflexivity.
    + reflexivity.
    + repeat constructor; cbn; lia.
Defined.

(** Adding a batch of fives into the first block of a 4x4 plane. *)
Example sparse_scatter_add_one_block :
  let r := sparse_scatter (fun g => g) (Some Z.add) (ramp 1 1 4 4) (1, 1, 4, 4)
             (fill 1 1 2 2 5) (1, 1, 2, 2) [(0, 0, 0)]
             (2, 2) (2, 2) (0, 0) (2, 2) true in
  (map (fun h => map (fun q => at4 (fst r) 0 0 h q) [0; 1; 2; 3]) [0; 1; 2; 3],
   snd r)
  = ([[6; 7; 3; 4]; [16; 17; 13; 14]; [21; 22; 23; 24]; [31; 32; 33; 34]], Ok tt).
Proof. reflexivity. Qed.

(** Writing a float32 batch into an int64 tensor truncates. *)
Example sparse_scatter_truncates_to_int64 :
  let r := sparse_scatter float32_to_int64 None (ramp 1 1 2 2) (1, 1, 2, 2)
             (fill 1 1 2 2 (7 # 2)) (1, 1, 2, 2) [(0, 0, 0)]
             (2, 2) (1, 1) (0, 0) (2, 2) false in
  (map (fun h => map (fun q => at4 (fst r) 0 0 h q) [0; 1]) [0; 1], snd r)
  = ([[3; 3]; [3; 3]], Ok tt).
Proof. reflexivity. Qed.

(** ** Further properties of [sparse_scatter] *)

(** X11: in overwrite mode, on blocks inside the tensor, an element covered by
    several windows ends up with the slot element of the last index entry that
    covers it, converted to the element type of [x]: later entries overwrite
    earlier ones. *)
Theorem sparse_scatter_overwrite_last_wins {V G : Type} (of_batch : G -> V)
        (iadd : option (V -> G -> V))
        (x : tensor V) (xsize : Z * Z * Z * Z) (gathered : tensor G)
        (gsize : Z * Z * Z * Z) (activeBlockIndices : list (Z * Z * Z))
        (bsize bcount boffset bstride : Z * Z) :
  scatter_ready x xsize gathered activeBlockIndices bsize boffset bstride ->
  exists x',
    sparse_scatter of_batch iadd x xsize gathered gsize activeBlockIndices
      bsize bcount boffset bstride false = (x', Ok tt)
    /\ forall i idx n c h q,
        nth_error activeBlockIndices i = Some idx ->
        covers x xsize bsize boffset bstride idx n c h q = true ->
        (forall j idx', (i < j)%nat ->
           nth_error activeBlockIndices j = Some idx' ->
           covers x xsize bsize boffset bstride idx' n c h q = false) ->
        at4 x' n c h q
        = of_batch (slot_value gathered boffset bstride (Z.of_nat i) idx c h q).
Proof.
  intros Hready.
  destruct (sparse_scatter_value of_batch iadd (fun _ new => of_batch new)
              x xsize gathered gsize activeBlockIndices
              bsize bcount boffset bstride false eq_refl Hready)
    as (x' & E & _ & Hel).
  exists x'. split; [exact E|].
  intros i idx n c h q Hn Hc Hlater. rewrite Hel.
  now apply (scattered_last_wins V G xsize bsize boffset bstride x gathered
               n c h q of_batch activeBlockIndices 0 i idx).
Qed.

Lemma sparse_scatter_overwrite_last_wins_witness :
  exists x',
    sparse_scatter (fun g => g) (Some Z.add) (ramp 1 1 4 4) (1, 1, 4, 4)
      (ramp 2 1 2 2) (2, 1, 2, 2)
      [(0, 0, 0); (0, 1, 0)] (2, 2) (3, 3) (0, 0) (1, 1) false = (x', Ok tt)
    /\ forall i idx n c h q,
        nth_error [(0, 0, 0); (0, 1, 0)] i = Some idx ->
        covers (ramp 1 1 4 4) (1, 1, 4, 4) (2, 2) (0, 0) (1, 1) idx n c h q = true ->
        (forall j idx', (i < j)%nat ->
           nth_error [(0, 0, 0); (0, 1, 0)] j = Some idx' ->
           covers (ramp 1 1 4 4) (1, 1, 4, 4) (2, 2) (0, 0) (1, 1) idx' n c h q
           = false) ->
        at4 x' n c h q = slot_value (ramp 2 1 2 2) (0, 0) (1, 1) (Z.of_nat i) idx c h q.
Proof.
  apply (sparse_scatter_overwrite_last_wins (fun g => g) (Some Z.add)
           (ramp 1 1 4 4) (1, 1, 4, 4)
           (ramp 2 1 2 2) (2, 1, 2, 2) [(0, 0, 0); (0, 1, 0)]
           (2, 2) (3, 3) (0, 0) (1, 1)).
  unfold scatter_ready. cbn.
  repeat split; try lia. repeat constructor; cbn; lia.
Defined.

(** X12: in add mode, on blocks inside the tensor, an element covered by the
    window of exactly one index entry becomes its old value plus the slot
    element of that entry, where the sum is the in-place addition that torch
    performs for the two element types. *)
Theorem sparse_scatter_add_single_cover {V G : Type} (of_batch : G -> V)
        (add : V -> G -> V)
        (x : tensor V) (xsize : Z * Z * Z * Z) (gathered : tensor G)
        (gsize : Z * Z * Z * Z) (activeBlockIndices : list (Z * Z * Z))
        (bsize bcount boffset bstride : Z * Z) :
  scatter_ready x xsize gathered activeBlockIndices bsize boffset bstride ->
  exists x',
    sparse_scatter of_batch (Some add) x xsize gathered gsize activeBlockIndices
      bsize bcount boffset bstride true = (x', Ok tt)
    /\ forall i idx n c h q,
        nth_error activeBlockIndices i = Some idx ->
        covers x xsize bsize boffset bstride idx n c h q = true ->
        (forall j idx', j <> i ->
           nth_error activeBlockIndices j = Some idx' ->
           covers x xsize bsize boffset bstride idx' n c h q = false) ->
        at4 x' n c h q
        = add (at4 x n c h q)
              (slot_value gathered boffset bstride (Z.of_nat i) idx c h q).
Proof.
  intros Hready.
  destruct (sparse_scatter_value of_batch (Some add) add
              x xsize gathered gsize activeBlockIndices
              bsize bcount boffset bstride true eq_refl Hready)
    as (x' & E & _ & Hel).
  exists x'. split; [exact E|].
  intros i idx n c h q Hn Hc Hother. rewrite Hel.
  now apply (scattered_single V G xsize bsize boffset bstride x gathered
               n c h q add activeBlockIndices 0 i idx).
Qed.

Lemma sparse_scatter_add_single_cover_witness :
  exists x',
    sparse_scatter (fun g => g) (Some Z.add) (ramp 1 1 4 4) (1, 1, 4, 4)
      (ramp 2 1 2 2) (2, 1, 2, 2)
      [(0, 0, 0); (0, 1, 1)] (2, 2) (2, 2) (0, 0) (2, 2) true = (x', Ok tt)
    /\ forall i idx n c h q,
        nth_error [(0, 0, 0); (0, 1, 1)] i = Some idx ->
        covers (ramp 1 1 4 4) (1, 1, 4, 4) (2, 2) (0, 0) (2, 2) idx n c h q = true ->
        (forall j idx', j <> i ->
           nth_error [(0, 0, 0); (0, 1, 1)] j = Some idx' ->
           covers (ramp 1 1 4 4) (1, 1, 4, 4) (2, 2) (0, 0) (2, 2) idx' n c h q
           = false) ->
        at4 x' n c h q
        = at4 (ramp 1 1 4 4) n c h q
          + slot_value (ramp 2 1 2 2) (0, 0) (2, 2) (Z.of_nat i) idx c h q.
Proof.
  apply (sparse_scatter_add_single_cover (fun g => g) Z.add
           (ramp 1 1 4 4) (1, 1, 4, 4)
           (ramp 2 1 2 2) (2, 1, 2, 2) [(0, 0, 0); (0, 1, 1)]
           (2, 2) (2, 2) (0, 0) (2, 2)).
  unfold scatter_ready. cbn.
  repeat split; try lia. repeat constructor; cbn; lia.
Defined.

(** X13: overwrite scatter is idempotent: on blocks inside the tensor,
    scattering the same batch with the same index list a second time changes
    nothing, overlapping windows included. *)
Theorem sparse_scatter_overwrite_idempotent {V G : Type} (of_batch : G -> V)
        (iadd : option (V -> G -> V))
        (x : tensor V) (xsize : Z * Z * Z * Z) (gathered : tensor G)
        (gsize : Z * Z * Z * Z) (activeBlockIndices : list (Z * Z * Z))
        (bsize bcount boffset bstride : Z * Z) :
  scatter_ready x xsize gathered activeBlockIndices bsize boffset bstride ->
  exists x' x'',
    sparse_scatter of_batch iadd x xsize gathered gsize activeBlockIndices
      bsize bcount boffset bstride false = (x', Ok tt)
    /\ sparse_scatter of_batch iadd x' xsize gathered gsize activeBlockIndices
         bsize bcount boffset bstride false = (x'', Ok tt)
    /\ shape x'' = shape x'
    /\ forall n c h q, at4 x'' n c h q = at4 x' n c h q.
Proof.
  intros Hready.
  destruct (sparse_scatter_value of_batch iadd (fun _ new => of_batch new)
              x xsize gathered gsize activeBlockIndices
              bsize bcount boffset bstride false eq_refl Hready)
    as (x' & E & S & Hel).
  assert (Hready' : scatter_ready x' xsize gathered activeBlockIndices
                      bsize boffset bstride)
    by (apply (scatter_ready_shape x x'); auto).
  destruct (sparse_scatter_value of_batch iadd (fun _ new => of_batch new)
              x' xsize gathered gsize activeBlockIndices
              bsize bcount boffset bstride false eq_refl Hready')
    as (x'' & E' & S' & Hel').
  exists x', x''. split; [exact E|]. split; [exact E'|]. split; [exact S'|].
  intros n c h q. rewrite Hel'.
  rewrite (scattered_shape V G (fun _ new => of_batch new) xsize bsize boffset
             bstride gathered x' x activeBlockIndices S).
  rewrite Hel. apply scattered_overwrite_twice.
Qed.

Lemma sparse_scatter_overwrite_idempotent_witness :
  exists x' x'',
    sparse_scatter (fun g => g) (Some Z.add) (ramp 1 1 4 4) (1, 1, 4, 4)
      (ramp 2 1 2 2) (2, 1, 2, 2)
      [(0, 0, 0); (0, 1, 0)] (2, 2) (3, 3) (0, 0) (1, 1) false = (x', Ok tt)
    /\ sparse_scatter (fun g => g) (Some Z.add) x' (1, 1, 4, 4)
         (ramp 2 1 2 2) (2, 1, 2, 2)
         [(0, 0, 0); (0, 1, 0)] (2, 2) (3, 3) (0, 0) (1, 1) false = (x'', Ok tt)
    /\ shape x'' = shape x'
    /\ forall n c h q, at4 x'' n c h q = at4 x' n c h q.
Proof.
  apply (sparse_scatter_overwrite_idempotent (fun g => g) (Some Z.add)
           (ramp 1 1 4 4) (1, 1, 4, 4)
           (ramp 2 1 2 2) (2, 1, 2, 2) [(0, 0, 0); (0, 1, 0)]
           (2, 2) (3, 3) (0, 0) (1, 1)).
  unfold scatter_ready. cbn.
  repeat split; try lia. repeat constructor; cbn; lia.
Defined.

(** ** Windows that do not overlap *)

Lemma same_cell_on_axis (size stride offset a b i : Z) :
  0 < size <= stride ->
  offset + a * stride <= i < offset + a * stride + size ->
  offset + b * stride <= i < offset + b * stride + size ->
  a = b.
Proof.
  intros Hs Ha Hb.
  destruct (Z.lt_trichotomy a b) as [Hlt|[Heq|Hgt]]; [|exact Heq|].
  - assert ((a + 1) * stride <= b * stride)
      by (apply Z.mul_le_mono_nonneg_r; lia).
    lia.
  - assert ((b + 1) * stride <= a * stride)
      by (apply Z.mul_le_mono_nonneg_r; lia).
    lia.
Qed.

Lemma scatter_windows_disjoint_axes {V : Type} (x : tensor V)
      (xsize : Z * Z * Z * Z) (bsize boffset bstride : Z * Z)
      (idx1 idx2 : Z * Z * Z) (n c h q : Z) :
  xsize = shape x ->
  0 < fst bsize <= fst bstride -> 0 < snd bsize <= snd bstride ->
  in_bounds x bsize boffset bstride idx1 ->
  in_bounds x bsize boffset bstride idx2 ->
  covers x xsize bsize boffset bstride idx1 n c h q = true ->
  covers x xsize bsize boffset bstride idx2 n c h q = true ->
  idx1 = idx2.
Proof.
  intros Hx Hh Hw Hin1 Hin2 Hc1 Hc2.
  destruct idx1 as [[B1 h1] w1], idx2 as [[B2 h2] w2].
  apply (covers_in_bounds xsize bsize boffset bstride x B1 h1 w1 n c h q Hx
           ltac:(lia) ltac:(lia) Hin1) in Hc1.
  apply (covers_in_bounds xsize bsize boffset bstride x B2 h2 w2 n c h q Hx
           ltac:(lia) ltac:(lia) Hin2) in Hc2.
  destruct Hc1 as (-> & _ & Hr1 & Hq1), Hc2 as (-> & _ & Hr2 & Hq2).
  rewrite (same_cell_on_axis _ _ _ h1 h2 h Hh Hr1 Hr2).
  rewrite (same_cell_on_axis _ _ _ w1 w2 q Hw Hq1 Hq2).
  reflexivity.
Qed.

(** X14: when the stride is at least the block size on both axes, the
    windows of two different index entries (blocks inside the tensor) have no
    element in common: an element that the window of one entry covers is
    covered by the window of no other entry. *)
Theorem scatter_windows_disjoint {V : Type} (x : tensor V)
        (xsize : Z * Z * Z * Z) (bsize boffset bstride : Z * Z)
        (idx1 idx2 : Z * Z * Z) (n c h q : Z) :
  xsize = shape x ->
  0 < fst bsize <= fst bstride -> 0 < snd bsize <= snd bstride ->
  in_bounds x bsize boffset bstride idx1 ->
  in_bounds x bsize boffset bstride idx2 ->
  idx1 <> idx2 ->
  covers x xsize bsize boffset bstride idx1 n c h q = true ->
  covers x xsize bsize boffset bstride idx2 n c h q = false.
Proof.
  intros Hx Hh Hw Hin1 Hin2 Hne Hc1.
  apply not_true_is_false. intros Hc2. apply Hne.
  now apply (scatter_windows_disjoint_axes x xsize bsize boffset bstride
               idx1 idx2 n c h q).
Qed.

Lemma scatter_windows_disjoint_witness :
  covers (ramp 1 1 4 4) (1, 1, 4, 4) (2, 2) (0, 0) (2, 2) (0, 0, 0) 0 0 1 1 = true
  /\ covers (ramp 1 1 4 4) (1, 1, 4, 4) (2, 2) (0, 0) (2, 2) (0, 1, 1) 0 0 1 1
     = false.
Proof.
  split; [reflexivity|].
  apply (scatter_windows_disjoint (ramp 1 1 4 4) (1, 1, 4, 4) (2, 2) (0, 0) (2, 2)
           (0, 0, 0) (0, 1, 1) 0 0 1 1).
  - reflexivity.
  - cbn. lia.
  - cbn. lia.
  - cbn. lia.
  - cbn. lia.
  - discriminate.
  - reflexivity.
Defined.

(** ** Where [sparse_scatter] raises *)

Section ScatterErrors.

Variables V G : Type.
Variable of_batch : G -> V.
Variable iadd : option (V -> G -> V).
Variables (x : tensor V) (xsize : Z * Z * Z * Z) (gathered : tensor G).
Variables (gsize : Z * Z * Z * Z) (bsize bcount boffset bstride : Z * Z).
Variable do_add : bool.
Variables (l1 l2 : list (Z * Z * Z)) (idx : Z * Z * Z) (x1 : tensor V).

Hypothesis Hprefix :
  sparse_scatter of_batch iadd x xsize gathered gsize l1
    bsize bcount boffset bstride do_add = (x1, Ok tt).

Lemma scatter_prefix_shape : shape x1 = shape x.
Proof using Hprefix.
  pose proof (scatter_loop_frame V G of_batch iadd xsize bsize boffset bstride
                gathered do_add l1 0 x) as [Hs _].
  revert Hprefix Hs. unfold sparse_scatter.
  destruct (py_assert _ _) as [[]|e]; [|discriminate].
  intros ->. now cbn.
Qed.

(** The call stops at the entry after the prefix when its iteration raises,
    with the tensor that the prefix left. *)
Lemma sparse_scatter_stops (e : exn) :
  scatter_body of_batch iadd xsize bsize boffset bstride gathered do_add idx
    (Z.of_nat (List.length l1)) x1 = Raise e ->
  sparse_scatter of_batch iadd x xsize gathered gsize (l1 ++ idx :: l2)
    bsize bcount boffset bstride do_add = (x1, Raise e).
Proof using Hprefix.
  intros Hstep. revert Hprefix. unfold sparse_scatter.
  destruct (py_assert _ _) as [[]|e']; [|discriminate].
  intros E. rewrite scatter_loop_app, E. cbn [scatter_loop Z.add].
  now rewrite Hstep.
Qed.

End ScatterErrors.

(** X15: [sparse_scatter] is not atomic for a bad batch index: when the
    scatter of the entries before it returns normally, an index entry whose
    batch index is outside [-N, N) ends the call with [IndexError], and the
    tensor keeps the writes of the entries before it. *)
Theorem sparse_scatter_batch_index_error {V G : Type} (of_batch : G -> V)
        (iadd : option (V -> G -> V))
        (x : tensor V) (xsize : Z * Z * Z * Z) (gathered : tensor G)
        (gsize : Z * Z * Z * Z) (bsize bcount boffset bstride : Z * Z)
        (do_add : bool) (l1 l2 : list (Z * Z * Z)) (B h0 w0 : Z)
        (x1 : tensor V) :
  sparse_scatter of_batch iadd x xsize gathered gsize l1
    bsize bcount boffset bstride do_add = (x1, Ok tt) ->
  B < - dimN x \/ dimN x <= B ->
  sparse_scatter of_batch iadd x xsize gathered gsize (l1 ++ (B, h0, w0) :: l2)
    bsize bcount boffset bstride do_add = (x1, Raise IndexError).
Proof.
  intros Hprefix HB.
  apply sparse_scatter_stops; [exact Hprefix|].
  pose proof (scatter_prefix_shape V G of_batch iadd x xsize gathered gsize
                bsize bcount boffset bstride do_add l1 x1 Hprefix) as Hs.
  apply shape_eq in Hs. destruct Hs as (SN & _).
  assert (Ew : block_window xsize bsize boffset bstride x1 (B, h0, w0)
               = Raise IndexError).
  { unfold block_window, locate, py_index. rewrite SN.
    destruct ((B <? - dimN x) || (dimN x <=? B)) eqn:E; [reflexivity|].
    apply orb_false_iff in E. destruct E as [E1 E2].
    apply Z.ltb_ge in E1. apply Z.leb_gt in E2. lia. }
  unfold scatter_body. rewrite Ew.
  destruct do_add; cbn [bind]; [reflexivity|].
  destruct (slot gathered _) as [src|e] eqn:Es; cbn [bind]; [reflexivity|].
  unfold slot, py_index in Es.
  destruct (_ || _); cbn in Es; [now injection Es as <- | discriminate].
Qed.

Lemma sparse_scatter_batch_index_error_witness :
  sparse_scatter (fun g => g) (Some Z.add) (ramp 1 1 4 4) (1, 1, 4, 4)
    (fill 2 1 2 2 5) (2, 1, 2, 2)
    ([(0, 0, 0)] ++ (1, 0, 0) :: []) (2, 2) (2, 2) (0, 0) (2, 2) true
  = (fst (sparse_scatter (fun g => g) (Some Z.add) (ramp 1 1 4 4) (1, 1, 4, 4)
            (fill 2 1 2 2 5) (2, 1, 2, 2) [(0, 0, 0)]
            (2, 2) (2, 2) (0, 0) (2, 2) true),
     Raise IndexError).
Proof.
  apply sparse_scatter_batch_index_error.
  - reflexivity.
  - right. cbn. lia.
Defined.

(** X16: [sparse_scatter] raises on a clipped window as [sparse_gather]
    does: when the scatter of the entries before it returns normally, an
    index entry whose corner is inside [x] but whose block runs past the last
    row ends the call with [RuntimeError] for every block height but 1, and
    the tensor keeps the writes of the entries before it. *)
Theorem sparse_scatter_clipped_rows_error {V G : Type} (of_batch : G -> V)
        (iadd : option (V -> G -> V))
        (x : tensor V) (xsize : Z * Z * Z * Z) (gathered : tensor G)
        (gsize : Z * Z * Z * Z) (bsize bcount boffset bstride : Z * Z)
        (do_add : bool) (l1 l2 : list (Z * Z * Z)) (B h0 w0 : Z)
        (x1 : tensor V) :
  sparse_scatter of_batch iadd x xsize gathered gsize l1
    bsize bcount boffset bstride do_add = (x1, Ok tt) ->
  xsize = shape x ->
  Z.of_nat (List.length l1) < dimN gathered ->
  dimH gathered = fst bsize -> fst bsize <> 1 ->
  0 <= B < dimN x ->
  0 <= fst boffset + h0 * fst bstride <= dimH x ->
  dimH x < fst boffset + h0 * fst bstride + fst bsize ->
  sparse_scatter of_batch iadd x xsize gathered gsize (l1 ++ (B, h0, w0) :: l2)
    bsize bcount boffset bstride do_add = (x1, Raise RuntimeError).
Proof.
  intros Hprefix Hx Hlen HgH Hone HB Hcorner Hpast.
  apply sparse_scatter_stops; [exact Hprefix|].
  pose proof (scatter_prefix_shape V G of_batch iadd x xsize gathered gsize
                bsize bcount boffset bstride do_add l1 x1 Hprefix) as Hs.
  apply shape_eq in Hs. destruct Hs as (SN & SC & SH & SW).
  assert (Hx2 : xsize2 xsize = dimH x) by (rewrite Hx; reflexivity).
  set (bh_index := fst boffset + h0 * fst bstride) in *.
  assert (Es : exists src,
             slot gathered (Z.of_nat (List.length l1)) = Ok src
             /\ blkH src = fst bsize).
  { unfold slot. rewrite py_index_inside by lia. cbn [bind].
    eexists. split; [reflexivity | exact HgH]. }
  destruct Es as (src & Es & Hsrc).
  assert (Ew : exists w,
             block_window xsize bsize boffset bstride x1 (B, h0, w0) = Ok w
             /\ span (wh0 w) (wh1 w) = dimH x - bh_index).
  { unfold block_window, locate. fold bh_index.
    rewrite SN, SH, Hx2, (py_index_inside _ _ HB). cbn [bind].
    eexists. split; [reflexivity|]. cbn [wh0 wh1].
    rewrite (Z.min_r (bh_index + fst bsize) (dimH x)) by lia.
    rewrite !slice_bound_inside by lia. unfold span. lia. }
  destruct Ew as (w & Ew & Hspan).
  assert (Ee : forall C W, expand src C (span (wh0 w) (wh1 w)) W
                           = Raise RuntimeError).
  { intros C W. unfold expand.
    assert (E : expandable (blkH src) (span (wh0 w) (wh1 w)) = false).
    { unfold expandable. apply orb_false_iff. split; apply Z.eqb_neq; lia. }
    now rewrite E, andb_false_r. }
  unfold scatter_body, add_window, assign_window. rewrite Ew, Es.
  destruct do_add; cbn [bind]; now rewrite Ee.
Qed.

Lemma sparse_scatter_clipped_rows_error_witness :
  sparse_scatter (fun g => g) (Some Z.add) (ramp 1 1 5 5) (1, 1, 5, 5)
    (fill 2 1 3 3 5) (2, 1, 3, 3)
    ([(0, 0, 0)] ++ (0, 1, 0) :: []) (3, 3) (2, 2) (0, 0) (3, 3) false
  = (fst (sparse_scatter (fun g => g) (Some Z.add) (ramp 1 1 5 5) (1, 1, 5, 5)
            (fill 2 1 3 3 5) (2, 1, 3, 3) [(0, 0, 0)]
            (3, 3) (2, 2) (0, 0) (3, 3) false),
     Raise RuntimeError).
Proof.
  apply sparse_scatter_clipped_rows_error.
  - reflexivity.
  - reflexivity.
  - cbn. lia.
  - reflexivity.
  - cbn. lia.
  - cbn. lia.
  - cbn. lia.
  - cbn. lia.
Defined.

(** X22: in add mode, when torch refuses the in-place addition for the two
    element types (a float32 batch into an integer tensor), [sparse_scatter]
    on blocks inside the tensor raises [RuntimeError] at the first index
    entry and leaves the tensor as it was. *)
Theorem sparse_scatter_add_refused {V G : Type} (of_batch : G -> V)
        (x : tensor V) (xsize : Z * Z * Z * Z) (gathered : tensor G)
        (gsize : Z * Z * Z * Z) (idx : Z * Z * Z) (l : list (Z * Z * Z))
        (bsize bcount boffset bstride : Z * Z) :
  scatter_ready x xsize gathered (idx :: l) bsize boffset bstride ->
  sparse_scatter of_batch None x xsize gathered gsize (idx :: l)
    bsize bcount boffset bstride true = (x, Raise RuntimeError).
Proof. apply sparse_scatter_refused. Qed.

Lemma sparse_scatter_add_refused_witness :
  sparse_scatter float32_to_int64 None (ramp 1 1 4 4) (1, 1, 4, 4)
    (fill 1 1 2 2 5%Q) (1, 1, 2, 2) [(0, 0, 0)] (2, 2) (2, 2) (0, 0) (2, 2) true
  = (ramp 1 1 4 4, Raise RuntimeError).
Proof.
  apply sparse_scatter_add_refused.
  unfold scatter_ready. cbn.
  repeat split; try lia. repeat constructor; cbn; lia.
Defined.

(** ** Round trips *)

(** An element inside the block of an entry that lies inside the tensor is an
    element of the tensor. *)
Lemma block_covers_in_range {T : Type} (x : tensor T)
      (bsize boffset bstride : Z * Z) (idx : Z * Z * Z) (n c h q : Z) :
  in_bounds x bsize boffset bstride idx ->
  block_covers x bsize boffset bstride idx n c h q = true ->
  0 <= n < dimN x /\ 0 <= c < dimC x /\ 0 <= h < dimH x /\ 0 <= q < dimW x.
Proof.
  destruct idx as [[B h0] w0]. unfold in_bounds, block_covers.
  rewrite !andb_true_iff, Z.eqb_eq, !Z.leb_le, !Z.ltb_lt. lia.
Qed.

(** What the scatter loop makes of an element when the slots of the batch
    hold the converted blocks of [x0]: every entry whose block holds the
    element writes the converted element itself. *)
Lemma scattered_gathered {V F : Type} (to_float32 : V -> F) (f : V -> F -> V)
      (x0 : tensor V) (gathered : tensor F) (xsize : Z * Z * Z * Z)
      (bsize boffset bstride : Z * Z) (n c h q : Z) :
  xsize = shape x0 -> 0 <= fst bsize -> 0 <= snd bsize ->
  forall (l : list (Z * Z * Z)) (k : Z) (acc : V),
    Forall (in_bounds x0 bsize boffset bstride) l ->
    slots_hold to_float32 x0 gathered bsize boffset bstride k l ->
    scattered f x0 gathered xsize bsize boffset bstride k l n c h q acc
    = fold_left
        (fun acc idx =>
           if block_covers x0 bsize boffset bstride idx n c h q
           then f acc (to_float32 (at4 x0 n c h q))
           else acc)
        l acc.
Proof.
  intros Hx Hb0 Hb1.
  induction l as [|[[B h0] w0] l IH]; intros k acc Hall Hsl;
    cbn [scattered fold_left]; [reflexivity|].
  apply Forall_cons_iff in Hall. destruct Hall as [Hin Hall].
  cbn [slots_hold] in Hsl. destruct Hsl as [[Hk Hel] Hsl].
  rewrite (IH (k + 1) _ Hall Hsl). f_equal.
  rewrite (covers_block_covers xsize bsize boffset bstride x0 (B, h0, w0)
             n c h q Hx Hb0 Hb1 Hin).
  destruct (block_covers x0 bsize boffset bstride (B, h0, w0) n c h q) eqn:Hc;
    [|reflexivity].
  unfold block_covers in Hc.
  rewrite !andb_true_iff, Z.eqb_eq, !Z.leb_le, !Z.ltb_lt in Hc.
  destruct Hc as ((((((-> & Hc0) & Hc1) & Hh0) & Hh1) & Hq0) & Hq1).
  cbn [slot_value]. rewrite Hel by lia.
  replace (fst boffset + h0 * fst bstride + (h - (fst boffset + h0 * fst bstride)))
    with h by lia.
  replace (snd boffset + w0 * snd bstride + (q - (snd boffset + w0 * snd bstride)))
    with q by lia.
  reflexivity.
Qed.

(** Gathering and scattering back on blocks inside the tensor: both calls
    return, and the scatter loop has run over the converted blocks of [x]. *)
Lemma gather_then_scatter {V F : Type} (to_float32 : V -> F) (of_batch : F -> V)
      (iadd : option (V -> F -> V)) (f : V -> F -> V)
      (uninit : Z -> Z -> Z -> Z -> F) (x y : tensor V)
      (xsize gsize : Z * Z * Z * Z) (l : list (Z * Z * Z))
      (bsize bcount boffset bstride : Z * Z) (do_add : bool) :
  write_op of_batch iadd do_add = Some f ->
  well_formed x -> xsize = shape x -> shape y = shape x ->
  fst bsize = snd bsize -> 0 <= fst bsize ->
  Forall (in_bounds x bsize boffset bstride) l ->
  exists gathered,
    sparse_gather to_float32 uninit x xsize l bsize bcount boffset bstride
    = Ok gathered
    /\ exists y',
        sparse_scatter of_batch iadd y xsize gathered gsize l
          bsize bcount boffset bstride do_add = (y', Ok tt)
        /\ shape y' = shape x
        /\ forall n c h q,
            at4 y' n c h q
            = fold_left
                (fun acc idx =>
                   if block_covers x bsize boffset bstride idx n c h q
                   then f acc (to_float32 (at4 x n c h q))
                   else acc)
                l (at4 y n c h q).
Proof.
  intros Hf Hwf Hx Hs Hsq Hb Hall.
  destruct (sparse_gather_in_bounds to_float32 uninit x xsize l
              bsize bcount boffset bstride Hwf Hx Hsq Hb Hall)
    as (g & Eg & Sg & Hslots).
  exists g. split; [exact Eg|].
  unfold shape in Sg. injection Sg as SN SC SH SW.
  assert (Hready : scatter_ready x xsize g l bsize boffset bstride).
  { unfold scatter_ready. repeat split; try assumption; lia. }
  destruct (sparse_scatter_value of_batch iadd f y xsize g gsize l
              bsize bcount boffset bstride do_add Hf
              (scatter_ready_shape x y xsize g l bsize boffset bstride
                 (eq_sym Hs) Hready))
    as (y' & E & S & Hel).
  exists y'. split; [exact E|]. split; [congruence|].
  intros n c h q. rewrite Hel.
  rewrite <- (scattered_shape V F f xsize bsize boffset bstride g x y l
                (eq_sym Hs)).
  apply (scattered_gathered to_float32 f x g xsize bsize boffset bstride
           n c h q Hx Hb ltac:(lia) l 0 _ Hall Hslots).
Qed.

(** C1, as stated, fails: the batch is float32 whatever [x] is.  On the int64
    tensor of shape (1, 1, 2, 2) holding 16777217 = 2^24 + 1 everywhere, with
    one 2x2 block inside the tensor, gathering and scattering back in
    overwrite mode returns normally and leaves 16777216 in place of
    16777217. *)
Lemma gather_scatter_overwrite_rounds_int64 :
  exists gathered x',
    Forall (in_bounds (fill 1 1 2 2 16777217) (2, 2) (0, 0) (2, 2)) [(0, 0, 0)]
    /\ sparse_gather int64_to_float32 (fun _ _ _ _ => 0%Q)
         (fill 1 1 2 2 16777217) (1, 1, 2, 2) [(0, 0, 0)]
         (2, 2) (1, 1) (0, 0) (2, 2) = Ok gathered
    /\ sparse_scatter float32_to_int64 None (fill 1 1 2 2 16777217)
         (1, 1, 2, 2) gathered (1, 1, 2, 2) [(0, 0, 0)]
         (2, 2) (1, 1) (0, 0) (2, 2) false = (x', Ok tt)
    /\ at4 (fill 1 1 2 2 16777217) 0 0 0 0 = 16777217
    /\ at4 x' 0 0 0 0 = 16777216.
Proof.
  eexists. eexists.
  split; [repeat constructor; cbn; lia|].
  split; [reflexivity|]. split; [reflexivity|].
  split; [reflexivity|]. vm_compute. reflexivity.
Qed.

(** C1, amended: for a well-formed tensor [x] described by [xsize], a square
    block and an index list whose blocks lie fully inside [x],
    [sparse_gather] returns a batch, and scattering that batch back into [x]
    in overwrite mode returns normally and leaves the shape of [x] unchanged.
    Every element inside the block of an index entry becomes what the
    conversion to the float32 batch and back makes of it, every other element
    is unchanged.  So [x] is unchanged when its elements survive that
    conversion, as the elements of a float32 tensor do.  The destination
    windows need not even be disjoint: every write puts back what the gather
    read. *)
Theorem gather_scatter_overwrite_round_trip {V F : Type}
        (to_float32 : V -> F) (of_batch : F -> V) (iadd : option (V -> F -> V))
        (uninit : Z -> Z -> Z -> Z -> F) (x : tensor V)
        (xsize gsize : Z * Z * Z * Z) (activeBlockIndices : list (Z * Z * Z))
        (bsize bcount boffset bstride : Z * Z) :
  well_formed x -> xsize = shape x ->
  fst bsize = snd bsize -> 0 <= fst bsize ->
  Forall (in_bounds x bsize boffset bstride) activeBlockIndices ->
  exists gathered,
    sparse_gather to_float32 uninit x xsize activeBlockIndices
      bsize bcount boffset bstride = Ok gathered
    /\ exists x',
        sparse_scatter of_batch iadd x xsize gathered gsize activeBlockIndices
          bsize bcount boffset bstride false = (x', Ok tt)
        /\ shape x' = shape x
        /\ (forall n c h q,
              at4 x' n c h q
              = if existsb
                     (fun idx => block_covers x bsize boffset bstride idx n c h q)
                     activeBlockIndices
                then of_batch (to_float32 (at4 x n c h q))
                else at4 x n c h q)
        /\ ((forall n c h q,
               0 <= n < dimN x -> 0 <= c < dimC x ->
               0 <= h < dimH x -> 0 <= q < dimW x ->
               of_batch (to_float32 (at4 x n c h q)) = at4 x n c h q) ->
            forall n c h q, at4 x' n c h q = at4 x n c h q).
Proof.
  intros Hwf Hx Hsq Hb Hall.
  destruct (gather_then_scatter to_float32 of_batch iadd
              (fun _ new => of_batch new) uninit x x xsize gsize
              activeBlockIndices bsize bcount boffset bstride false
              eq_refl Hwf Hx eq_refl Hsq Hb Hall)
    as (g & Eg & x' & E & S & Hel).
  exists g. split; [exact Eg|]. exists x'.
  split; [exact E|]. split; [exact S|].
  assert (Hval : forall n c h q,
             at4 x' n c h q
             = if existsb
                    (fun idx => block_covers x bsize boffset bstride idx n c h q)
                    activeBlockIndices
               then of_batch (to_float32 (at4 x n c h q))
               else at4 x n c h q).
  { intros n c h q. rewrite Hel.
    apply (fold_left_fixed
             (fun idx => block_covers x bsize boffset bstride idx n c h q)). }
  split; [exact Hval|].
  intros Hconv n c h q. rewrite Hval.
  destruct (existsb _ activeBlockIndices) eqn:Ex; [|reflexivity].
  apply existsb_exists in Ex. destruct Ex as (idx & Hin & Hc).
  rewrite Forall_forall in Hall.
  pose proof (block_covers_in_range x bsize boffset bstride idx n c h q
                (Hall idx Hin) Hc) as (Hn & Hch & Hh & Hq).
  now apply Hconv.
Qed.

Lemma gather_scatter_overwrite_round_trip_witness :
  exists gathered,
    sparse_gather int64_to_float32 (fun _ _ _ _ => 0%Q) (fill 1 1 4 4 5)
      (1, 1, 4, 4) [(0, 0, 0); (0, 1, 1)] (2, 2) (2, 2) (0, 0) (2, 2)
    = Ok gathered
    /\ exists x',
        sparse_scatter float32_to_int64 None (fill 1 1 4 4 5) (1, 1, 4, 4)
          gathered (2, 1, 2, 2) [(0, 0, 0); (0, 1, 1)]
          (2, 2) (2, 2) (0, 0) (2, 2) false = (x', Ok tt)
        /\ shape x' = shape (fill 1 1 4 4 5)
        /\ forall n c h q, at4 x' n c h q = at4 (fill 1 1 4 4 5) n c h q.
Proof.
  destruct (gather_scatter_overwrite_round_trip int64_to_float32
              float32_to_int64 None (fun _ _ _ _ => 0%Q)
              (fill 1 1 4 4 5) (1, 1, 4, 4) (2, 1, 2, 2)
              [(0, 0, 0); (0, 1, 1)] (2, 2) (2, 2) (0, 0) (2, 2))
    as (g & Eg & x' & E & S & _ & Hsame).
  - unfold well_formed. cbn. lia.
  - reflexivity.
  - reflexivity.
  - cbn. lia.
  - repeat constructor; cbn; lia.
  - exists g. split; [exact Eg|]. exists x'.
    split; [exact E|]. split; [exact S|].
    apply Hsame. intros n c h q _ _ _ _. vm_compute. reflexivity.
Defined.

(** C7, as stated, fails off float32.  On an int64 tensor torch refuses to
    add the float32 batch in place: the add scatter raises at the first
    entry and the zero tensor stays zero where the block covers it.  On a
    float64 tensor holding 16777217 = 2^24 + 1 the calls return and the
    covered elements end as 16777216. *)
Lemma gather_scatter_add_differs_off_float32 :
  (exists gathered,
     Forall (in_bounds (ramp 1 1 2 2) (2, 2) (0, 0) (2, 2)) [(0, 0, 0)]
     /\ sparse_gather int64_to_float32 (fun _ _ _ _ => 0%Q) (ramp 1 1 2 2)
          (1, 1, 2, 2) [(0, 0, 0)] (2, 2) (1, 1) (0, 0) (2, 2) = Ok gathered
     /\ sparse_scatter float32_to_int64 None (zeros_like 0 (ramp 1 1 2 2))
          (1, 1, 2, 2) gathered (1, 1, 2, 2) [(0, 0, 0)]
          (2, 2) (1, 1) (0, 0) (2, 2) true
        = (zeros_like 0 (ramp 1 1 2 2), Raise RuntimeError)
     /\ block_covers (ramp 1 1 2 2) (2, 2) (0, 0) (2, 2) (0, 0, 0) 0 0 0 0 = true
     /\ at4 (zeros_like 0 (ramp 1 1 2 2)) 0 0 0 0 <> at4 (ramp 1 1 2 2) 0 0 0 0)
  /\ (exists gathered z',
        Forall (in_bounds (fill 1 1 2 2 16777217%Q) (2, 2) (0, 0) (2, 2))
          [(0, 0, 0)]
        /\ sparse_gather float32_round (fun _ _ _ _ => 0%Q)
             (fill 1 1 2 2 16777217%Q) (1, 1, 2, 2) [(0, 0, 0)]
             (2, 2) (1, 1) (0, 0) (2, 2) = Ok gathered
        /\ sparse_scatter (fun g => g) (Some float64_iadd)
             (zeros_like 0%Q (fill 1 1 2 2 16777217%Q))
             (1, 1, 2, 2) gathered (1, 1, 2, 2) [(0, 0, 0)]
             (2, 2) (1, 1) (0, 0) (2, 2) true = (z', Ok tt)
        /\ block_covers (fill 1 1 2 2 16777217%Q) (2, 2) (0, 0) (2, 2)
             (0, 0, 0) 0 0 0 0 = true
        /\ at4 (fill 1 1 2 2 16777217%Q) 0 0 0 0 = 16777217%Q
        /\ at4 z' 0 0 0 0 = 16777216%Q).
Proof.
  split.
  - eexists. split; [repeat constructor; cbn; lia|].
    split; [reflexivity|]. split; [reflexivity|].
    split; [reflexivity|]. vm_compute. discriminate.
  - eexists. eexists. split; [repeat constructor; cbn; lia|].
    split; [reflexivity|]. split; [reflexivity|].
    split; [reflexivity|]. split; [reflexivity|]. vm_compute. reflexivity.
Qed.

(** C7, amended: for a well-formed tensor [x] described by [xsize], a square
    block and an index list whose blocks lie fully inside [x], and element
    types for which torch performs the in-place addition [add] of a batch
    element into an element of [x], scattering [sparse_gather(x)] in add mode
    into a zero tensor of the shape of [x] returns normally, and every element
    of the result is the sum, starting from zero, of one copy of the float32
    conversion of the element of [x] per index entry whose block holds it:
    zero where no block holds it, and the element of [x] where exactly one
    does and the element survives the conversion, as the elements of a
    float32 tensor do. *)
Theorem gather_scatter_add_round_trip {V F : Type}
        (to_float32 : V -> F) (of_batch : F -> V) (add : V -> F -> V) (zero : V)
        (uninit : Z -> Z -> Z -> Z -> F) (x : tensor V)
        (xsize gsize : Z * Z * Z * Z) (activeBlockIndices : list (Z * Z * Z))
        (bsize bcount boffset bstride : Z * Z) :
  well_formed x -> xsize = shape x ->
  fst bsize = snd bsize -> 0 <= fst bsize ->
  Forall (in_bounds x bsize boffset bstride) activeBlockIndices ->
  exists gathered,
    sparse_gather to_float32 uninit x xsize activeBlockIndices
      bsize bcount boffset bstride = Ok gathered
    /\ exists z',
        sparse_scatter of_batch (Some add) (zeros_like zero x) xsize gathered
          gsize activeBlockIndices bsize bcount boffset bstride true
        = (z', Ok tt)
        /\ shape z' = shape x
        /\ forall n c h q,
            let covering :=
              block_count x bsize boffset bstride activeBlockIndices n c h q in
            at4 z' n c h q
            = Nat.iter covering
                (fun acc => add acc (to_float32 (at4 x n c h q))) zero
            /\ (covering = 0%nat -> at4 z' n c h q = zero)
            /\ (covering = 1%nat ->
                add zero (to_float32 (at4 x n c h q)) = at4 x n c h q ->
                at4 z' n c h q = at4 x n c h q).
Proof.
  intros Hwf Hx Hsq Hb Hall.
  destruct (gather_then_scatter to_float32 of_batch (Some add) add uninit
              x (zeros_like zero x) xsize gsize
              activeBlockIndices bsize bcount boffset bstride true
              eq_refl Hwf Hx eq_refl Hsq Hb Hall)
    as (g & Eg & z' & E & S & Hel).
  exists g. split; [exact Eg|]. exists z'.
  split; [exact E|]. split; [exact S|].
  intros n c h q.
  set (covering := block_count x bsize boffset bstride activeBlockIndices n c h q).
  assert (Hsum : at4 z' n c h q
                 = Nat.iter covering
                     (fun acc => add acc (to_float32 (at4 x n c h q))) zero).
  { rewrite Hel. cbn [zeros_like at4].
    apply (fold_left_iter
             (fun idx => block_covers x bsize boffset bstride idx n c h q)
             (fun acc => add acc (to_float32 (at4 x n c h q)))). }
  split; [exact Hsum|]. rewrite Hsum. split.
  - intros ->. reflexivity.
  - intros -> Hconv. cbn. exact Hconv.
Qed.

Lemma gather_scatter_add_round_trip_witness :
  exists gathered,
    sparse_gather (fun v : Q => v) (fun _ _ _ _ => 0%Q) (fill 1 1 4 4 (1 # 2))
      (1, 1, 4, 4) [(0, 0, 0); (0, 1, 0)] (2, 2) (3, 3) (0, 0) (1, 1)
    = Ok gathered
    /\ exists z',
        sparse_scatter (fun g : Q => g) (Some float32_iadd)
          (zeros_like 0%Q (fill 1 1 4 4 (1 # 2))) (1, 1, 4, 4) gathered
          (2, 1, 2, 2) [(0, 0, 0); (0, 1, 0)] (2, 2) (3, 3) (0, 0) (1, 1) true
        = (z', Ok tt)
        /\ shape z' = shape (fill 1 1 4 4 (1 # 2))
        /\ forall n c h q,
            let covering :=
              block_count (fill 1 1 4 4 (1 # 2)) (2, 2) (0, 0) (1, 1)
                [(0, 0, 0); (0, 1, 0)] n c h q in
            at4 z' n c h q
            = Nat.iter covering
                (fun acc => float32_iadd acc (at4 (fill 1 1 4 4 (1 # 2)) n c h q))
                0%Q
            /\ (covering = 0%nat -> at4 z' n c h q = 0%Q)
            /\ (covering = 1%nat ->
                float32_iadd 0 (at4 (fill 1 1 4 4 (1 # 2)) n c h q)
                = at4 (fill 1 1 4 4 (1 # 2)) n c h q ->
                at4 z' n c h q = at4 (fill 1 1 4 4 (1 # 2)) n c h q).
Proof.
  apply (gather_scatter_add_round_trip (fun v : Q => v) (fun g : Q => g)
           float32_iadd 0%Q (fun _ _ _ _ => 0%Q)
           (fill 1 1 4 4 (1 # 2)) (1, 1, 4, 4) (2, 1, 2, 2)
           [(0, 0, 0); (0, 1, 0)] (2, 2) (3, 3) (0, 0) (1, 1)).
  - unfold well_formed. cbn. lia.
  - reflexivity.
  - reflexivity.
  - cbn. lia.
  - repeat constructor; cbn; lia.
Defined.

(** The additive round trip on a float32 tensor whose blocks overlap in the
    second row: the elements under one block come back, the elements under
    two blocks are doubled, the rest is zero. *)
Example gather_scatter_add_float32 :
  match sparse_gather (fun v : Q => v) (fun _ _ _ _ => 0%Q)
          (fill 1 1 4 4 (1 # 2)) (1, 1, 4, 4) [(0, 0, 0); (0, 1, 0)]
          (2, 2) (3, 3) (0, 0) (1, 1) with
  | Ok g =>
      let r := sparse_scatter (fun g : Q => g) (Some float32_iadd)
                 (zeros_like 0%Q (fill 1 1 4 4 (1 # 2))) (1, 1, 4, 4) g
                 (2, 1, 2, 2) [(0, 0, 0); (0, 1, 0)]
                 (2, 2) (3, 3) (0, 0) (1, 1) true in
      (map (fun h => map (fun q => at4 (fst r) 0 0 h q) [0; 1; 2; 3])
           [0; 1; 2; 3], snd r)
  | Raise e => ([], Raise e)
  end
  = ([[1 # 2; 1 # 2; 0; 0]; [1; 1; 0; 0]; [1 # 2; 1 # 2; 0; 0]; [0; 0; 0; 0]]%Q,
     Ok tt).
Proof. vm_compute. reflexivity. Qed.

(** * The three operations in sequence *)

Lemma grid_fits_block (size count offset stride extent i : Z) :
  grid_fits size count offset stride extent -> 0 <= i < count ->
  0 <= offset + i * stride /\ offset + i * stride + size <= extent.
Proof.
  intros (Hs & Ho & Hst & Hfit) Hi.
  assert (0 <= i * stride) by (apply Z.mul_nonneg_nonneg; lia).
  assert (i * stride <= (count - 1) * stride)
    by (apply Z.mul_le_mono_nonneg_r; lia).
  lia.
Qed.

Lemma active_cells_in_bounds {V : Type} (mean : list (list Q) -> option Q)
      (x : tensor V) (mask : mask_tensor) (msize : Z * Z * Z)
      (bsize bcount boffset bstride : Z * Z) (thresh : Q) :
  msize0 msize <= dimN x ->
  grid_fits (fst bsize) (fst bcount) (fst boffset) (fst bstride) (dimH x) ->
  grid_fits (snd bsize) (snd bcount) (snd boffset) (snd bstride) (dimW x) ->
  Forall (in_bounds x bsize boffset bstride)
    (active_cells mean mask msize bsize bcount boffset bstride thresh).
Proof.
  intros HN Hfh Hfw. apply Forall_forall. intros [[N h0] w0] Hin.
  apply In_active_cells in Hin. destruct Hin as [(HNr & Hh & Hw) _].
  pose proof (grid_fits_block _ _ _ _ _ h0 Hfh Hh).
  pose proof (grid_fits_block _ _ _ _ _ w0 Hfw Hw).
  unfold in_bounds. lia.
Qed.

Lemma filter_existsb_false {A : Type} (p : A -> bool) (l : list A) :
  existsb p l = false -> filter p l = [].
Proof.
  induction l as [|a l IH]; cbn; [reflexivity|].
  destruct (p a); cbn; [discriminate | exact IH].
Qed.

Lemma filter_at_most_one {A : Type} (p : A -> bool) (l : list A) :
  NoDup l ->
  (forall a b, In a l -> In b l -> p a = true -> p b = true -> a = b) ->
  (List.length (filter p l) <= 1)%nat.
Proof.
  induction 1 as [|a l Hnotin Hnd IH]; intros Huniq; cbn; [lia|].
  destruct (p a) eqn:Ea.
  - rewrite filter_existsb_false; [cbn; lia|].
    apply not_true_is_false. intros He.
    apply existsb_exists in He. destruct He as (b & Hb & Epb).
    apply Hnotin. rewrite (Huniq a b); auto; [now left | now right].
  - apply IH. intros b b' Hb Hb'. apply Huniq; now right.
Qed.

Lemma filter_existsb_true {A : Type} (p : A -> bool) (l : list A) :
  existsb p l = true -> (1 <= List.length (filter p l))%nat.
Proof.
  induction l as [|a l IH]; cbn; [discriminate|].
  destruct (p a); cbn; [lia | exact IH].
Qed.

(** X17: selecting, gathering and scattering back in overwrite mode: when
    the preconditions of [reduce_mask] hold, the mask has at most as many
    batch entries as [x], the grid fits on [x] and the elements of [x]
    survive the conversion to the float32 batch and back, the three calls
    return normally one after the other and [x] ends unchanged. *)
Theorem select_gather_scatter_round_trip {V F : Type}
        (mean : list (list Q) -> option Q)
        (to_float32 : V -> F) (of_batch : F -> V) (iadd : option (V -> F -> V))
        (uninit : Z -> Z -> Z -> Z -> F)
        (mask : mask_tensor) (msize : Z * Z * Z) (thresh : Q)
        (x : tensor V) (xsize gsize : Z * Z * Z * Z)
        (bsize bcount boffset bstride : Z * Z) :
  (forall n c h q,
     0 <= n < dimN x -> 0 <= c < dimC x -> 0 <= h < dimH x -> 0 <= q < dimW x ->
     of_batch (to_float32 (at4 x n c h q)) = at4 x n c h q) ->
  reduce_mask_pre mask msize bsize bcount ->
  mask_size mask = [msize0 msize; msize1 msize; msize2 msize] ->
  well_formed x -> xsize = shape x -> msize0 msize <= dimN x ->
  grid_fits (fst bsize) (fst bcount) (fst boffset) (fst bstride) (dimH x) ->
  grid_fits (snd bsize) (snd bcount) (snd boffset) (snd bstride) (dimW x) ->
  exists activeBlockIndices gathered x',
    reduce_mask mean mask msize bsize bcount boffset bstride thresh
    = Ok activeBlockIndices
    /\ sparse_gather to_float32 uninit x xsize activeBlockIndices
         bsize bcount boffset bstride = Ok gathered
    /\ sparse_scatter of_batch iadd x xsize gathered gsize activeBlockIndices
         bsize bcount boffset bstride false = (x', Ok tt)
    /\ shape x' = shape x
    /\ forall n c h q, at4 x' n c h q = at4 x n c h q.
Proof.
  intros Hconv Hpre Hsz Hwf Hx HN Hfh Hfw.
  set (l := active_cells mean mask msize bsize bcount boffset bstride thresh).
  assert (Hall : Forall (in_bounds x bsize boffset bstride) l)
    by (now apply active_cells_in_bounds).
  assert (Hsq : fst bsize = snd bsize) by (apply Hpre).
  assert (Hb : 0 <= fst bsize) by (destruct Hfh; lia).
  destruct (gather_then_scatter to_float32 of_batch iadd
              (fun _ new => of_batch new) uninit x x xsize gsize
              l bsize bcount boffset bstride false
              eq_refl Hwf Hx eq_refl Hsq Hb Hall)
    as (g & Eg & x' & E & S & Hel).
  exists l, g, x'.
  split; [now apply reduce_mask_Ok|]. split; [exact Eg|].
  split; [exact E|]. split; [exact S|].
  intros n c h q. rewrite Hel.
  rewrite (fold_left_fixed
             (fun idx => block_covers x bsize boffset bstride idx n c h q)).
  destruct (existsb _ l) eqn:Ex; [|reflexivity].
  apply existsb_exists in Ex. destruct Ex as (idx & Hin & Hc).
  rewrite Forall_forall in Hall.
  pose proof (block_covers_in_range x bsize boffset bstride idx n c h q
                (Hall idx Hin) Hc) as (Hn & Hch & Hh & Hq).
  now apply Hconv.
Qed.

Lemma select_gather_scatter_round_trip_witness :
  exists activeBlockIndices gathered x',
    reduce_mask float32_mean (const_mask [1; 4; 4] 1%Q) (1, 4, 4)
      (2, 2) (2, 2) (0, 0) (2, 2) (1 # 2) = Ok activeBlockIndices
    /\ sparse_gather int64_to_float32 (fun _ _ _ _ => 0%Q) (fill 1 3 4 4 5)
         (1, 3, 4, 4) activeBlockIndices (2, 2) (2, 2) (0, 0) (2, 2)
       = Ok gathered
    /\ sparse_scatter float32_to_int64 None (fill 1 3 4 4 5) (1, 3, 4, 4)
         gathered (4, 3, 2, 2) activeBlockIndices
         (2, 2) (2, 2) (0, 0) (2, 2) false = (x', Ok tt)
    /\ shape x' = shape (fill 1 3 4 4 5)
    /\ forall n c h q, at4 x' n c h q = at4 (fill 1 3 4 4 5) n c h q.
Proof.
  apply (select_gather_scatter_round_trip float32_mean int64_to_float32
           float32_to_int64 None (fun _ _ _ _ => 0%Q)
           (const_mask [1; 4; 4] 1%Q) (1, 4, 4) (1 # 2)
           (fill 1 3 4 4 5) (1, 3, 4, 4) (4, 3, 2, 2)
           (2, 2) (2, 2) (0, 0) (2, 2)).
  - intros n c h q _ _ _ _. vm_compute. reflexivity.
  - unfold reduce_mask_pre, evenly_divides. cbn. repeat split; lia.
  - reflexivity.
  - unfold well_formed. cbn. lia.
  - reflexivity.
  - cbn. lia.
  - unfold grid_fits. cbn. lia.
  - unfold grid_fits. cbn. lia.
Defined.

(** X18: selecting, gathering and scattering in add mode onto zeros, on a
    grid that fits on [x] and whose stride is at least the block size, for
    element types whose in-place addition torch performs and elements that
    survive the conversion to float32 and the addition to zero: the three
    calls return normally, and the result holds the element of [x] wherever
    the block of a selected cell holds it and zero everywhere else; nothing
    is added twice. *)
Theorem select_gather_scatter_add_masks {V F : Type}
        (mean : list (list Q) -> option Q)
        (to_float32 : V -> F) (of_batch : F -> V) (add : V -> F -> V) (zero : V)
        (uninit : Z -> Z -> Z -> Z -> F)
        (mask : mask_tensor) (msize : Z * Z * Z) (thresh : Q)
        (x : tensor V) (xsize gsize : Z * Z * Z * Z)
        (bsize bcount boffset bstride : Z * Z) :
  (forall n c h q,
     0 <= n < dimN x -> 0 <= c < dimC x -> 0 <= h < dimH x -> 0 <= q < dimW x ->
     add zero (to_float32 (at4 x n c h q)) = at4 x n c h q) ->
  reduce_mask_pre mask msize bsize bcount ->
  mask_size mask = [msize0 msize; msize1 msize; msize2 msize] ->
  well_formed x -> xsize = shape x -> msize0 msize <= dimN x ->
  grid_fits (fst bsize) (fst bcount) (fst boffset) (fst bstride) (dimH x) ->
  grid_fits (snd bsize) (snd bcount) (snd boffset) (snd bstride) (dimW x) ->
  fst bsize <= fst bstride -> snd bsize <= snd bstride ->
  exists activeBlockIndices gathered z',
    reduce_mask mean mask msize bsize bcount boffset bstride thresh
    = Ok activeBlockIndices
    /\ sparse_gather to_float32 uninit x xsize activeBlockIndices
         bsize bcount boffset bstride = Ok gathered
    /\ sparse_scatter of_batch (Some add) (zeros_like zero x) xsize gathered
         gsize activeBlockIndices bsize bcount boffset bstride true
       = (z', Ok tt)
    /\ shape z' = shape x
    /\ forall n c h q,
        at4 z' n c h q
        = if existsb
               (fun idx => block_covers x bsize boffset bstride idx n c h q)
               activeBlockIndices
          then at4 x n c h q else zero.
Proof.
  intros Hconv Hpre Hsz Hwf Hx HN Hfh Hfw Hsh Hsw.
  set (l := active_cells mean mask msize bsize bcount boffset bstride thresh).
  assert (Hall : Forall (in_bounds x bsize boffset bstride) l)
    by (now apply active_cells_in_bounds).
  assert (Hsq : fst bsize = snd bsize) by (apply Hpre).
  assert (Hb0 : 0 < fst bsize) by (destruct Hfh; lia).
  assert (Hb1 : 0 < snd bsize) by (destruct Hfw; lia).
  destruct (gather_then_scatter to_float32 of_batch (Some add) add uninit
              x (zeros_like zero x) xsize gsize
              l bsize bcount boffset bstride true
              eq_refl Hwf Hx eq_refl Hsq ltac:(lia) Hall)
    as (g & Eg & z' & E & S & Hel).
  exists l, g, z'.
  split; [now apply reduce_mask_Ok|]. split; [exact Eg|].
  split; [exact E|]. split; [exact S|].
  intros n c h q. rewrite Hel. cbn [zeros_like at4].
  set (p := fun idx => block_covers x bsize boffset bstride idx n c h q).
  rewrite (fold_left_iter p (fun acc => add acc (to_float32 (at4 x n c h q)))).
  rewrite Forall_forall in Hall.
  assert (Hone : (List.length (filter p l) <= 1)%nat).
  { apply filter_at_most_one.
    - apply (StronglySorted_NoDup lex_lt); [apply lex_lt_irrefl|].
      apply active_cells_sorted.
    - intros a b Ha Hb Hpa Hpb. subst p. cbn beta in Hpa, Hpb.
      rewrite <- (covers_block_covers xsize bsize boffset bstride x a n c h q
                    Hx ltac:(lia) ltac:(lia) (Hall a Ha)) in Hpa.
      rewrite <- (covers_block_covers xsize bsize boffset bstride x b n c h q
                    Hx ltac:(lia) ltac:(lia) (Hall b Hb)) in Hpb.
      apply (scatter_windows_disjoint_axes x xsize bsize boffset bstride a b
               n c h q); auto; lia. }
  destruct (existsb p l) eqn:Ex.
  - pose proof (filter_existsb_true p l Ex) as Hge.
    replace (List.length (filter p l)) with 1%nat by lia.
    apply existsb_exists in Ex. destruct Ex as (idx & Hin & Hc).
    pose proof (block_covers_in_range x bsize boffset bstride idx n c h q
                  (Hall idx Hin) Hc) as (Hn & Hch & Hh & Hq).
    cbn. now apply Hconv.
  - now rewrite filter_existsb_false.
Qed.

Lemma select_gather_scatter_add_masks_witness :
  exists activeBlockIndices gathered z',
    reduce_mask float32_mean (const_mask [1; 4; 4] 1%Q) (1, 4, 4)
      (2, 2) (2, 2) (0, 0) (2, 2) (1 # 2) = Ok activeBlockIndices
    /\ sparse_gather (fun v : Q => v) (fun _ _ _ _ => 0%Q)
         (fill 1 3 4 4 (1 # 2)) (1, 3, 4, 4) activeBlockIndices
         (2, 2) (2, 2) (0, 0) (2, 2) = Ok gathered
    /\ sparse_scatter (fun g : Q => g) (Some float32_iadd)
         (zeros_like 0%Q (fill 1 3 4 4 (1 # 2))) (1, 3, 4, 4) gathered
         (4, 3, 2, 2) activeBlockIndices (2, 2) (2, 2) (0, 0) (2, 2) true
       = (z', Ok tt)
    /\ shape z' = shape (fill 1 3 4 4 (1 # 2))
    /\ forall n c h q,
        at4 z' n c h q
        = if existsb
               (fun idx => block_covers (fill 1 3 4 4 (1 # 2)) (2, 2) (0, 0) (2, 2)
                             idx n c h q)
               activeBlockIndices
          then at4 (fill 1 3 4 4 (1 # 2)) n c h q else 0%Q.
Proof.
  apply (select_gather_scatter_add_masks float32_mean (fun v : Q => v)
           (fun g : Q => g) float32_iadd 0%Q (fun _ _ _ _ => 0%Q)
           (const_mask [1; 4; 4] 1%Q) (1, 4, 4) (1 # 2)
           (fill 1 3 4 4 (1 # 2)) (1, 3, 4, 4) (4, 3, 2, 2)
           (2, 2) (2, 2) (0, 0) (2, 2)).
  - intros n c h q _ _ _ _. vm_compute. reflexivity.
  - unfold reduce_mask_pre, evenly_divides. cbn. repeat split; lia.
  - reflexivity.
  - unfold well_formed. cbn. lia.
  - reflexivity.
  - cbn. lia.
  - unfold grid_fits. cbn. lia.
  - unfold grid_fits. cbn. lia.
  - cbn. lia.
  - cbn. lia.
Defined.

(** * Scatter, then gather *)

(** X19: the other round trip.  On blocks inside the tensor, with a stride
    of at least the block size and an index list without repetition,
    gathering after an overwrite scatter returns the blocks that were
    scattered, when the elements of the batch survive the conversion to the
    element type of [x] and back: slot by slot, the new batch holds the
    elements of the old one. *)
Theorem scatter_gather_round_trip {V F : Type}
        (to_float32 : V -> F) (of_batch : F -> V) (iadd : option (V -> F -> V))
        (uninit : Z -> Z -> Z -> Z -> F)
        (x : tensor V) (xsize : Z * Z * Z * Z) (gathered : tensor F)
        (gsize : Z * Z * Z * Z) (activeBlockIndices : list (Z * Z * Z))
        (bsize bcount boffset bstride : Z * Z) :
  well_formed x ->
  scatter_ready x xsize gathered activeBlockIndices bsize boffset bstride ->
  0 < fst bsize <= fst bstride -> 0 < snd bsize <= snd bstride ->
  NoDup activeBlockIndices ->
  (forall i c r q,
     (i < List.length activeBlockIndices)%nat ->
     0 <= c < dimC x -> 0 <= r < fst bsize -> 0 <= q < snd bsize ->
     to_float32 (of_batch (at4 gathered (Z.of_nat i) c r q))
     = at4 gathered (Z.of_nat i) c r q) ->
  exists x' gathered',
    sparse_scatter of_batch iadd x xsize gathered gsize activeBlockIndices
      bsize bcount boffset bstride false = (x', Ok tt)
    /\ sparse_gather to_float32 uninit x' xsize activeBlockIndices
         bsize bcount boffset bstride = Ok gathered'
    /\ forall i c r q,
        (i < List.length activeBlockIndices)%nat ->
        0 <= c < dimC x -> 0 <= r < fst bsize -> 0 <= q < snd bsize ->
        at4 gathered' (Z.of_nat i) c r q = at4 gathered (Z.of_nat i) c r q.
Proof.
  intros Hwf Hready Hsh Hsw Hnd Hconv.
  destruct (sparse_scatter_value of_batch iadd (fun _ new => of_batch new)
              x xsize gathered gsize activeBlockIndices
              bsize bcount boffset bstride false eq_refl Hready)
    as (x' & E & S & Hel).
  pose proof (scatter_ready_shape x x' xsize gathered activeBlockIndices
                bsize boffset bstride (eq_sym S) Hready) as Hready'.
  destruct Hready as (Hx & Hsq & Hb & HC & HH & HW & Hlen & Hall).
  destruct Hready' as (Hx' & _ & _ & _ & _ & _ & _ & Hall').
  pose proof (proj1 (shape_eq x' x) S) as (SN & SC & SH & SW).
  assert (Hwf' : well_formed x') by (unfold well_formed in *; lia).
  destruct (sparse_gather_in_bounds to_float32 uninit x' xsize activeBlockIndices
              bsize bcount boffset bstride Hwf' Hx' Hsq Hb Hall')
    as (g' & Eg & _ & Hslots).
  exists x', g'. split; [exact E|]. split; [exact Eg|].
  intros i c r q Hi Hc Hr Hq.
  destruct (nth_error activeBlockIndices i) as [[[B h0] w0]|] eqn:Hn;
    [|apply nth_error_None in Hn; lia].
  pose proof (slots_hold_nth to_float32 x' g' bsize boffset bstride
                activeBlockIndices 0 i (B, h0, w0) Hslots Hn) as [_ Hg'].
  cbn [Z.add] in Hg'. rewrite Hg' by lia.
  set (bh_index := fst boffset + h0 * fst bstride).
  set (bw_index := snd boffset + w0 * snd bstride).
  rewrite Hel.
  assert (Hin : in_bounds x bsize boffset bstride (B, h0, w0)).
  { rewrite Forall_forall in Hall. apply Hall. eapply nth_error_In; eauto. }
  rewrite (scattered_last_wins V F xsize bsize boffset bstride x gathered
             B c (bh_index + r) (bw_index + q) of_batch
             activeBlockIndices 0 i (B, h0, w0)).
  - cbn [slot_value Z.add]. fold bh_index bw_index.
    replace (bh_index + r - bh_index) with r by lia.
    replace (bw_index + q - bw_index) with q by lia.
    now apply Hconv.
  - exact Hn.
  - apply (covers_in_bounds xsize bsize boffset bstride x B h0 w0 _ _ _ _ Hx
             ltac:(lia) ltac:(lia) Hin).
    fold bh_index bw_index. lia.
  - intros j idx' Hj Hnj. apply not_true_is_false. intros Hcov.
    assert (Hin' : in_bounds x bsize boffset bstride idx').
    { rewrite Forall_forall in Hall. apply Hall. eapply nth_error_In; eauto. }
    assert (Hcov0 : covers x xsize bsize boffset bstride (B, h0, w0)
                      B c (bh_index + r) (bw_index + q) = true).
    { apply (covers_in_bounds xsize bsize boffset bstride x B h0 w0 _ _ _ _ Hx
               ltac:(lia) ltac:(lia) Hin).
      fold bh_index bw_index. lia. }
    pose proof (scatter_windows_disjoint_axes x xsize bsize boffset bstride
                  (B, h0, w0) idx' B c (bh_index + r) (bw_index + q)
                  Hx Hsh Hsw Hin Hin' Hcov0 Hcov) as Heq.
    subst idx'.
    pose proof (proj1 (NoDup_nth_error activeBlockIndices) Hnd i j Hi) as Hij.
    rewrite Hn, Hnj in Hij. specialize (Hij eq_refl). lia.
Qed.

Lemma scatter_gather_round_trip_witness :
  exists x' gathered',
    sparse_scatter float32_to_int64 None (ramp 1 1 4 4) (1, 1, 4, 4)
      (fill 2 1 2 2 5%Q) (2, 1, 2, 2)
      [(0, 0, 0); (0, 1, 1)] (2, 2) (2, 2) (0, 0) (2, 2) false = (x', Ok tt)
    /\ sparse_gather int64_to_float32 (fun _ _ _ _ => 0%Q) x' (1, 1, 4, 4)
         [(0, 0, 0); (0, 1, 1)] (2, 2) (2, 2) (0, 0) (2, 2) = Ok gathered'
    /\ forall i c r q,
        (i < 2)%nat -> 0 <= c < 1 -> 0 <= r < 2 -> 0 <= q < 2 ->
        at4 gathered' (Z.of_nat i) c r q
        = at4 (fill 2 1 2 2 5%Q) (Z.of_nat i) c r q.
Proof.
  apply (scatter_gather_round_trip int64_to_float32 float32_to_int64 None
           (fun _ _ _ _ => 0%Q)
           (ramp 1 1 4 4) (1, 1, 4, 4) (fill 2 1 2 2 5%Q) (2, 1, 2, 2)
           [(0, 0, 0); (0, 1, 1)] (2, 2) (2, 2) (0, 0) (2, 2)).
  - unfold well_formed. cbn. lia.
  - unfold scatter_ready. cbn.
    repeat split; try lia. repeat constructor; cbn; lia.
  - cbn. lia.
  - cbn. lia.
  - repeat constructor; cbn; intuition discriminate.
  - intros i c r q _ _ _ _. vm_compute. reflexivity.
Defined.
